(** * gameworldgr: the content-to-forum-post job

    A shallow embedding of [src/index.ts] (the watermark-driven job: the
    document of that file that imports [./utils]), [src/utils.ts] and the
    query layer [queryDatabase], followed by the properties of the
    segmenter, the composer, the duplicate guard, the transactional writer
    and the orchestrator.

    JavaScript strings are lists of UTF-16 code units.  The libraries the
    job calls (the HTML parser and serialiser, the BBCode converter, the
    date formatter) are ports: fields of a record the pipeline is
    parameterised by. *)

From Stdlib Require Import String Ascii.
From Stdlib Require Import List ZArith NArith Bool Lia PeanoNat.
Import ListNotations.

Set Implicit Arguments.

(* ================================================================== *)
(** ** JavaScript strings *)

Module Js.

Definition jschar := N.
Definition jsstring := list jschar.

(** An ASCII literal of the source, as code units. *)
Definition lit (s : string) : jsstring :=
  map N_of_ascii (list_ascii_of_string s).

Definition chr (a : ascii) : jschar := N_of_ascii a.

Fixpoint eqb (a b : jsstring) : bool :=
  match a, b with
  | [], [] => true
  | x :: a', y :: b' => N.eqb x y && eqb a' b'
  | _, _ => false
  end.

Lemma eqb_eq (a b : jsstring) : eqb a b = true <-> a = b.
Proof.
  revert b; induction a as [|x a IH]; intros [|y b]; simpl;
    try (split; congruence).
  rewrite andb_true_iff, N.eqb_eq, IH. split.
  - intros [-> ->]; reflexivity.
  - intros E; inversion E; auto.
Qed.

Lemma eqb_refl (a : jsstring) : eqb a a = true.
Proof. apply eqb_eq; reflexivity. Qed.

(** [\d] *)
Definition isDigit (c : jschar) : bool := (48 <=? c)%N && (c <=? 57)%N.

(** Line terminators: what [.] does not match. *)
Definition isLineTerminator (c : jschar) : bool :=
  (c =? 10)%N || (c =? 13)%N || (c =? 0x2028)%N || (c =? 0x2029)%N.

(** [\s], which is also what [trim] removes. *)
Definition isWhiteSpace (c : jschar) : bool :=
  ((9 <=? c)%N && (c <=? 13)%N) || (c =? 32)%N || (c =? 0xa0)%N
  || (c =? 0x1680)%N || ((0x2000 <=? c)%N && (c <=? 0x200a)%N)
  || (c =? 0x2028)%N || (c =? 0x2029)%N || (c =? 0x202f)%N
  || (c =? 0x205f)%N || (c =? 0x3000)%N || (c =? 0xfeff)%N.

(** Canonicalisation of the [i] flag without the [u] flag: only the
    ASCII letters fold onto ASCII letters. *)
Definition upcase (c : jschar) : jschar :=
  if (97 <=? c)%N && (c <=? 122)%N then (c - 32)%N else c.

Fixpoint dropWhile (p : jschar -> bool) (s : jsstring) : jsstring :=
  match s with
  | [] => []
  | c :: s' => if p c then dropWhile p s' else s
  end.

(** [s.trim()] *)
Definition trim (s : jsstring) : jsstring :=
  rev (dropWhile isWhiteSpace (rev (dropWhile isWhiteSpace s))).

(** [s] minus the prefix [p], compared exactly. *)
Fixpoint stripPrefix (p s : jsstring) : option jsstring :=
  match p, s with
  | [], _ => Some s
  | x :: p', y :: s' => if (x =? y)%N then stripPrefix p' s' else None
  | _ :: _, [] => None
  end.

(** [s] minus the prefix [p], compared under the [i] flag. *)
Fixpoint stripPrefixCI (p s : jsstring) : option jsstring :=
  match p, s with
  | [], _ => Some s
  | x :: p', y :: s' =>
      if (upcase x =? upcase y)%N then stripPrefixCI p' s' else None
  | _ :: _, [] => None
  end.

(** [s.includes(p)] *)
Fixpoint includes (p s : jsstring) : bool :=
  match stripPrefix p s with
  | Some _ => true
  | None => match s with
            | [] => false
            | _ :: s' => includes p s'
            end
  end.

(** [parts.join(sep)] *)
Fixpoint join (sep : jsstring) (parts : list jsstring) : jsstring :=
  match parts with
  | [] => []
  | [p] => p
  | p :: ps => p ++ sep ++ join sep ps
  end.

(** [s.split("\n")]: never empty, one more part than line feeds. *)
Fixpoint splitLines (s : jsstring) : list jsstring :=
  match s with
  | [] => [[]]
  | c :: s' =>
      if (c =? 10)%N then [] :: splitLines s'
      else match splitLines s' with
           | l :: ls => (c :: l) :: ls
           | [] => [[c]]
           end
  end.

(** Decimal digits of a number, as [String(n)] prints a non-negative
    integer below 2^53. *)
Fixpoint digitsFuel (fuel : nat) (n : N) (acc : jsstring) : jsstring :=
  match fuel with
  | O => acc
  | S f =>
      let acc' := (48 + n mod 10)%N :: acc in
      if (n <? 10)%N then acc' else digitsFuel f (n / 10)%N acc'
  end.

Definition ofN (n : N) : jsstring := digitsFuel (S (N.to_nat (N.log2 n))) n [].

Definition ofZ (z : Z) : jsstring :=
  if (z <? 0)%Z then N_of_ascii "-" :: ofN (Z.abs_N z) else ofN (Z.to_N z).

(** [Number(s)] on a string of decimal digits (exact below 2^53). *)
Definition toN (s : jsstring) : N :=
  fold_left (fun acc c => (10 * acc + (c - 48))%N) s 0%N.

End Js.

Import Js.

(* ================================================================== *)
(** ** The update marker: [UPDATE_REGEX]

    The pattern, flags [g] and [i], reads: an opening bracket, the word
    UPDATE, optionally white space then digits (both greedy), optionally
    a colon, greedy white space and a lazy non-empty run of [.] (the
    capture), and a closing bracket.  It is one object shared by every
    call; because of the [g] flag, [test] reads and writes its
    [lastIndex]. *)

Module UpdateRegex.

(** A lazy run of [.] and the closing bracket, at the head of [t]: the
    code units consumed, the bracket included.  The lazy quantifier
    tries the bracket first. *)
Fixpoint dotsThenClose (t : jsstring) : option nat :=
  match t with
  | [] => None
  | c :: t' =>
      if (c =? chr "]")%N then Some 1
      else if isLineTerminator c then None
      else option_map S (dotsThenClose t')
  end.

(** The capture and the bracket: one [.] before the bracket is tried. *)
Definition dotPlusThenClose (t : jsstring) : option nat :=
  match t with
  | [] => None
  | c :: t' =>
      if isLineTerminator c then None else option_map S (dotsThenClose t')
  end.

(** What follows the colon: the greedy white space takes a code unit
    when it can and gives it back when the rest then fails. *)
Fixpoint titleGroup (r : jsstring) : option nat :=
  match r with
  | [] => None
  | c :: r' =>
      if isWhiteSpace c then
        match titleGroup r' with
        | Some n => Some (S n)
        | None => dotPlusThenClose r
        end
      else dotPlusThenClose r
  end.

(** The whole pattern anchored at the head of [s]: the length of the
    match.  After the word the greedy white space and digits cannot
    usefully give anything back, since what follows must be a colon or
    the closing bracket, which are neither. *)
Definition matchAt (s : jsstring) : option nat :=
  match s with
  | [] => None
  | c0 :: s0 =>
      if negb (c0 =? chr "[")%N then None
      else
        match stripPrefixCI (lit "UPDATE") s0 with
        | None => None
        | Some r1 =>
            let r2 := dropWhile isDigit (dropWhile isWhiteSpace r1) in
            let n0 := 7 + (length r1 - length r2) in
            match r2 with
            | [] => None
            | c :: r3 =>
                if (c =? chr "]")%N then Some (n0 + 1)
                else if (c =? chr ":")%N then
                  option_map (fun n => n0 + 1 + n) (titleGroup r3)
                else None
            end
        end
  end.

(** Leftmost match in [s], which starts at offset [pos] of the subject:
    start and end offsets. *)
Fixpoint searchFrom (s : jsstring) (pos : nat) : option (nat * nat) :=
  match matchAt s with
  | Some n => Some (pos, pos + n)
  | None => match s with
            | [] => None
            | _ :: s' => searchFrom s' (S pos)
            end
  end.

(** [UPDATE_REGEX.test(text)] with the object's [lastIndex] before the
    call: the answer and the [lastIndex] after it. *)
Definition test (lastIndex : nat) (text : jsstring) : bool * nat :=
  if length text <? lastIndex then (false, 0)
  else match searchFrom (skipn lastIndex text) lastIndex with
       | Some (_, e) => (true, e)
       | None => (false, 0)
       end.

(** [text.match(UPDATE_REGEX)?.[0]]: with the [g] flag [match] starts at
    0 whatever [lastIndex] was, and leaves it at 0. *)
Definition firstMatch (text : jsstring) : option jsstring :=
  match searchFrom text 0 with
  | Some (b, e) => Some (firstn (e - b) (skipn b text))
  | None => None
  end.

(** A test that ignores [lastIndex]: does [text] contain a marker? *)
Definition hasMarker (text : jsstring) : bool :=
  match searchFrom text 0 with Some _ => true | None => false end.

End UpdateRegex.

Example matchAt_plain :
  UpdateRegex.firstMatch (lit "a [update 12: Foo]b]") = Some (lit "[update 12: Foo]").
Proof. reflexivity. Qed.

Example matchAt_gives_back_space :
  UpdateRegex.firstMatch (lit "[UPDATE: ]") = Some (lit "[UPDATE: ]").
Proof. reflexivity. Qed.

Example test_is_stateful :
  UpdateRegex.test 0 (lit "[UPDATE] news") = (true, 8)
  /\ UpdateRegex.test 8 (lit "[UPDATE] news") = (false, 0).
Proof. split; reflexivity. Qed.

(* ================================================================== *)
(** ** The element tree the HTML parser hands back *)

Module Dom.

#[local] Set Warnings "-register-all".

Inductive node : Type :=
| Text (data : jsstring)
| Comment (data : jsstring)
| Element (tagName : jsstring) (attribs : list (jsstring * jsstring))
          (childNodes : list node).

Definition isElement (n : node) : bool :=
  match n with Element _ _ _ => true | _ => false end.

Definition tagName (n : node) : jsstring :=
  match n with Element t _ _ => t | _ => [] end.

Definition childNodes (n : node) : list node :=
  match n with Element _ _ ks => ks | _ => [] end.

(** [$(el).children().toArray()]: the element children. *)
Definition children (n : node) : list node := filter isElement (childNodes n).

(** [$(el).text()]: the text of the descendants, in document order. *)
Fixpoint text (n : node) : jsstring :=
  match n with
  | Text d => d
  | Comment _ => []
  | Element _ _ ks => flat_map text ks
  end.

(** [$(undefined).text()] is the empty string. *)
Definition textOpt (n : option node) : jsstring :=
  match n with Some e => text e | None => [] end.

Definition p (ks : list node) : node := Element (lit "p") [] ks.
Definition div (ks : list node) : node := Element (lit "div") [] ks.

End Dom.

Import Dom.

(* ================================================================== *)
(** ** HTML Segmenter (the first half of [processPost]) *)

Module Segmenter.

(** [unrollElements(element, $)], threading the [lastIndex] of
    [UPDATE_REGEX] through the calls to [test].  The inner loop is the
    [for] over [$(element).children()]: the child nodes that are
    elements, in order. *)
Fixpoint unrollElements (element : node) (lastIndex : nat) {struct element}
  : list node * nat :=
  let '(hasUpdate, li1) := UpdateRegex.test lastIndex (text element) in
  match element with
  | Element tag _ kids =>
      if negb (Js.eqb tag (lit "div")) || negb hasUpdate then ([element], li1)
      else
        (fix each (cs : list node) (li : nat) {struct cs} : list node * nat :=
           match cs with
           | [] => ([], li)
           | c :: cs' =>
               if isElement c then
                 let '(r, li') := unrollElements c li in
                 let '(rs, li'') := each cs' li' in
                 (r ++ rs, li'')
               else each cs' li
           end) kids li1
  | _ => ([element], li1)
  end.

(** [elements.map((el) => unrollElements(el, $)).flat()] *)
Fixpoint unrollAll (elements : list node) (lastIndex : nat)
  : list node * nat :=
  match elements with
  | [] => ([], lastIndex)
  | el :: els =>
      let '(r, li) := unrollElements el lastIndex in
      let '(rs, li') := unrollAll els li in
      (r ++ rs, li')
  end.

(** [texts.findIndex((text) => UPDATE_REGEX.test(text))], from index
    [i]: [None] is the [-1] of the source. *)
Fixpoint findIndexTest (texts : list jsstring) (i : nat) (lastIndex : nat)
  : option nat * nat :=
  match texts with
  | [] => (None, lastIndex)
  | t :: ts =>
      let '(b, li) := UpdateRegex.test lastIndex t in
      if b then (Some i, li) else findIndexTest ts (S i) li
  end.

(** The backward scan and the slice: [updateElements]. *)
Definition updateElements (unrolledElements : list node) (lastIndex : nat)
  : list node * nat :=
  let '(updateIndexReverse, li) :=
    findIndexTest (map text (rev unrolledElements)) 0 lastIndex in
  match updateIndexReverse with
  | None => (unrolledElements, li)
  | Some i => (skipn (length unrolledElements - i - 1) unrolledElements, li)
  end.

(** The delimiters of the backward title scan: hyphen, colon, opening
    bracket, em dash, en dash. *)
Definition isDelimiter (c : jschar) : bool :=
  (c =? chr "-")%N || (c =? chr ":")%N || (c =? chr "[")%N
  || (c =? 0x2014)%N || (c =? 0x2013)%N.

(** The loop over [reversedTitle]; [strippedTitle] is the accumulator.
    The source iterates by code point and the delimiters are single
    code units, none of them a surrogate, so the tests see what they
    see here by code unit, and the concatenation is the same. *)
Fixpoint scanTitle (reversedTitle : jsstring) (strippedTitle : jsstring)
  : jsstring :=
  match reversedTitle with
  | [] => strippedTitle
  | c :: rest =>
      if isDelimiter c then strippedTitle
      else if (c =? chr "]")%N then scanTitle rest strippedTitle
      else scanTitle rest (strippedTitle ++ [c])
  end.

(** [strippedTitle] after the [if (updateTitle)] block. *)
Definition strippedTitle (updateTitle : option jsstring) : jsstring :=
  match updateTitle with
  | Some ((_ :: _) as t) => scanTitle (rev t) []
  | _ => []
  end.

(** [strippedTitle.split("").reverse().join("")]: the extracted title. *)
Definition extractedTitle (firstFragmentText : jsstring) : jsstring :=
  rev (strippedTitle (UpdateRegex.firstMatch firstFragmentText)).

(** [extracted || nextPost.title.trim()] *)
Definition finalTitle (extracted itemTitle : jsstring) : jsstring :=
  match extracted with
  | [] => trim itemTitle
  | _ :: _ => extracted
  end.

(** The segmenter on the root's element children: the update segment,
    the extracted title and the [lastIndex] it leaves, which is 0 since
    [match] resets it. *)
Definition segment (elements : list node) (lastIndex : nat)
  : list node * jsstring * nat :=
  let '(unrolledElements, li1) := unrollAll elements lastIndex in
  let '(upd, _) := updateElements unrolledElements li1 in
  (upd, extractedTitle (textOpt (hd_error upd)), 0).

End Segmenter.

Example seg_two_markers :
  let a := p [Text (lit "[UPDATE] a")] in
  let b := p [Text (lit "[UPDATE] b")] in
  fst (fst (Segmenter.segment [a; b] 0)) = [b].
Proof. reflexivity. Qed.

Example seg_marker_first :
  let a := p [Text (lit "[UPDATE] a")] in
  let b := p [Text (lit "b")] in
  fst (fst (Segmenter.segment [a; b] 0)) = [a; b].
Proof. reflexivity. Qed.

(* ================================================================== *)
(** ** The thread URL: [urlRegex]

    The pattern, flag [g], reads: the text forum and a slash, one or more
    digits (first capture), a slash, one or more digits (second capture).
    Both runs of digits are greedy and what follows the first must be a
    slash, so a match at a position is unique. *)

Module UrlRegex.

Fixpoint takeWhile (p : jschar -> bool) (s : jsstring) : jsstring :=
  match s with
  | [] => []
  | c :: s' => if p c then c :: takeWhile p s' else []
  end.

(** The pattern anchored at the head of [s]: the two captures and the
    length of the match. *)
Definition matchAt (s : jsstring) : option (jsstring * jsstring * nat) :=
  match stripPrefix (lit "forum/") s with
  | None => None
  | Some r1 =>
      let d1 := takeWhile isDigit r1 in
      match d1, dropWhile isDigit r1 with
      | _ :: _, c :: r3 =>
          if (c =? chr "/")%N then
            match takeWhile isDigit r3 with
            | [] => None
            | (_ :: _) as d2 => Some (d1, d2, 6 + length d1 + 1 + length d2)
            end
          else None
      | _, _ => None
      end
  end.

(** [Array.from(s.matchAll(urlRegex))]: the captures of the successive
    matches, left to right, each search resuming where the previous
    match ended; [skip] counts the code units of the current match still
    to step over. *)
Fixpoint matchAll (s : jsstring) (skip : nat) : list (jsstring * jsstring) :=
  match s with
  | [] => []
  | _ :: s' =>
      match skip with
      | S k => matchAll s' k
      | O =>
          match matchAt s with
          | Some (c, t, n) => (c, t) :: matchAll s' (n - 1)
          | None => matchAll s' 0
          end
      end
  end.

(** [array.pop()] *)
Fixpoint pop {A : Type} (l : list A) : option A :=
  match l with
  | [] => None
  | x :: l' => match pop l' with Some y => Some y | None => Some x end
  end.

(** [urlMatch]: the captures [categoryId] and [threadId] of the last
    match, [None] when there is none. *)
Definition urlMatch (fulltext : jsstring) : option (jsstring * jsstring) :=
  pop (matchAll fulltext 0).

(** The superseded title-driven job (the other document of
    [src/index.ts]) calls [match] without the [g] flag: the first
    match. *)
Definition legacyUrlMatch (fulltext : jsstring) : option (jsstring * jsstring) :=
  hd_error (matchAll fulltext 0).

End UrlRegex.

Example url_two :
  UrlRegex.urlMatch (lit "see forum/5/10 and then forum/7/20.")
  = Some (lit "7", lit "20").
Proof. reflexivity. Qed.

(* ================================================================== *)
(** ** What the job is given: libraries, store faults, identity, clock *)

(** The SQL statements of [src/index.ts], in the order of the source. *)
Inductive statement : Type :=
| SelectNextPost | SelectSubjectAndParent | SelectImage | SelectPosted
| InsertMessage | InsertMessageText | UpdateUserPosts | UpdateTopic
| UpdateCategory | InsertActivity | UpdateActivityLike.

Record Ports : Type := {
  (** [cheerio.load(html, null, false)]: the child nodes of the root. *)
  load : jsstring -> list node;
  (** [$.html(el)]: an element serialised to markup. *)
  outerHtml : node -> jsstring;
  (** [$(markup).text()]: the text of markup parsed again. *)
  markupText : jsstring -> jsstring;
  (** [converter.feed(markup).toString()] of html2bbcode. *)
  feed : jsstring -> jsstring;
  (** [formatDate] of [src/utils.ts] on a [created] value of the store:
      the Europe/Athens [yyyy-MM-dd HH:mm:ss] text that date-fns-tz
      prints, as the DATETIME the store reads it back as. *)
  formatDate : Z -> Z;
  (** [isNaN(new Date(created).getTime())] *)
  isInvalidDate : Z -> bool;
  (** The store's [LIKE '%forum topic%'] on a content body. *)
  likeForumTopic : jsstring -> bool;
  (** [Number(process.env.USER_ID)] and [process.env.USER_NAME] *)
  USER_ID : Z;
  USER_NAME : jsstring;
  (** [Math.floor(Date.now() / 1000)] *)
  now : Z;
  (** Whether the store raises a fault on a statement, by the number of
      queries issued before it. *)
  faults : statement -> nat -> bool
}.

(* ================================================================== *)
(** ** Post Composer (the second half of [processPost]) *)

Module Composer.

Definition nl : jsstring := [10%N].

(** Index of the last closing bracket of [run], counting from [i]. *)
Fixpoint lastClose (run : jsstring) (i : nat) (found : option nat) : option nat :=
  match run with
  | [] => found
  | c :: r => lastClose r (S i) (if (c =? chr "]")%N then Some i else found)
  end.

(** The marker pattern of the composer, anchored: an opening bracket and
    UPDATE (exact case), a greedy run of [.] up to the last closing
    bracket of the line, then spaces.  The length of the match. *)
Definition markerAt (s : jsstring) : option nat :=
  match stripPrefix (lit "[UPDATE") s with
  | None => None
  | Some r =>
      let run := UrlRegex.takeWhile (fun c => negb (isLineTerminator c)) r in
      match lastClose run 0 None with
      | None => None
      | Some j =>
          let after := skipn (S j) r in
          let spaces := UrlRegex.takeWhile (fun c => (c =? 32)%N) after in
          Some (7 + j + 1 + length spaces)
      end
  end.

(** [s.replace(pattern, "")] for a [g] pattern that matches at least one
    code unit, given anchored. *)
Fixpoint removeAll (matchAt : jsstring -> option nat) (s : jsstring) (skip : nat)
  : jsstring :=
  match s with
  | [] => []
  | c :: s' =>
      match skip with
      | S k => removeAll matchAt s' k
      | O =>
          match matchAt s with
          | Some n => removeAll matchAt s' (n - 1)
          | None => c :: removeAll matchAt s' 0
          end
      end
  end.

(** A bracketed tag, lazily closed: what the preview strips. *)
Definition tagAt (s : jsstring) : option nat :=
  match s with
  | c :: r =>
      if (c =? chr "[")%N then option_map S (UpdateRegex.dotsThenClose r)
      else None
  | [] => None
  end.

Section WithPorts.

Variable P : Ports.

(** The [map] over [updateElements]: serialise, drop the marker, trim. *)
Definition candidates (updateElements : list node) : list jsstring :=
  map (fun el => trim (removeAll markerAt (outerHtml P el) 0)) updateElements.

(** [$(el).text().includes("forum topic")] *)
Definition mentionsForumTopic (el : jsstring) : bool :=
  includes (lit "forum topic") (markupText P el).

(** The [filter] callback run over the candidates from [index] on; [n]
    is [updateElements.length] and [foundForumTopic] the captured
    flag. *)
Fixpoint filterFrom (n : nat) (els : list jsstring) (index : nat)
         (foundForumTopic : bool) : list jsstring :=
  match els with
  | [] => []
  | el :: rest =>
      if foundForumTopic then filterFrom n rest (S index) true
      else if (Z.of_nat index =? Z.of_nat n - 1)%Z
              || (Z.of_nat index =? Z.of_nat n - 2)%Z
      then
        (if negb (mentionsForumTopic el) then [el] else [])
          ++ filterFrom n rest (S index) true
      else el :: filterFrom n rest (S index) false
  end.

(** [finalUpdates] from the mapped candidates. *)
Definition forumTopicFilter (els : list jsstring) : list jsstring :=
  filterFrom (length els) els 0 false.

Definition finalUpdates (updateElements : list node) : list jsstring :=
  forumTopicFilter (candidates updateElements).

(** [bbcode]: convert, concatenate, split into lines, trim, drop the
    empty ones, join with a blank line. *)
Definition bbcode (updates : list jsstring) : jsstring :=
  join (nl ++ nl)
    (filter (fun line => negb (length line =? 0))
       (map trim (splitLines (concat (map (feed P) updates))))).

(** [finalPost] *)
Definition finalPost (finalTitle imageURL body : jsstring) : jsstring :=
  lit "[center][b]" ++ finalTitle ++ lit "[/b][/center]" ++ nl ++ nl
      ++ lit "[img]" ++ imageURL ++ lit "[/img]" ++ nl ++ nl ++ body.

End WithPorts.

End Composer.

(* ================================================================== *)
(** ** The relational store, the watermark file and the log *)

Module Store.

(** Rows, with the columns the job reads or writes.  A DATETIME of the
    store, and the watermark text that the store compares it with, is a
    number: seconds on the store's wall clock.  Integers of JavaScript and
    of the store are exact (ids and times are far below 2^53). *)
Record content : Type := {
  c_id : Z; c_title : jsstring; c_fulltext : jsstring; c_created : Z }.

Record topic : Type := {
  t_id : Z; t_category_id : Z; t_subject : jsstring; t_first_post_id : Z;
  t_last_post_id : Z; t_last_post_time : Z; t_last_post_userid : Z;
  t_last_post_guest_name : jsstring }.

Record category : Type := {
  k_id : Z; k_last_post_id : Z; k_last_post_time : Z }.

Record kuser : Type := { u_userid : Z; u_posts : Z }.

Record message : Type := {
  m_id : Z; m_parent : Z; m_thread : Z; m_catid : Z; m_subject : jsstring;
  m_userid : Z; m_name : jsstring; m_time : Z; m_ip : jsstring }.

Record message_text : Type := { x_mesid : Z; x_message : jsstring }.

Record media : Type := {
  i_listing_id : Z; i_main_media : Z; i_rel_path : jsstring;
  i_filename : jsstring; i_file_extension : jsstring }.

Record activity : Type := {
  a_id : Z; a_actor : Z; a_target : Z; a_title : jsstring;
  a_content : jsstring; a_app : jsstring; a_verb : jsstring; a_cid : Z;
  a_created : Z; a_access : Z; a_points : Z; a_archived : Z;
  a_comment_id : Z; a_comment_type : jsstring; a_like_id : Z;
  a_like_type : jsstring; a_updated_at : Z; a_params : jsstring;
  a_location : jsstring; a_latitude : Z; a_longitude : Z;
  a_actors : jsstring }.

Record tables : Type := {
  jos_content : list content;
  jos_kunena_topics : list topic;
  jos_kunena_categories : list category;
  jos_kunena_users : list kuser;
  jos_kunena_messages : list message;
  jos_kunena_messages_text : list message_text;
  jos_jreviews_media : list media;
  jos_community_activities : list activity }.

(** What the logger is told, one constructor per call of the source;
    [Examining] is the [console.log] of the fetched row. *)
Inductive event : Type :=
| QuerySuccessful (s : statement)
| QueryError (s : statement)
| RecursionDepth (depth : nat)
| MaxDepthReached
| NoNextPost
| Examining (id : Z)
| SkipNoUrl
| SkipNoSubject
| SkipNoImage
| SkipAlreadyPosted
| InvalidDateFormat
| NoLastCreatedDate
| InsertedMessage (messageId : Z)
| TransactionFailed (err : jsstring)
| PostedAt (categoryId threadId : jsstring).

(** Everything the job can change.  [db] is what the connection sees;
    [snapshot] holds the rows as they were at [beginTransaction] while a
    transaction is open.  The AUTO_INCREMENT counters are not undone by
    a rollback.  [writes] records the calls of [fs.writeFile], latest
    first; [log] the logger calls, latest first. *)
Record world : Type := {
  db : tables;
  snapshot : option tables;
  next_message_id : Z;
  next_activity_id : Z;
  queries : nat;
  last_created_txt : option Z;
  writes : list Z;
  lastIndex : nat;
  log : list event }.

Definition with_db (t : tables) (w : world) : world :=
  {| db := t; snapshot := snapshot w; next_message_id := next_message_id w;
     next_activity_id := next_activity_id w; queries := queries w;
     last_created_txt := last_created_txt w; writes := writes w;
     lastIndex := lastIndex w; log := log w |}.

Definition with_snapshot (s : option tables) (w : world) : world :=
  {| db := db w; snapshot := s; next_message_id := next_message_id w;
     next_activity_id := next_activity_id w; queries := queries w;
     last_created_txt := last_created_txt w; writes := writes w;
     lastIndex := lastIndex w; log := log w |}.

Definition with_next_message_id (n : Z) (w : world) : world :=
  {| db := db w; snapshot := snapshot w; next_message_id := n;
     next_activity_id := next_activity_id w; queries := queries w;
     last_created_txt := last_created_txt w; writes := writes w;
     lastIndex := lastIndex w; log := log w |}.

Definition with_next_activity_id (n : Z) (w : world) : world :=
  {| db := db w; snapshot := snapshot w; next_message_id := next_message_id w;
     next_activity_id := n; queries := queries w;
     last_created_txt := last_created_txt w; writes := writes w;
     lastIndex := lastIndex w; log := log w |}.

Definition with_queries (n : nat) (w : world) : world :=
  {| db := db w; snapshot := snapshot w; next_message_id := next_message_id w;
     next_activity_id := next_activity_id w; queries := n;
     last_created_txt := last_created_txt w; writes := writes w;
     lastIndex := lastIndex w; log := log w |}.

Definition write_last_created (v : Z) (w : world) : world :=
  {| db := db w; snapshot := snapshot w; next_message_id := next_message_id w;
     next_activity_id := next_activity_id w; queries := queries w;
     last_created_txt := Some v; writes := v :: writes w;
     lastIndex := lastIndex w; log := log w |}.

Definition with_lastIndex (n : nat) (w : world) : world :=
  {| db := db w; snapshot := snapshot w; next_message_id := next_message_id w;
     next_activity_id := next_activity_id w; queries := queries w;
     last_created_txt := last_created_txt w; writes := writes w;
     lastIndex := n; log := log w |}.

Definition add_log (e : event) (w : world) : world :=
  {| db := db w; snapshot := snapshot w; next_message_id := next_message_id w;
     next_activity_id := next_activity_id w; queries := queries w;
     last_created_txt := last_created_txt w; writes := writes w;
     lastIndex := lastIndex w; log := e :: log w |}.

(** Table updates. *)
Definition set_topics (l : list topic) (t : tables) : tables :=
  {| jos_content := jos_content t; jos_kunena_topics := l;
     jos_kunena_categories := jos_kunena_categories t;
     jos_kunena_users := jos_kunena_users t;
     jos_kunena_messages := jos_kunena_messages t;
     jos_kunena_messages_text := jos_kunena_messages_text t;
     jos_jreviews_media := jos_jreviews_media t;
     jos_community_activities := jos_community_activities t |}.

Definition set_categories (l : list category) (t : tables) : tables :=
  {| jos_content := jos_content t; jos_kunena_topics := jos_kunena_topics t;
     jos_kunena_categories := l;
     jos_kunena_users := jos_kunena_users t;
     jos_kunena_messages := jos_kunena_messages t;
     jos_kunena_messages_text := jos_kunena_messages_text t;
     jos_jreviews_media := jos_jreviews_media t;
     jos_community_activities := jos_community_activities t |}.

Definition set_users (l : list kuser) (t : tables) : tables :=
  {| jos_content := jos_content t; jos_kunena_topics := jos_kunena_topics t;
     jos_kunena_categories := jos_kunena_categories t;
     jos_kunena_users := l;
     jos_kunena_messages := jos_kunena_messages t;
     jos_kunena_messages_text := jos_kunena_messages_text t;
     jos_jreviews_media := jos_jreviews_media t;
     jos_community_activities := jos_community_activities t |}.

Definition set_messages (l : list message) (t : tables) : tables :=
  {| jos_content := jos_content t; jos_kunena_topics := jos_kunena_topics t;
     jos_kunena_categories := jos_kunena_categories t;
     jos_kunena_users := jos_kunena_users t;
     jos_kunena_messages := l;
     jos_kunena_messages_text := jos_kunena_messages_text t;
     jos_jreviews_media := jos_jreviews_media t;
     jos_community_activities := jos_community_activities t |}.

Definition set_messages_text (l : list message_text) (t : tables) : tables :=
  {| jos_content := jos_content t; jos_kunena_topics := jos_kunena_topics t;
     jos_kunena_categories := jos_kunena_categories t;
     jos_kunena_users := jos_kunena_users t;
     jos_kunena_messages := jos_kunena_messages t;
     jos_kunena_messages_text := l;
     jos_jreviews_media := jos_jreviews_media t;
     jos_community_activities := jos_community_activities t |}.

Definition set_activities (l : list activity) (t : tables) : tables :=
  {| jos_content := jos_content t; jos_kunena_topics := jos_kunena_topics t;
     jos_kunena_categories := jos_kunena_categories t;
     jos_kunena_users := jos_kunena_users t;
     jos_kunena_messages := jos_kunena_messages t;
     jos_kunena_messages_text := jos_kunena_messages_text t;
     jos_jreviews_media := jos_jreviews_media t;
     jos_community_activities := l |}.

(** *** The job's monad: state, and the exceptions of [throw] *)

Inductive res (A : Type) : Type :=
| Ok (a : A)
| Throw (err : jsstring).
Arguments Ok {A} a.
Arguments Throw {A} err.

Definition M (A : Type) : Type := world -> res A * world.

Definition ret {A : Type} (a : A) : M A := fun w => (Ok a, w).

Definition bind {A B : Type} (m : M A) (f : A -> M B) : M B :=
  fun w => match m w with
           | (Ok a, w1) => f a w1
           | (Throw e, w1) => (Throw e, w1)
           end.

Definition throw {A : Type} (err : jsstring) : M A := fun w => (Throw err, w).

(** [try { m } catch (err) { handler err }] *)
Definition tryCatch {A : Type} (m : M A) (handler : jsstring -> M A) : M A :=
  fun w => match m w with
           | (Ok a, w1) => (Ok a, w1)
           | (Throw e, w1) => handler e w1
           end.

Definition modify (f : world -> world) : M unit := fun w => (Ok tt, f w).
Definition gets {A : Type} (f : world -> A) : M A := fun w => (Ok (f w), w).

Definition logger (e : event) : M unit := modify (add_log e).

End Store.

Import Store.

Declare Scope job_scope.
Delimit Scope job_scope with job.
Notation "x <- m ;; k" := (bind m (fun x => k))
  (at level 61, m at next level, right associativity) : job_scope.
Notation "m ;; k" := (bind m (fun _ => k))
  (at level 61, right associativity) : job_scope.
Open Scope job_scope.

(* ================================================================== *)
(** ** The query layer and the repositories *)

Module Repository.

Record ResultSetHeader : Type := { affectedRows : nat; insertId : Z }.

Section WithPorts.

Variable P : Ports.

(** [queryDatabase(connection, query, values)]: the fault of the store
    is caught and logged, and nothing is returned ([None] is the
    [undefined] of the source). *)
Definition queryDatabase {A : Type} (s : statement)
           (run : world -> A * world) : M (option A) :=
  fun w =>
    let w1 := with_queries (S (queries w)) w in
    if faults P s (queries w) then (Ok None, add_log (QueryError s) w1)
    else let '(a, w2) := run w1 in
         (Ok (Some a), add_log (QuerySuccessful s) w2).

Definition select {A : Type} (rows : tables -> list A)
  : world -> list A * world :=
  fun w => (rows (db w), w).

(** [ORDER BY created ASC LIMIT 1] *)
Fixpoint earliest (rows : list content) : option content :=
  match rows with
  | [] => None
  | r :: rest =>
      match earliest rest with
      | Some m => if (c_created m <? c_created r)%Z then Some m else Some r
      | None => Some r
      end
  end.

Definition selectNextPost (created : Z) (t : tables) : list content :=
  match earliest
          (filter (fun r => (created <? c_created r)%Z
                            && likeForumTopic P (c_fulltext r))
                  (jos_content t)) with
  | Some r => [r]
  | None => []
  end.

(** [getNextPost(connection, created)] *)
Definition getNextPost (created : Z) : M (option content) :=
  res <- queryDatabase SelectNextPost (select (selectNextPost created)) ;;
  match res with
  | None | Some [] => ret None
  | Some (r :: _) => ret (Some r)
  end.

Definition selectSubjectAndParent (categoryId threadId : jsstring)
           (t : tables) : list topic :=
  firstn 1
    (filter (fun r => (t_category_id r =? Z.of_N (toN categoryId))%Z
                      && (t_id r =? Z.of_N (toN threadId))%Z)
            (jos_kunena_topics t)).

(** [getSubjectAndParent(connection, categoryId, threadId)] *)
Definition getSubjectAndParent (categoryId threadId : jsstring)
  : M (option (jsstring * Z)) :=
  res <- queryDatabase SelectSubjectAndParent
           (select (selectSubjectAndParent categoryId threadId)) ;;
  match res with
  | None | Some [] => ret None
  | Some (r :: _) => ret (Some (t_subject r, t_first_post_id r))
  end.

Definition selectImage (listingId : Z) (t : tables) : list media :=
  firstn 1
    (filter (fun r => (i_listing_id r =? listingId)%Z
                      && (i_main_media r =? 1)%Z)
            (jos_jreviews_media t)).

(** [getImage(connection, listingId)] *)
Definition getImage (listingId : Z) : M (option jsstring) :=
  res <- queryDatabase SelectImage (select (selectImage listingId)) ;;
  match res with
  | None | Some [] => ret None
  | Some (r :: _) =>
      ret (Some (lit "https://gameworld.gr/media/reviews/photos/"
                   ++ i_rel_path r ++ i_filename r ++ lit "."
                   ++ i_file_extension r))
  end.

(** The rows of the guard's query before its [LIMIT 1]: the message
    texts joined to their message, by poster and exact text. *)
Definition postedRows (userid : Z) (text : jsstring) (t : tables)
  : list message_text :=
  flat_map
    (fun x =>
       flat_map
         (fun m =>
            if (m_id m =? x_mesid x)%Z && (m_userid m =? userid)%Z
               && Js.eqb (x_message x) text
            then [x] else [])
         (jos_kunena_messages t))
    (jos_kunena_messages_text t).

Definition selectPosted (text : jsstring) (t : tables) : list message_text :=
  firstn 1 (postedRows (USER_ID P) text t).

(** [hasBeenPosted(connection, message)]: the Duplicate Guard. *)
Definition hasBeenPosted (text : jsstring) : M bool :=
  res <- queryDatabase SelectPosted (select (selectPosted text)) ;;
  match res with
  | None | Some [] => ret false
  | Some (_ :: _) => ret true
  end.

End WithPorts.

End Repository.

Import Repository.

(* ================================================================== *)
(** ** Transactional Writer: [insertMessage] and [setLastProcessedDate] *)

Module Writer.

Record postData : Type := {
  parentId : Z; threadId : Z; categoryId : Z; subject : jsstring;
  message : jsstring; userId : Z; name : jsstring; created : Z;
  imageURL : jsstring }.

(** The transaction primitive of the connection. *)
Definition beginTransaction : M unit :=
  modify (fun w => with_snapshot (Some (db w)) w).

Definition commit : M unit := modify (with_snapshot None).

Definition rollback : M unit :=
  modify (fun w => match snapshot w with
                   | Some t => with_snapshot None (with_db t w)
                   | None => w
                   end).

(** The double quote, and the indentation of the content template. *)
Definition dq : jsstring := [34%N].
Definition sp6 : jsstring := lit "      ".

Definition activityTitle (data : postData) : jsstring :=
  lit "{single}{actor}{/single}{multiple}{actors}{/multiple} replied to the topic '<a href="
    ++ dq ++ lit "/forum/" ++ ofZ (categoryId data) ++ lit "/"
    ++ ofZ (threadId data) ++ dq ++ lit ">" ++ subject data
    ++ lit "</a>' in the forum.".

Definition previewText (data : postData) : jsstring :=
  firstn 300 (trim (Composer.removeAll Composer.tagAt (message data) 0)).

Definition readMoreUrl (data : postData) (messageId : Z) : jsstring :=
  lit "/forum/" ++ ofZ (categoryId data) ++ lit "/" ++ ofZ (threadId data)
    ++ lit "/" ++ ofZ messageId.

Definition imageTag (data : postData) : jsstring :=
  lit "<a href=" ++ dq ++ imageURL data ++ dq ++ lit " rel=" ++ dq
    ++ lit "nofollow" ++ dq ++ lit " target=" ++ dq ++ lit "_blank" ++ dq
    ++ lit ">" ++ imageURL data ++ lit "</a><br><br>".

Definition activityContent (data : postData) (messageId : Z) : jsstring :=
  let nl := Composer.nl in
  trim
    (nl ++ sp6 ++ lit "<div class=" ++ dq ++ lit "bbcode_center" ++ dq
        ++ lit " style=" ++ dq ++ lit "text-align:center;" ++ dq ++ lit ">"
     ++ nl ++ sp6 ++ lit "  <b>" ++ subject data ++ lit "</b>"
     ++ nl ++ sp6 ++ lit "</div>"
     ++ nl ++ sp6 ++ lit "<br>"
     ++ nl ++ sp6 ++ imageTag data
     ++ nl ++ sp6 ++ previewText data
     ++ nl ++ sp6 ++ lit "<br>"
     ++ nl ++ sp6 ++ lit "<br>"
     ++ nl ++ sp6 ++ lit "<a rel=" ++ dq ++ lit "nofollow" ++ dq
        ++ lit " href=" ++ dq ++ readMoreUrl data messageId ++ dq
        ++ lit " class=" ++ dq ++ lit "small profile-newsfeed-item-action"
        ++ dq ++ lit ">Read More...</a>"
     ++ nl ++ lit "    ").

(** *** The seven statements *)

Definition insertMessageRow (data : postData) (timestamp : Z)
  : world -> ResultSetHeader * world :=
  fun w =>
    let id := next_message_id w in
    let row := {| m_id := id; m_parent := parentId data;
                  m_thread := threadId data; m_catid := categoryId data;
                  m_subject := subject data; m_userid := userId data;
                  m_name := name data; m_time := timestamp;
                  m_ip := lit "162.158.210.219" |} in
    ({| affectedRows := 1; insertId := id |},
     with_next_message_id (id + 1)
       (with_db (set_messages (jos_kunena_messages (db w) ++ [row]) (db w)) w)).

Definition insertMessageText (messageId : Z) (text : jsstring)
  : world -> ResultSetHeader * world :=
  fun w =>
    let row := {| x_mesid := messageId; x_message := text |} in
    ({| affectedRows := 1; insertId := 0 |},
     with_db (set_messages_text (jos_kunena_messages_text (db w) ++ [row])
                                (db w)) w).

(** An UPDATE: the rows that satisfy [hit] are replaced by [upd] of
    them, and their number is reported. *)
Definition updateWhere {A : Type} (hit : A -> bool) (upd : A -> A)
           (rows : list A) : list A * nat :=
  (map (fun r => if hit r then upd r else r) rows,
   length (filter hit rows)).

Definition updateUserPosts (userid : Z) : world -> ResultSetHeader * world :=
  fun w =>
    let '(rows, n) :=
      updateWhere (fun u => (u_userid u =? userid)%Z)
        (fun u => {| u_userid := u_userid u; u_posts := u_posts u + 1 |})
        (jos_kunena_users (db w)) in
    ({| affectedRows := n; insertId := 0 |},
     with_db (set_users rows (db w)) w).

Definition updateTopic (messageId timestamp : Z) (data : postData)
  : world -> ResultSetHeader * world :=
  fun w =>
    let '(rows, n) :=
      updateWhere (fun r => (t_id r =? threadId data)%Z)
        (fun r => {| t_id := t_id r; t_category_id := t_category_id r;
                     t_subject := t_subject r;
                     t_first_post_id := t_first_post_id r;
                     t_last_post_id := messageId;
                     t_last_post_time := timestamp;
                     t_last_post_userid := userId data;
                     t_last_post_guest_name := name data |})
        (jos_kunena_topics (db w)) in
    ({| affectedRows := n; insertId := 0 |},
     with_db (set_topics rows (db w)) w).

Definition updateCategory (messageId timestamp : Z) (data : postData)
  : world -> ResultSetHeader * world :=
  fun w =>
    let '(rows, n) :=
      updateWhere (fun r => (k_id r =? categoryId data)%Z)
        (fun r => {| k_id := k_id r; k_last_post_id := messageId;
                     k_last_post_time := timestamp |})
        (jos_kunena_categories (db w)) in
    ({| affectedRows := n; insertId := 0 |},
     with_db (set_categories rows (db w)) w).

Definition insertActivity (title content : jsstring) (timestamp : Z)
           (data : postData) : world -> ResultSetHeader * world :=
  fun w =>
    let id := next_activity_id w in
    let reply := lit "kunena.thread.reply" in
    let row := {| a_id := id; a_actor := userId data; a_target := 0;
                  a_title := title; a_content := content; a_app := reply;
                  a_verb := reply; a_cid := threadId data;
                  a_created := timestamp; a_access := 0; a_points := 1;
                  a_archived := 0; a_comment_id := threadId data;
                  a_comment_type := reply; a_like_id := 0;
                  a_like_type := reply; a_updated_at := timestamp;
                  a_params := []; a_location := []; a_latitude := 255;
                  a_longitude := 255; a_actors := [] |} in
    ({| affectedRows := 1; insertId := id |},
     with_next_activity_id (id + 1)
       (with_db (set_activities (jos_community_activities (db w) ++ [row])
                                (db w)) w)).

Definition set_like_id (v : Z) (a : activity) : activity :=
  {| a_id := a_id a; a_actor := a_actor a; a_target := a_target a;
     a_title := a_title a; a_content := a_content a; a_app := a_app a;
     a_verb := a_verb a; a_cid := a_cid a; a_created := a_created a;
     a_access := a_access a; a_points := a_points a;
     a_archived := a_archived a; a_comment_id := a_comment_id a;
     a_comment_type := a_comment_type a; a_like_id := v;
     a_like_type := a_like_type a; a_updated_at := a_updated_at a;
     a_params := a_params a; a_location := a_location a;
     a_latitude := a_latitude a; a_longitude := a_longitude a;
     a_actors := a_actors a |}.

Definition updateActivityLike (activityId : Z)
  : world -> ResultSetHeader * world :=
  fun w =>
    let '(rows, n) :=
      updateWhere (fun a => (a_id a =? activityId)%Z) (set_like_id activityId)
        (jos_community_activities (db w)) in
    ({| affectedRows := n; insertId := 0 |},
     with_db (set_activities rows (db w)) w).

Section WithPorts.

Variable P : Ports.

(** [setLastProcessedDate(created)] of [src/utils.ts] *)
Definition setLastProcessedDate (created : Z) : M unit :=
  if isInvalidDate P created then logger InvalidDateFormat
  else modify (write_last_created (formatDate P created)).

(** [if (!res || res.affectedRows === 0) throw new Error(err)] *)
Definition affected (res : option ResultSetHeader) (err : string)
  : M ResultSetHeader :=
  match res with
  | None => throw (lit err)
  | Some r => if affectedRows r =? 0 then throw (lit err) else ret r
  end.

(** The [try] block of [insertMessage]. *)
Definition transaction (data : postData) (timestamp : Z) : M unit :=
  beginTransaction ;;
  res <- queryDatabase P InsertMessage (insertMessageRow data timestamp) ;;
  res <- affected res "Message insert failed" ;;
  let messageId := insertId res in
  res2 <- queryDatabase P InsertMessageText
            (insertMessageText messageId (message data)) ;;
  _ <- affected res2 "Message text insert failed" ;;
  res3 <- queryDatabase P UpdateUserPosts (updateUserPosts (userId data)) ;;
  _ <- affected res3 "User post count update failed" ;;
  res4 <- queryDatabase P UpdateTopic (updateTopic messageId timestamp data) ;;
  _ <- affected res4 "Topic metadata update failed" ;;
  res5 <- queryDatabase P UpdateCategory
            (updateCategory messageId timestamp data) ;;
  _ <- affected res5 "Category metadata update failed" ;;
  res6 <- queryDatabase P InsertActivity
            (insertActivity (activityTitle data)
                            (activityContent data messageId) timestamp data) ;;
  res6 <- affected res6 "Community activity insert failed" ;;
  let activityId := insertId res6 in
  res7 <- queryDatabase P UpdateActivityLike (updateActivityLike activityId) ;;
  _ <- affected res7 "Community activity like_id update failed" ;;
  commit ;;
  setLastProcessedDate (created data) ;;
  logger (InsertedMessage messageId).

(** [insertMessage(connection, data)] *)
Definition insertMessage (data : postData) : M unit :=
  let timestamp := now P in
  tryCatch (transaction data timestamp)
           (fun err => rollback ;; logger (TransactionFailed err)).

End WithPorts.

End Writer.

Import Writer.

(* ================================================================== *)
(** ** Post Pipeline Orchestrator: [processPost] and [main] *)

Module Orchestrator.

Definition MAX_RECURSION : nat := 100.

(** The superseded title-driven job has its own bound. *)
Definition LEGACY_MAX_RECURSION : nat := 10.

(** How one invocation of [processPost] ends after its depth check:
    with a recursive call on a new [created] (always a tail call, at
    [depth + 1]), or with a return. *)
Inductive step : Type :=
| Recurse (created : Z)
| Return.

(** Which return statement ended the run, and the depth of the
    invocation that reached it; [OutOfFuel] is not a behaviour of the
    source. *)
Inductive ending : Type :=
| MaxDepth (depth : nat)
| Returned (depth : nat)
| OutOfFuel.

Section WithPorts.

Variable P : Ports.

(** The end of [processPost]: the guard, then the writer. *)
Definition guardAndWrite (nextPost : content) (categoryId threadId : jsstring)
           (data : postData) : M step :=
  hasPosted <- hasBeenPosted P (message data) ;;
  if hasPosted : bool then
    logger SkipAlreadyPosted ;;
    ret (Recurse (formatDate P (c_created nextPost)))
  else
    insertMessage P data ;;
    logger (PostedAt categoryId threadId) ;;
    ret Return.

(** The body of [processPost] after the depth check. *)
Definition examine (created : Z) : M step :=
  nextPost <- getNextPost P created ;;
  match nextPost with
  | None => logger NoNextPost ;; ret Return
  | Some nextPost =>
      logger (Examining (c_id nextPost)) ;;
      let elements := filter isElement (load P (c_fulltext nextPost)) in
      li <- gets lastIndex ;;
      let '(updateElements, extracted, li') := Segmenter.segment elements li in
      modify (with_lastIndex li') ;;
      match UrlRegex.urlMatch (c_fulltext nextPost) with
      | None =>
          logger SkipNoUrl ;;
          ret (Recurse (formatDate P (c_created nextPost)))
      | Some (categoryId, threadId) =>
          subjectAndParent <- getSubjectAndParent P categoryId threadId ;;
          match subjectAndParent with
          | None =>
              logger SkipNoSubject ;;
              ret (Recurse (formatDate P (c_created nextPost)))
          | Some (subject, parentId) =>
              let finalTitle :=
                Segmenter.finalTitle extracted (c_title nextPost) in
              let finalUpdates := Composer.finalUpdates P updateElements in
              imageURL <- getImage P (c_id nextPost) ;;
              match imageURL with
              | None =>
                  logger SkipNoImage ;;
                  ret (Recurse (formatDate P (c_created nextPost)))
              | Some imageURL =>
                  let bbcode := Composer.bbcode P finalUpdates in
                  let finalPost :=
                    Composer.finalPost finalTitle imageURL bbcode in
                  guardAndWrite nextPost categoryId threadId
                    {| parentId := parentId;
                       threadId := Z.of_N (toN threadId);
                       categoryId := Z.of_N (toN categoryId);
                       subject := subject;
                       message := finalPost;
                       userId := USER_ID P;
                       name := USER_NAME P;
                       created := c_created nextPost;
                       imageURL := imageURL |}
              end
          end
      end
  end.

(** [processPost(connection, created, depth)] *)
Fixpoint processPostFrom (fuel : nat) (created : Z) (depth : nat)
  : M ending :=
  match fuel with
  | O => ret OutOfFuel
  | S fuel' =>
      (if depth mod 100 =? 0 then logger (RecursionDepth depth) else ret tt) ;;
      if MAX_RECURSION <? depth then
        logger MaxDepthReached ;; ret (MaxDepth depth)
      else
        s <- examine created ;;
        match s with
        | Recurse created' => processPostFrom fuel' created' (depth + 1)
        | Return => ret (Returned depth)
        end
  end.

(** [processPost(connection, lastCreated)]: [depth] defaults to 0, and
    no invocation is deeper than [MAX_RECURSION + 1]. *)
Definition processPost (created : Z) : M ending :=
  processPostFrom (MAX_RECURSION + 2) created 0.

(** [main], from the read of the watermark file on. *)
Definition main : M unit :=
  lastCreated <- gets last_created_txt ;;
  match lastCreated with
  | None => logger NoLastCreatedDate
  | Some created => processPost created ;; ret tt
  end.

End WithPorts.

End Orchestrator.

Import Orchestrator.

(* ================================================================== *)
(** ** A small installation to run the job on *)

Module Demo.

(** Ports for bodies that are plain text, where the parser finds no
    element: the root has one text child.  Dates format to themselves,
    as when the process reads DATETIMEs on the Athens wall clock. *)
Definition ports (f : statement -> nat -> bool) : Ports :=
  {| load := fun html => [Text html];
     outerHtml := text;
     markupText := fun s => s;
     feed := fun s => s;
     formatDate := fun t => t;
     isInvalidDate := fun _ => false;
     likeForumTopic := includes (lit "forum topic");
     USER_ID := 62;
     USER_NAME := lit "newsbot";
     now := 1700000000;
     faults := f |}.

Definition noFaults : statement -> nat -> bool := fun _ _ => false.

(** The store faults on the guard's query, and on no other. *)
Definition guardFaults : statement -> nat -> bool :=
  fun s _ => match s with SelectPosted => true | _ => false end.

Definition article : content :=
  {| c_id := 1; c_title := lit " Patch 1.2 ";
     c_fulltext := lit "Patch notes. Discuss in the forum topic: forum/5/10";
     c_created := 1000 |}.

Definition thread : topic :=
  {| t_id := 10; t_category_id := 5; t_subject := lit "Patch thread";
     t_first_post_id := 900; t_last_post_id := 900; t_last_post_time := 0;
     t_last_post_userid := 1; t_last_post_guest_name := lit "someone" |}.

Definition forum : category :=
  {| k_id := 5; k_last_post_id := 900; k_last_post_time := 0 |}.

Definition poster : kuser := {| u_userid := 62; u_posts := 3 |}.

Definition picture : media :=
  {| i_listing_id := 1; i_main_media := 1; i_rel_path := lit "2024/";
     i_filename := lit "patch"; i_file_extension := lit "jpg" |}.

(** What the job composes for [article]. *)
Definition composed : jsstring :=
  lit "[center][b]Patch 1.2[/b][/center]" ++ [10%N; 10%N]
    ++ lit "[img]https://gameworld.gr/media/reviews/photos/2024/patch.jpg[/img]"
    ++ [10%N; 10%N].

(** An earlier post of the same text by the same poster. *)
Definition earlier : Store.message :=
  {| m_id := 950; m_parent := 900; m_thread := 10; m_catid := 5;
     m_subject := lit "Patch thread"; m_userid := 62;
     m_name := lit "newsbot"; m_time := 1600000000;
     m_ip := lit "162.158.210.219" |}.

Definition earlierText : message_text :=
  {| x_mesid := 950; x_message := composed |}.

Definition store (articles : list content) (users : list kuser)
           (messages : list Store.message) (texts : list message_text)
  : tables :=
  {| jos_content := articles;
     jos_kunena_topics := [thread];
     jos_kunena_categories := [forum];
     jos_kunena_users := users;
     jos_kunena_messages := messages;
     jos_kunena_messages_text := texts;
     jos_jreviews_media := [picture];
     jos_community_activities := [] |}.

Definition start (t : tables) : world :=
  {| db := t; snapshot := None; next_message_id := 951;
     next_activity_id := 1; queries := 0; last_created_txt := Some 0%Z;
     writes := []; lastIndex := 0; log := [] |}.

(** Nothing posted yet. *)
Definition fresh : world := start (store [article] [poster] [] []).

(** The article's post is already there. *)
Definition alreadyPosted : world :=
  start (store [article] [poster] [earlier] [earlierText]).


(** A backlog of [n] articles that mention the forum topic and link to
    no thread, created at 1, 2, ..., [n]. *)
Definition linkless (i : nat) : content :=
  {| c_id := Z.of_nat i; c_title := lit "News";
     c_fulltext := lit "No link to the forum topic here";
     c_created := Z.of_nat i |}.

Definition backlog (n : nat) : world :=
  start (store (map linkless (seq 1 n)) [poster] [] []).

(** A hundred such articles, and then the one that can be posted. *)
Definition backlogThenArticle : world :=
  start (store (map linkless (seq 1 100) ++ [article]) [poster] [] []).

(** An article with markup: an introduction, a block that holds an
    update and a further paragraph, the link to the forum topic, and a
    closing paragraph. *)
Definition updateTree : list node :=
  [ p [Text (lit "intro")];
    div [ p [Text (lit "[UPDATE 2: Foo Bar] new text")];
          p [Text (lit "more")] ];
    p [Text (lit "Discuss in the forum topic forum/5/10")];
    p [Text (lit "bye")] ].

Definition updateArticle : content :=
  {| c_id := 1; c_title := lit "Patch 1.2";
     c_fulltext :=
       lit "<p>intro</p><div><p>[UPDATE 2: Foo Bar] new text</p><p>more</p></div><p>Discuss in the forum topic forum/5/10</p><p>bye</p>";
     c_created := 1000 |}.

(** Ports for that article: the parser hands back [updateTree], an
    element that holds only text is serialised between its tags, the text
    of markup is found in the markup, and the converter ends each piece
    with a line feed. *)
Definition updatePorts : Ports :=
  {| load := fun _ => updateTree;
     outerHtml := fun n => lit "<" ++ tagName n ++ lit ">" ++ text n
                               ++ lit "</" ++ tagName n ++ lit ">";
     markupText := fun s => s;
     feed := fun s => s ++ [10%N];
     formatDate := fun t => t;
     isInvalidDate := fun _ => false;
     likeForumTopic := includes (lit "forum topic");
     USER_ID := 62;
     USER_NAME := lit "newsbot";
     now := 1700000000;
     faults := noFaults |}.

Definition withUpdate : world := start (store [updateArticle] [poster] [] []).

Definition articleData : postData :=
  {| parentId := 900; threadId := 10; categoryId := 5;
     subject := lit "Patch thread"; message := composed; userId := 62;
     name := lit "newsbot"; created := 1000;
     imageURL := lit "https://gameworld.gr/media/reviews/photos/2024/patch.jpg" |}.

End Demo.

(* ================================================================== *)
(** * Properties *)

(** ** The thread URL *)

Module UrlFacts.

Import UrlRegex.

Lemma takeWhile_dropWhile (p : jschar -> bool) (s : jsstring) :
  s = takeWhile p s ++ dropWhile p s.
Proof.
  induction s as [|c s IH]; simpl; [reflexivity|].
  destruct (p c); simpl; [f_equal; exact IH | reflexivity].
Qed.

Lemma takeWhile_all (p : jschar -> bool) (s : jsstring) :
  Forall (fun c => p c = true) (takeWhile p s).
Proof.
  induction s as [|c s IH]; simpl; [constructor|].
  destruct (p c) eqn:E; constructor; assumption.
Qed.

Lemma stripPrefix_app (p s r : jsstring) :
  stripPrefix p s = Some r -> s = p ++ r.
Proof.
  revert s; induction p as [|x p IH]; intros [|y s]; simpl; try congruence.
  destruct (N.eqb_spec x y); [subst|discriminate].
  intros H; f_equal; auto.
Qed.

(** The letter f. *)
Definition f : jschar := chr "f".

Lemma matchAt_starts_with_f (s : jsstring) :
  matchAt s <> None -> exists s', s = f :: s'.
Proof.
  unfold matchAt. destruct (stripPrefix (lit "forum/") s) as [r|] eqn:E;
    [|congruence].
  intros _. apply stripPrefix_app in E. subst s. eexists; reflexivity.
Qed.

Lemma matchAt_not_f (c : jschar) (s : jsstring) :
  c <> f -> matchAt (c :: s) = None.
Proof.
  intros H. destruct (matchAt (c :: s)) eqn:E; [|reflexivity].
  destruct (@matchAt_starts_with_f (c :: s)) as [s' Hs]; [congruence|].
  inversion Hs; contradiction.
Qed.

(** A match is the letter f followed by code units that are not f. *)
Lemma matchAt_shape (s : jsstring) c t n :
  matchAt s = Some (c, t, n) ->
  exists body rest,
    s = f :: body ++ rest /\ n = S (length body)
    /\ Forall (fun x => x <> f) body.
Proof.
  unfold matchAt.
  destruct (stripPrefix (lit "forum/") s) as [r1|] eqn:E; [|discriminate].
  apply stripPrefix_app in E.
  pose proof (takeWhile_dropWhile isDigit r1) as S1.
  pose proof (takeWhile_all isDigit r1) as D1.
  destruct (takeWhile isDigit r1) as [|a d1] eqn:T1; [discriminate|].
  destruct (dropWhile isDigit r1) as [|x r3] eqn:R2; [discriminate|].
  destruct (N.eqb_spec x (chr "/")); [subst x|discriminate].
  pose proof (takeWhile_dropWhile isDigit r3) as S3.
  pose proof (takeWhile_all isDigit r3) as D3.
  destruct (takeWhile isDigit r3) as [|b d2] eqn:T3; [discriminate|].
  intros H; inversion H; subst c t n; clear H.
  exists (lit "orum/" ++ (a :: d1) ++ chr "/" :: b :: d2), (dropWhile isDigit r3).
  assert (ND : forall l, Forall (fun c => isDigit c = true) l ->
                         Forall (fun x => x <> f) l).
  { intros l Hl. eapply Forall_impl; [|exact Hl].
    intros y Hy ->. vm_compute in Hy. discriminate. }
  split; [|split].
  - rewrite E, S1. rewrite S3 at 1. simpl. rewrite <- !app_assoc.
    reflexivity.
  - cbn [lit list_ascii_of_string map app length].
    rewrite length_app. cbn [length]. lia.
  - apply Forall_app; split.
    + repeat constructor; vm_compute; discriminate.
    + apply Forall_app; split; [apply ND; exact D1|].
      constructor; [vm_compute; discriminate|apply ND; exact D3].
Qed.

(** No match starts inside another. *)
Lemma no_overlap (s : jsstring) c t n k :
  matchAt s = Some (c, t, n) -> 0 < k < n -> matchAt (skipn k s) = None.
Proof.
  intros H Hk. destruct (matchAt_shape _ H) as (body & rest & -> & -> & NF).
  destruct k as [|k]; [lia|]. simpl.
  assert (Hlt : k < length body) by lia.
  clear H Hk. revert k Hlt.
  induction NF as [|x body Hx NF IH]; intros k Hlt; simpl in *; [lia|].
  destruct k as [|k]; simpl.
  - apply matchAt_not_f; exact Hx.
  - apply IH; lia.
Qed.

Lemma matchAt_nil : matchAt [] = None.
Proof. reflexivity. Qed.

#[local] Arguments matchAt s : simpl never.

Lemma pop_cons {A : Type} (x : A) (l : list A) :
  pop (x :: l) = match pop l with Some y => Some y | None => Some x end.
Proof. reflexivity. Qed.

Lemma matchAll_none (s : jsstring) :
  (forall q, matchAt (skipn q s) = None) -> forall k, matchAll s k = [].
Proof.
  induction s as [|a s IH]; intros H k; simpl; [reflexivity|].
  destruct k as [|k].
  - pose proof (H 0) as H0. simpl in H0. rewrite H0.
    apply IH. intros q. exact (H (S q)).
  - apply IH. intros q. exact (H (S q)).
Qed.

(** The scan, with [skip] code units still to step over none of which
    starts a match, ends on the match that no later match follows. *)
Lemma matchAll_last (s : jsstring) :
  forall skip p c t n,
    (forall k, k < skip -> matchAt (skipn k s) = None) ->
    matchAt (skipn p s) = Some (c, t, n) ->
    (forall q, p < q -> matchAt (skipn q s) = None) ->
    pop (matchAll s skip) = Some (c, t).
Proof.
  induction s as [|a s IH]; intros skip p c t n Hskip Hp Hlast.
  - destruct p; simpl in Hp; discriminate.
  - simpl. destruct skip as [|skip].
    + destruct (matchAt (a :: s)) as [[[c0 t0] n0]|] eqn:E0.
      * rewrite pop_cons. destruct p as [|p].
        -- simpl in Hp. rewrite E0 in Hp. inversion Hp; subst.
           rewrite matchAll_none; [reflexivity|].
           intros q. apply (Hlast (S q)). lia.
        -- erewrite IH; [reflexivity| |exact Hp|].
           ++ intros k Hk.
              apply (@no_overlap (a :: s) c0 t0 n0 (S k) E0). lia.
           ++ intros q Hq. apply (Hlast (S q)). lia.
      * destruct p as [|p]; [simpl in Hp; congruence|].
        eapply IH; [|exact Hp|].
        -- intros k Hk; lia.
        -- intros q Hq. apply (Hlast (S q)). lia.
    + destruct p as [|p].
      * pose proof (Hskip 0 ltac:(lia)) as H0. simpl in H0, Hp.
        congruence.
      * eapply IH; [|exact Hp|].
        -- intros k Hk. apply (Hskip (S k)). lia.
        -- intros q Hq. apply (Hlast (S q)). lia.
Qed.

(** Among the positions where the pattern matches there is a last one. *)
Lemma last_occurrence_exists (s : jsstring) :
  (exists p, matchAt (skipn p s) <> None) ->
  exists p c t n,
    matchAt (skipn p s) = Some (c, t, n)
    /\ forall q, p < q -> matchAt (skipn q s) = None.
Proof.
  induction s as [|a s IH]; intros [p Hp].
  - exfalso. apply Hp. destruct p; reflexivity.
  - assert (D : (exists q, matchAt (skipn q s) <> None)
                \/ forall q, matchAt (skipn q s) = None).
    { clear. induction s as [|b s IHs].
      - right. intros [|q]; reflexivity.
      - destruct IHs as [[q Hq]|Hn].
        + left. exists (S q). exact Hq.
        + destruct (matchAt (b :: s)) eqn:E.
          * left. exists 0. simpl. congruence.
          * right. intros [|q]; [exact E|apply Hn]. }
    destruct D as [Hex|Hnone].
    + destruct (IH Hex) as (q & c & t & n & Hq & Hl).
      exists (S q), c, t, n. split; [exact Hq|].
      intros [|r] Hr; [lia|]. apply Hl. lia.
    + destruct p as [|p]; [|exfalso; apply Hp; apply Hnone].
      simpl in Hp. destruct (matchAt (a :: s)) as [[[c t] n]|] eqn:E;
        [|congruence].
      exists 0, c, t, n. split; [exact E|].
      intros [|q] Hq; [lia|]. apply Hnone.
Qed.

End UrlFacts.

(** ** The segmenter *)

Module ListFacts.

Lemma skipn_app_length {A : Type} (a b : list A) (n : nat) :
  skipn (length a + n) (a ++ b) = skipn n b.
Proof. induction a as [|x a IH]; simpl; auto. Qed.

End ListFacts.

Module SegmenterFacts.

(** The update segment as the specification words it, to compare with
    [Segmenter.updateElements]: the whole list when no fragment has a
    marker, else the suffix that starts at the last fragment that has
    one. *)
Fixpoint specUpdateSegment (unrolled : list node) : list node :=
  match unrolled with
  | [] => []
  | el :: rest =>
      if existsb (fun e => UpdateRegex.hasMarker (text e)) rest
      then specUpdateSegment rest
      else el :: rest
  end.

Definition intro : node := p [Text (lit "intro")].
Definition news : node := p [Text (lit "[UPDATE] news")].

#[local] Arguments UpdateRegex.matchAt s : simpl never.

Lemma searchFrom_none_pos (l : jsstring) :
  forall p q, UpdateRegex.searchFrom l p = None ->
              UpdateRegex.searchFrom l q = None.
Proof.
  induction l as [|x l IH]; intros p q; simpl.
  - reflexivity.
  - destruct (UpdateRegex.matchAt (x :: l)); [discriminate|apply IH].
Qed.

(** A positive [test] means the text has a marker, whatever [lastIndex]
    was. *)
Lemma searchFrom_skipn (s : jsstring) :
  forall k pos r,
    UpdateRegex.searchFrom (skipn k s) pos = Some r ->
    UpdateRegex.searchFrom s 0 <> None.
Proof.
  induction s as [|a s IH]; intros k pos r H.
  - destruct k; simpl in H; discriminate.
  - destruct k as [|k].
    + simpl skipn in H. intros E.
      rewrite (searchFrom_none_pos _ _ pos E) in H. discriminate.
    + simpl skipn in H. specialize (IH k pos r H).
      simpl. destruct (UpdateRegex.matchAt (a :: s)); [discriminate|].
      intros E. apply IH. exact (searchFrom_none_pos _ _ 0 E).
Qed.

Lemma test_true_hasMarker (li : nat) (t : jsstring) :
  fst (UpdateRegex.test li t) = true -> UpdateRegex.hasMarker t = true.
Proof.
  unfold UpdateRegex.test, UpdateRegex.hasMarker.
  destruct (length t <? li); [discriminate|].
  destruct (UpdateRegex.searchFrom (skipn li t) li) as [[b e]|] eqn:E;
    [|discriminate].
  intros _. apply searchFrom_skipn in E.
  destruct (UpdateRegex.searchFrom t 0); [reflexivity|congruence].
Qed.

(** With no marker in any fragment the backward scan finds nothing and
    the segment is the whole list, whatever [lastIndex] was. *)
Lemma no_marker_whole_list (unrolled : list node) (li : nat) :
  (forall e, In e unrolled -> UpdateRegex.hasMarker (text e) = false) ->
  fst (Segmenter.updateElements unrolled li) = unrolled.
Proof.
  intros H. unfold Segmenter.updateElements.
  assert (G : forall texts i l,
             (forall t, In t texts -> UpdateRegex.hasMarker t = false) ->
             fst (Segmenter.findIndexTest texts i l) = None).
  { induction texts as [|t ts IH]; intros i l Ht; simpl; [reflexivity|].
    destruct (UpdateRegex.test l t) as [b l'] eqn:E.
    destruct b.
    - pose proof (@test_true_hasMarker l t) as T. rewrite E in T.
      rewrite (Ht t (or_introl eq_refl)) in T. specialize (T eq_refl).
      discriminate.
    - apply IH. intros t' Ht'. apply Ht. right. exact Ht'. }
  specialize (G (map text (rev unrolled)) 0 li).
  destruct (Segmenter.findIndexTest (map text (rev unrolled)) 0 li)
    as [o l'] eqn:E.
  simpl in G. rewrite G; [reflexivity|].
  intros t Ht. apply in_map_iff in Ht. destruct Ht as (e & <- & He).
  apply H. apply in_rev. exact He.
Qed.

(** From [lastIndex] 0 a [test] is the plain question, and a negative
    answer leaves [lastIndex] at 0. *)
Lemma test_fresh (t : jsstring) :
  fst (UpdateRegex.test 0 t) = UpdateRegex.hasMarker t
  /\ (UpdateRegex.hasMarker t = false -> snd (UpdateRegex.test 0 t) = 0).
Proof.
  unfold UpdateRegex.test, UpdateRegex.hasMarker. cbn [length Nat.ltb Nat.leb skipn].
  destruct (UpdateRegex.searchFrom t 0) as [[b e]|]; cbn; split; auto.
  discriminate.
Qed.

Lemma findIndexTest_none (texts : list jsstring) (i : nat) :
  forallb (fun t => negb (UpdateRegex.hasMarker t)) texts = true ->
  Segmenter.findIndexTest texts i 0 = (None, 0).
Proof.
  revert i; induction texts as [|t ts IH]; intros i H; [reflexivity|].
  cbn in H. apply andb_true_iff in H. destruct H as [Ht Hts].
  apply negb_true_iff in Ht. cbn [Segmenter.findIndexTest].
  destruct (test_fresh t) as [T1 T2]. specialize (T2 Ht).
  destruct (UpdateRegex.test 0 t) as [b li]. cbn in T1, T2. subst b li.
  rewrite Ht. apply IH. exact Hts.
Qed.

Lemma findIndexTest_first (before after : list jsstring) (t : jsstring) (i : nat) :
  forallb (fun t => negb (UpdateRegex.hasMarker t)) before = true ->
  UpdateRegex.hasMarker t = true ->
  fst (Segmenter.findIndexTest (before ++ t :: after) i 0)
  = Some (i + length before).
Proof.
  revert i; induction before as [|b bs IH]; intros i Hb Ht.
  - cbn [app Segmenter.findIndexTest length].
    destruct (test_fresh t) as [T1 _].
    destruct (UpdateRegex.test 0 t) as [r li]. cbn in T1. subst r.
    rewrite Ht. cbn. f_equal. lia.
  - cbn in Hb. apply andb_true_iff in Hb. destruct Hb as [Hb Hbs].
    apply negb_true_iff in Hb. cbn [app Segmenter.findIndexTest length].
    destruct (test_fresh b) as [T1 T2]. specialize (T2 Hb).
    destruct (UpdateRegex.test 0 b) as [r li]. cbn in T1, T2. subst r li.
    rewrite Hb, IH by assumption. f_equal. lia.
Qed.

(** A list has no fragment with a marker, or a last one. *)
Lemma last_marker_split (l : list node) :
  forallb (fun e => negb (UpdateRegex.hasMarker (text e))) l = true
  \/ exists before x after,
      l = before ++ x :: after
      /\ UpdateRegex.hasMarker (text x) = true
      /\ forallb (fun e => negb (UpdateRegex.hasMarker (text e))) after = true.
Proof.
  induction l as [|a l IH]; [left; reflexivity|].
  destruct IH as [Hn|(before & x & after & -> & Hx & Ha)].
  - destruct (UpdateRegex.hasMarker (text a)) eqn:E.
    + right. exists [], a, l. auto.
    + left. cbn. rewrite E. exact Hn.
  - right. exists (a :: before), x, after. auto.
Qed.

Lemma specUpdateSegment_none (l : list node) :
  forallb (fun e => negb (UpdateRegex.hasMarker (text e))) l = true ->
  specUpdateSegment l = l.
Proof.
  destruct l as [|a l]; [reflexivity|]. cbn. intros H.
  apply andb_true_iff in H. destruct H as [_ H].
  replace (existsb _ l) with false; [reflexivity|].
  symmetry. clear - H. induction l as [|b l IH]; [reflexivity|].
  cbn in *. apply andb_true_iff in H. destruct H as [Hb Hl].
  apply negb_true_iff in Hb. rewrite Hb. auto.
Qed.

Lemma specUpdateSegment_last (before after : list node) (x : node) :
  UpdateRegex.hasMarker (text x) = true ->
  forallb (fun e => negb (UpdateRegex.hasMarker (text e))) after = true ->
  specUpdateSegment (before ++ x :: after) = x :: after.
Proof.
  intros Hx Ha. induction before as [|b bs IH].
  - cbn [app]. pose proof (specUpdateSegment_none (x :: after)) as N.
    cbn [specUpdateSegment] in *.
    replace (existsb _ after) with false; [reflexivity|].
    symmetry. clear - Ha. induction after as [|c l IH]; [reflexivity|].
    cbn in *. apply andb_true_iff in Ha. destruct Ha as [Hc Hl].
    apply negb_true_iff in Hc. rewrite Hc. auto.
  - cbn [app specUpdateSegment].
    replace (existsb _ (bs ++ x :: after)) with true; [exact IH|].
    symmetry. apply existsb_exists. exists x. split; [|exact Hx].
    apply in_or_app. right. left. reflexivity.
Qed.

(** With [lastIndex] at 0 when the backward scan starts, the segment of
    the source is the one the specification words: what separates them is
    the [lastIndex] the unrolling leaves behind. *)
Lemma updateElements_from_fresh_regex (unrolled : list node) :
  fst (Segmenter.updateElements unrolled 0) = specUpdateSegment unrolled.
Proof.
  unfold Segmenter.updateElements.
  destruct (last_marker_split unrolled)
    as [Hn|(before & x & after & -> & Hx & Ha)].
  - rewrite findIndexTest_none.
    + cbn. symmetry. apply specUpdateSegment_none. exact Hn.
    + rewrite forallb_forall in *. intros t Ht.
      apply in_map_iff in Ht. destruct Ht as (e & <- & He).
      apply Hn. apply in_rev. exact He.
  - rewrite rev_app_distr. cbn [rev]. rewrite <- app_assoc. cbn [app].
    rewrite map_app. cbn [map].
    pose proof (@findIndexTest_first (map text (rev after))
                  (map text (rev before)) (text x) 0) as F.
    destruct (Segmenter.findIndexTest _ 0 0) as [o li]. cbn [fst] in F.
    rewrite F; [|
      rewrite forallb_forall in *; intros t Ht;
      apply in_map_iff in Ht; destruct Ht as (e & <- & He);
      apply Ha; apply in_rev; exact He
      | exact Hx].
    cbn [fst]. rewrite specUpdateSegment_last by assumption.
    rewrite length_map, length_rev, length_app. cbn [length].
    replace (length before + S (length after) - (0 + length after) - 1)
      with (length before + 0) by lia.
    rewrite ListFacts.skipn_app_length. reflexivity.
Qed.

End SegmenterFacts.

(** C3 — the update segment should be the suffix that starts at the last
    fragment with a marker.  On the body made of a paragraph "intro" and a
    paragraph "[UPDATE] news" the unrolled list is the two paragraphs, the
    second has a marker, and the segment computed by the source is the
    whole list, not the second paragraph alone: the [test] of the
    unrolling left [lastIndex] at 8, past the marker, for the backward
    scan. *)
Theorem update_segment_misses_marker_after_unroll :
  let '(unrolled, li) :=
    Segmenter.unrollAll [SegmenterFacts.intro; SegmenterFacts.news] 0 in
  unrolled = [SegmenterFacts.intro; SegmenterFacts.news]
  /\ li = 8
  /\ UpdateRegex.hasMarker (text SegmenterFacts.intro) = false
  /\ UpdateRegex.hasMarker (text SegmenterFacts.news) = true
  /\ fst (Segmenter.updateElements unrolled li)
     = [SegmenterFacts.intro; SegmenterFacts.news]
  /\ SegmenterFacts.specUpdateSegment unrolled = [SegmenterFacts.news]
  /\ fst (Segmenter.updateElements unrolled li)
     <> SegmenterFacts.specUpdateSegment unrolled
  /\ Segmenter.segment [SegmenterFacts.intro; SegmenterFacts.news] 0
     = ([SegmenterFacts.intro; SegmenterFacts.news], [], 0).
Proof. vm_compute. repeat split; try reflexivity. discriminate. Qed.

(** C5 — for the marker text [UPDATE: Foo Bar] the extracted title should
    be Foo Bar.  The backward scan stops at the colon and keeps the space
    that follows it: the extracted title, and with it the title of the
    post, is Foo Bar preceded by a space. *)
Theorem extracted_title_keeps_space_after_colon :
  UpdateRegex.firstMatch (lit "[UPDATE: Foo Bar]") = Some (lit "[UPDATE: Foo Bar]")
  /\ Segmenter.extractedTitle (lit "[UPDATE: Foo Bar]") = lit " Foo Bar"
  /\ Segmenter.extractedTitle (lit "[UPDATE: Foo Bar]") <> lit "Foo Bar"
  /\ snd (fst (Segmenter.segment [p [Text (lit "[UPDATE: Foo Bar]")]] 0))
     = lit " Foo Bar"
  /\ forall itemTitle,
       Segmenter.finalTitle (Segmenter.extractedTitle (lit "[UPDATE: Foo Bar]"))
                            itemTitle = lit " Foo Bar".
Proof. repeat split; try reflexivity. vm_compute. discriminate. Qed.

(** C6 — for the marker text [UPDATE], which has no colon, the extracted
    title should be empty and the post should take the item's own title.
    The backward scan runs through the word to the opening bracket: the
    extracted title is UPDATE, and the title of the post is UPDATE whatever
    the item's title is. *)
Theorem extracted_title_without_colon_is_marker_word :
  UpdateRegex.firstMatch (lit "[UPDATE]") = Some (lit "[UPDATE]")
  /\ Segmenter.extractedTitle (lit "[UPDATE]") = lit "UPDATE"
  /\ Segmenter.extractedTitle (lit "[UPDATE]") <> []
  /\ snd (fst (Segmenter.segment [p [Text (lit "[UPDATE]")]] 0)) = lit "UPDATE"
  /\ forall itemTitle,
       Segmenter.finalTitle (Segmenter.extractedTitle (lit "[UPDATE]")) itemTitle
       = lit "UPDATE".
Proof. repeat split; try reflexivity. vm_compute. discriminate. Qed.

(** ** The forum-topic boundary of the composer *)

Module ComposerFacts.

Import Composer.

Section WithPorts.

Variable P : Ports.

(** The verdict on the one candidate that is tested. *)
Definition boundary (el : option jsstring) : list jsstring :=
  match el with
  | Some el => if mentionsForumTopic P el then [] else [el]
  | None => []
  end.

Lemma filterFrom_found (n : nat) (els : list jsstring) (index : nat) :
  filterFrom P n els index true = [].
Proof.
  revert index; induction els as [|el rest IH]; intros index; simpl; auto.
Qed.

Lemma filterFrom_not_found (els : list jsstring) :
  forall n index,
    n = index + length els ->
    filterFrom P n els index false
    = firstn (length els - 2) els
        ++ boundary (nth_error els (length els - 2)).
Proof.
  induction els as [|el rest IH]; intros n index Hn; [reflexivity|].
  cbn [filterFrom length].
  destruct ((Z.of_nat index =? Z.of_nat n - 1)%Z
            || (Z.of_nat index =? Z.of_nat n - 2)%Z) eqn:E.
  - rewrite filterFrom_found, app_nil_r.
    assert (Hr : length rest = 0 \/ length rest = 1).
    { apply orb_true_iff in E. cbn [length] in Hn.
      destruct E as [E|E]; apply Z.eqb_eq in E; lia. }
    destruct Hr as [-> | ->]; cbn [Nat.sub firstn nth_error app boundary];
      destruct (mentionsForumTopic P el); reflexivity.
  - apply orb_false_iff in E. destruct E as [E1 E2].
    apply Z.eqb_neq in E1, E2. cbn [length] in Hn.
    destruct (length rest) as [|[|k]] eqn:L; try lia.
    rewrite (IH n (S index)) by lia. rewrite ?L.
    replace (S (S (S k)) - 2) with (S k) by lia.
    replace (S (S k) - 2) with k by lia.
    reflexivity.
Qed.

End WithPorts.

(** [text] holds [phrase]: some code units, the phrase, some more. *)
Definition holds (phrase text : jsstring) : Prop :=
  exists before after, text = before ++ phrase ++ after.

Lemma stripPrefix_self (q r : jsstring) : stripPrefix q (q ++ r) = Some r.
Proof.
  induction q as [|x q IH]; [reflexivity|].
  cbn [app stripPrefix]. rewrite N.eqb_refl. exact IH.
Qed.

(** [includes] answers whether the text holds the phrase. *)
Lemma includes_holds (phrase text : jsstring) :
  includes phrase text = true <-> holds phrase text.
Proof.
  split.
  - induction text as [|c text IH]; cbn [includes]; intros H.
    + destruct (stripPrefix phrase []) as [r|] eqn:E; [|discriminate H].
      apply UrlFacts.stripPrefix_app in E. exists [], r. exact E.
    + destruct (stripPrefix phrase (c :: text)) as [r|] eqn:E.
      * apply UrlFacts.stripPrefix_app in E. exists [], r. exact E.
      * destruct (IH H) as (before & after & ->).
        exists (c :: before), after. reflexivity.
  - intros (before & after & ->).
    induction before as [|c before IH].
    + cbn [app]. destruct (phrase ++ after) as [|c t] eqn:E; cbn [includes];
        rewrite <- E, stripPrefix_self; reflexivity.
    + cbn [app includes].
      destruct (stripPrefix phrase (c :: before ++ phrase ++ after));
        [reflexivity|exact IH].
Qed.

End ComposerFacts.

(** C9 — the forum-topic boundary filter tests one candidate only, the one
    at the earlier of the last two positions (the second to last, or the
    only one), and what it tests is whether the text of that candidate
    holds the phrase "forum topic" somewhere.  When it does, the result
    is the candidates before it: it and everything after it are excluded.
    When it does not, the result is the candidates up to and including
    it: what comes after it is excluded whatever its text.  So in every
    case the result is a prefix of the list that ends at the tested
    candidate at the latest, and of the last two candidates at most one,
    the tested one, is kept. *)
Theorem forum_topic_boundary_filter (P : Ports) (els : list jsstring) :
  let b := length els - 2 in
  (forall el, nth_error els b = Some el ->
              ComposerFacts.holds (lit "forum topic") (markupText P el) ->
              Composer.forumTopicFilter P els = firstn b els)
  /\ (forall el, nth_error els b = Some el ->
                 ~ ComposerFacts.holds (lit "forum topic") (markupText P el) ->
                 Composer.forumTopicFilter P els = firstn (S b) els)
  /\ (nth_error els b = None -> els = [] /\ Composer.forumTopicFilter P els = [])
  /\ (exists k, b <= k <= S b /\ Composer.forumTopicFilter P els = firstn k els).
Proof.
  intros b.
  assert (E : Composer.forumTopicFilter P els
              = firstn b els ++ ComposerFacts.boundary P (nth_error els b)).
  { unfold Composer.forumTopicFilter.
    apply ComposerFacts.filterFrom_not_found. reflexivity. }
  assert (K : forall el, nth_error els b = Some el ->
                         firstn b els ++ [el] = firstn (S b) els).
  { generalize b. clear. induction els as [|x xs IH]; intros [|b] el H;
      simpl in *; try discriminate.
    - inversion H; reflexivity.
    - f_equal. apply IH. exact H. }
  split; [|split; [|split]].
  - intros el Hel Hm. rewrite E, Hel.
    apply ComposerFacts.includes_holds in Hm.
    unfold ComposerFacts.boundary, Composer.mentionsForumTopic.
    rewrite Hm. apply app_nil_r.
  - intros el Hel Hm. rewrite E, Hel.
    unfold ComposerFacts.boundary, Composer.mentionsForumTopic.
    destruct (includes (lit "forum topic") (markupText P el)) eqn:I.
    + exfalso. apply Hm. apply ComposerFacts.includes_holds. exact I.
    + apply K. exact Hel.
  - intros Hn. apply nth_error_None in Hn.
    assert (L : length els = 0) by (subst b; lia).
    destruct els; [|discriminate L]. split; reflexivity.
  - rewrite E. destruct (nth_error els b) as [el|] eqn:Hel; simpl.
    + destruct (Composer.mentionsForumTopic P el).
      * exists b. split; [lia|apply app_nil_r].
      * exists (S b). split; [lia|apply K; reflexivity].
    + exists b. split; [lia|apply app_nil_r].
Qed.

(** The theorem at work, on both answers of the test.  Of three
    candidates the second is tested: when its text holds the phrase only
    the first is kept, and when it does not the first two are kept and
    the third is dropped although it holds the phrase.  Of a single
    candidate that holds the phrase nothing is kept. *)
Lemma forum_topic_boundary_filter_witness :
  Composer.forumTopicFilter (Demo.ports Demo.noFaults)
    [lit "<p>news</p>"; lit "<p>see the forum topic</p>"; lit "<p>bye</p>"]
  = [lit "<p>news</p>"]
  /\ Composer.forumTopicFilter (Demo.ports Demo.noFaults)
       [lit "<p>news</p>"; lit "<p>more</p>"; lit "<p>the forum topic</p>"]
     = [lit "<p>news</p>"; lit "<p>more</p>"]
  /\ Composer.forumTopicFilter (Demo.ports Demo.noFaults)
       [lit "<p>the forum topic</p>"]
     = [].
Proof.
  split; [|split].
  - apply (proj1 (forum_topic_boundary_filter (Demo.ports Demo.noFaults)
      [lit "<p>news</p>"; lit "<p>see the forum topic</p>"; lit "<p>bye</p>"])
      (lit "<p>see the forum topic</p>") eq_refl).
    exists (lit "<p>see the "), (lit "</p>"). reflexivity.
  - apply (proj1 (proj2 (forum_topic_boundary_filter (Demo.ports Demo.noFaults)
      [lit "<p>news</p>"; lit "<p>more</p>"; lit "<p>the forum topic</p>"]))
      (lit "<p>more</p>") eq_refl).
    intros Hh. apply ComposerFacts.includes_holds in Hh. discriminate Hh.
  - apply (proj1 (forum_topic_boundary_filter (Demo.ports Demo.noFaults)
      [lit "<p>the forum topic</p>"])
      (lit "<p>the forum topic</p>") eq_refl).
    exists (lit "<p>the "), (lit "</p>"). reflexivity.
Defined.

(** ** The thread target *)

Module TargetFacts.

Import UrlRegex UrlFacts.

Definition startsWithDigit (s : jsstring) : bool :=
  match s with c :: _ => isDigit c | [] => false end.

Lemma takeWhile_no_digit (s : jsstring) :
  startsWithDigit s = false -> takeWhile isDigit s = [].
Proof. destruct s as [|c s]; simpl; [reflexivity|]. intros ->; reflexivity. Qed.

Lemma matchAt_7_20 (post : jsstring) :
  startsWithDigit post = false ->
  matchAt (lit "forum/7/20" ++ post) = Some (lit "7", lit "20", 10).
Proof.
  intros H. unfold matchAt. cbn.
  rewrite (takeWhile_no_digit _ H). reflexivity.
Qed.

Lemma nothing_after_7_20 (post : jsstring) (j : nat) :
  (forall q, matchAt (skipn q post) = None) ->
  matchAt (skipn (S j) (lit "forum/7/20" ++ post)) = None.
Proof.
  intros H.
  do 9 (destruct j as [|j];
        [cbn [lit list_ascii_of_string map app skipn];
         apply matchAt_not_f; vm_compute; discriminate|]).
  change (S (S (S (S (S (S (S (S (S (S j))))))))))
    with (length (lit "forum/7/20") + j).
  rewrite ListFacts.skipn_app_length. apply H.
Qed.

End TargetFacts.

(** C4 — for every body in which the pattern forum/digits/digits occurs,
    the resolved target is the pair of captures of its last occurrence:
    the one that no occurrence follows.  In particular a body that holds
    forum/5/10 and further on forum/7/20, with no digit and no further
    occurrence behind it, resolves to category 7, thread 20. *)
Theorem last_forum_url_wins :
  (forall body : jsstring,
      (exists p, UrlRegex.matchAt (skipn p body) <> None) ->
      exists p categoryId threadId n,
        UrlRegex.matchAt (skipn p body) = Some (categoryId, threadId, n)
        /\ (forall q, p < q -> UrlRegex.matchAt (skipn q body) = None)
        /\ UrlRegex.urlMatch body = Some (categoryId, threadId))
  /\ (forall pre mid post : jsstring,
         TargetFacts.startsWithDigit post = false ->
         (forall q, UrlRegex.matchAt (skipn q post) = None) ->
         UrlRegex.urlMatch
           (pre ++ lit "forum/5/10" ++ mid ++ lit "forum/7/20" ++ post)
         = Some (lit "7", lit "20")
         /\ (toN (lit "7"), toN (lit "20")) = (7%N, 20%N)).
Proof.
  split.
  - intros body Hex.
    destruct (@UrlFacts.last_occurrence_exists body Hex) as (p & c & t & n & Hp & Hl).
    exists p, c, t, n. split; [exact Hp|]. split; [exact Hl|].
    unfold UrlRegex.urlMatch.
    apply (@UrlFacts.matchAll_last body 0 p c t n); auto. intros k Hk; lia.
  - intros pre mid post Hd Hn. split; [|reflexivity].
    unfold UrlRegex.urlMatch.
    assert (E : forall j,
               skipn (length pre + (length (lit "forum/5/10")
                                    + (length mid + j)))
                     (pre ++ lit "forum/5/10" ++ mid ++ lit "forum/7/20" ++ post)
               = skipn j (lit "forum/7/20" ++ post)).
    { intros j. rewrite !ListFacts.skipn_app_length. reflexivity. }
    apply (@UrlFacts.matchAll_last _ 0
             (length pre + (length (lit "forum/5/10") + (length mid + 0)))
             (lit "7") (lit "20") 10).
    + intros k Hk; lia.
    + rewrite E. apply TargetFacts.matchAt_7_20. exact Hd.
    + intros q Hq.
      replace q with (length pre + (length (lit "forum/5/10")
                      + (length mid
                         + S (q - S (length pre + (length (lit "forum/5/10")
                                                   + (length mid + 0)))))))
        by lia.
      rewrite E. apply TargetFacts.nothing_after_7_20. exact Hn.
Qed.

(** The theorem at a body with two links. *)
Lemma last_forum_url_wins_witness :
  UrlRegex.urlMatch
    (lit "<a href='/forum/5/10'>old</a>" ++ lit "forum/5/10" ++ lit " and "
         ++ lit "forum/7/20" ++ lit "'>the forum topic</a>")
  = Some (lit "7", lit "20")
  /\ exists p categoryId threadId n,
      UrlRegex.matchAt (skipn p (lit "see forum/5/10, forum/7/20."))
      = Some (categoryId, threadId, n)
      /\ (forall q, p < q ->
                    UrlRegex.matchAt (skipn q (lit "see forum/5/10, forum/7/20."))
                    = None)
      /\ UrlRegex.urlMatch (lit "see forum/5/10, forum/7/20.")
         = Some (categoryId, threadId).
Proof.
  split.
  - apply (proj2 last_forum_url_wins).
    + reflexivity.
    + intros q. do 22 (destruct q as [|q]; [reflexivity|]).
      destruct q; reflexivity.
  - apply (proj1 last_forum_url_wins). exists 4. vm_compute. discriminate.
Defined.

(** The superseded title-driven job resolves the first occurrence. *)
Lemma legacy_first_forum_url_wins :
  UrlRegex.legacyUrlMatch (lit "see forum/5/10, forum/7/20.")
  = Some (lit "5", lit "10").
Proof. reflexivity. Qed.

(** ** The transactional writer *)

Module WriterFacts.

(** Nothing of the store or of the watermark file differs. *)
Definition rolledBack (w w' : world) : Prop :=
  db w' = db w /\ snapshot w' = None
  /\ last_created_txt w' = last_created_txt w /\ writes w' = writes w.

Section WithPorts.

Variable P : Ports.

(** The message row and the text row of steps 1 and 2. *)
Definition newMessage (data : postData) (w : world) : Store.message :=
  {| m_id := next_message_id w; m_parent := parentId data;
     m_thread := threadId data; m_catid := categoryId data;
     m_subject := subject data; m_userid := userId data;
     m_name := name data; m_time := now P;
     m_ip := lit "162.158.210.219" |}.

Definition newText (data : postData) (w : world) : message_text :=
  {| x_mesid := next_message_id w; x_message := message data |}.

(** Some step of a write that starts in [w] fails: the store faults on its
    statement, or the statement is an update that matches no row.  (The
    inserts report one row, and the last update matches the activity just
    inserted.)  The statements are numbered by the queries before them. *)
Definition stepFails (data : postData) (w : world) : Prop :=
  faults P InsertMessage (queries w) = true
  \/ faults P InsertMessageText (1 + queries w) = true
  \/ faults P UpdateUserPosts (2 + queries w) = true
  \/ filter (fun u => (u_userid u =? userId data)%Z)
            (jos_kunena_users (db w)) = []
  \/ faults P UpdateTopic (3 + queries w) = true
  \/ filter (fun r => (t_id r =? threadId data)%Z)
            (jos_kunena_topics (db w)) = []
  \/ faults P UpdateCategory (4 + queries w) = true
  \/ filter (fun r => (k_id r =? categoryId data)%Z)
            (jos_kunena_categories (db w)) = []
  \/ faults P InsertActivity (5 + queries w) = true
  \/ faults P UpdateActivityLike (6 + queries w) = true.

(** What a committed write leaves. *)
Record committed (data : postData) (w w' : world) : Prop := {
  cm_steps : ~ stepFails data w;
  cm_snapshot : snapshot w' = None;
  cm_content : jos_content (db w') = jos_content (db w);
  cm_messages :
    jos_kunena_messages (db w')
    = jos_kunena_messages (db w) ++ [newMessage data w];
  cm_text :
    jos_kunena_messages_text (db w')
    = jos_kunena_messages_text (db w) ++ [newText data w];
  cm_next : next_message_id w' = (next_message_id w + 1)%Z;
  cm_watermark :
    if isInvalidDate P (created data)
    then writes w' = writes w /\ last_created_txt w' = last_created_txt w
    else writes w' = formatDate P (created data) :: writes w
         /\ last_created_txt w' = Some (formatDate P (created data));
  cm_log : hd_error (log w') = Some (InsertedMessage (next_message_id w)) }.

(** While the transaction is open and has not committed. *)
Definition pending (w w1 : world) : Prop :=
  snapshot w1 = Some (db w)
  /\ last_created_txt w1 = last_created_txt w
  /\ writes w1 = writes w
  /\ (next_message_id w <= next_message_id w1)%Z.

#[local] Arguments lit s : simpl never.
#[local] Arguments activityTitle data : simpl never.
#[local] Arguments activityContent data messageId : simpl never.

Ltac step :=
  match goal with
  | |- context [if faults P ?s ?n then _ else _] =>
      destruct (faults P s n) eqn:?; cbn
  | |- context [if (?n =? 0) then _ else _] =>
      destruct (Nat.eqb_spec n 0); cbn
  end.

Lemma transaction_cases (data : postData) (w : world) :
  match transaction P data (now P) w with
  | (Throw err, w1) => pending w w1
  | (Ok _, w1) => committed data w w1
  end.
Proof.
  unfold transaction, bind, beginTransaction, commit, modify,
    queryDatabase, affected, throw, ret, logger, setLastProcessedDate,
    insertMessageRow, insertMessageText, updateUserPosts, updateTopic,
    updateCategory, insertActivity, updateActivityLike, updateWhere.
  cbn.
  repeat (step; [unfold pending; cbn; repeat split; lia|]).
  assert (NF : ~ stepFails data w).
  { intros F. unfold stepFails in F. cbn in F.
    repeat (destruct F as [F|F];
            [try congruence; rewrite F in *; cbn in *; congruence|]).
    congruence. }
  destruct (isInvalidDate P (created data)) eqn:Hv; cbn;
    (constructor; cbn; try rewrite Hv; auto).
Qed.

(** [insertMessage] never throws, and either committed or left the
    store and the watermark file as they were. *)
Lemma insertMessage_cases (data : postData) (w : world) :
  fst (insertMessage P data w) = Ok tt
  /\ ((rolledBack w (snd (insertMessage P data w))
       /\ (next_message_id w <= next_message_id (snd (insertMessage P data w)))%Z)
      \/ committed data w (snd (insertMessage P data w))).
Proof.
  unfold insertMessage, tryCatch.
  pose proof (transaction_cases data w) as T.
  destruct (transaction P data (now P) w) as [[[]|err] w1].
  - split; [reflexivity|]. right. exact T.
  - destruct T as (Hs & Hl & Hw & Hn).
    unfold bind, rollback, modify, logger. cbn. rewrite Hs. cbn.
    split; [reflexivity|]. left. unfold rolledBack. cbn. auto.
Qed.


End WithPorts.

End WriterFacts.


(** ** One invocation of [processPost] *)

Module RunFacts.

(** The rows, the open transaction, the counters and the watermark file
    are the same; queries issued, [lastIndex] and the log may differ. *)
Definition same_store (w w' : world) : Prop :=
  db w' = db w /\ snapshot w' = snapshot w
  /\ next_message_id w' = next_message_id w
  /\ next_activity_id w' = next_activity_id w
  /\ last_created_txt w' = last_created_txt w /\ writes w' = writes w.

Lemma same_store_refl (w : world) : same_store w w.
Proof. unfold same_store; auto 10. Qed.

Lemma same_store_trans (a b c : world) :
  same_store a b -> same_store b c -> same_store a c.
Proof. unfold same_store; intuition congruence. Qed.

Lemma same_store_log (e : event) (w w' : world) :
  same_store w w' -> same_store w (add_log e w').
Proof. unfold same_store; cbn; auto. Qed.

Lemma same_store_lastIndex (n : nat) (w w' : world) :
  same_store w w' -> same_store w (with_lastIndex n w').
Proof. unfold same_store; cbn; auto. Qed.

Lemma earliest_in (rows : list content) (r : content) :
  earliest rows = Some r -> In r rows.
Proof.
  revert r; induction rows as [|x rows IH]; intros r; simpl; [discriminate|].
  destruct (earliest rows) as [m|].
  - destruct (c_created m <? c_created x)%Z; intros H; inversion H; subst; auto.
  - intros H; inversion H; auto.
Qed.

Section WithPorts.

Variable P : Ports.

Lemma query_select {A : Type} (s : statement) (rows : tables -> list A)
      (w : world) :
  queryDatabase P s (select rows) w
  = if faults P s (queries w)
    then (Ok None, add_log (QueryError s) (with_queries (S (queries w)) w))
    else (Ok (Some (rows (db w))),
          add_log (QuerySuccessful s) (with_queries (S (queries w)) w)).
Proof. unfold queryDatabase, select. destruct (faults P s (queries w)); reflexivity. Qed.

Lemma same_store_query (s : statement) (e : event) (w : world) :
  same_store w (add_log e (with_queries (S (queries w)) w)).
Proof. unfold same_store; cbn; auto 10. Qed.

Lemma getNextPost_cases (created : Z) (w : world) :
  same_store w (snd (getNextPost P created w))
  /\ (fst (getNextPost P created w) = Ok None
      \/ exists item,
          fst (getNextPost P created w) = Ok (Some item)
          /\ In item (jos_content (db w))
          /\ (created < c_created item)%Z).
Proof.
  unfold getNextPost, bind. rewrite query_select.
  destruct (faults P SelectNextPost (queries w)); cbn.
  - split; [apply same_store_query; exact SelectNextPost|left; reflexivity].
  - unfold selectNextPost.
    destruct (earliest _) as [r|] eqn:E; cbn.
    + split; [apply same_store_query; exact SelectNextPost|right].
      exists r. split; [reflexivity|].
      apply earliest_in in E. apply filter_In in E. destruct E as [Hin Hc].
      apply andb_true_iff in Hc. destruct Hc as [Hc _].
      apply Z.ltb_lt in Hc. auto.
    + split; [apply same_store_query; exact SelectNextPost|left; reflexivity].
Qed.

Lemma getSubjectAndParent_cases (categoryId threadId : jsstring) (w : world) :
  same_store w (snd (getSubjectAndParent P categoryId threadId w))
  /\ exists o, fst (getSubjectAndParent P categoryId threadId w) = Ok o.
Proof.
  unfold getSubjectAndParent, bind. rewrite query_select.
  destruct (faults P SelectSubjectAndParent (queries w)).
  - split; [apply same_store_query; exact SelectNextPost|eexists; reflexivity].
  - destruct (selectSubjectAndParent categoryId threadId (db w)) as [|r l]; cbn;
      (split; [apply same_store_query; exact SelectNextPost
              |eexists; reflexivity]).
Qed.

Lemma getImage_cases (listingId : Z) (w : world) :
  same_store w (snd (getImage P listingId w))
  /\ exists o, fst (getImage P listingId w) = Ok o.
Proof.
  unfold getImage, bind. rewrite query_select.
  destruct (faults P SelectImage (queries w)).
  - split; [apply same_store_query; exact SelectNextPost|eexists; reflexivity].
  - destruct (selectImage listingId (db w)) as [|r l]; cbn;
      (split; [apply same_store_query; exact SelectNextPost
              |eexists; reflexivity]).
Qed.

(** The guard: a fault answers as an empty result does. *)
Lemma hasBeenPosted_eq (text : jsstring) (w : world) :
  hasBeenPosted P text w
  = if faults P SelectPosted (queries w)
    then (Ok false, add_log (QueryError SelectPosted)
                            (with_queries (S (queries w)) w))
    else (Ok match postedRows (USER_ID P) text (db w) with
             | [] => false
             | _ :: _ => true
             end,
          add_log (QuerySuccessful SelectPosted)
                  (with_queries (S (queries w)) w)).
Proof.
  unfold hasBeenPosted, bind. rewrite query_select.
  destruct (faults P SelectPosted (queries w)); cbn; [reflexivity|].
  unfold selectPosted.
  destruct (postedRows (USER_ID P) text (db w)); reflexivity.
Qed.

Lemma hasBeenPosted_same_store (text : jsstring) (w : world) :
  same_store w (snd (hasBeenPosted P text w)).
Proof.
  rewrite hasBeenPosted_eq.
  destruct (faults P SelectPosted (queries w)); cbn;
    apply same_store_query; exact SelectPosted.
Qed.

(** What one invocation does after its depth check: it returns with the
    store untouched, or skips an item later than [created] with the store
    untouched, or hands an item later than [created], on which the guard
    answered no, to the writer. *)
Inductive examined (created : Z) (w : world) : res step * world -> Prop :=
| ex_idle (w' : world) :
    same_store w w' -> examined created w (Ok Return, w')
| ex_skip (item : content) (w' : world) :
    same_store w w' ->
    In item (jos_content (db w)) ->
    (created < c_created item)%Z ->
    examined created w (Ok (Recurse (formatDate P (c_created item))), w')
| ex_write (item : content) (categoryId threadId : jsstring)
           (data : postData) (w0 w1 : world) :
    same_store w w0 ->
    In item (jos_content (db w)) ->
    (created < c_created item)%Z ->
    Writer.created data = c_created item ->
    userId data = USER_ID P ->
    hasBeenPosted P (message data) w0 = (Ok false, w1) ->
    examined created w
      (Ok Return,
       add_log (PostedAt categoryId threadId) (snd (insertMessage P data w1))).

Lemma guardAndWrite_eq (nextPost : content) (categoryId threadId : jsstring)
      (data : postData) (w : world) :
  guardAndWrite P nextPost categoryId threadId data w
  = match hasBeenPosted P (message data) w with
    | (Ok true, w1) =>
        (Ok (Recurse (formatDate P (c_created nextPost))),
         add_log SkipAlreadyPosted w1)
    | (Ok false, w1) =>
        (Ok Return,
         add_log (PostedAt categoryId threadId) (snd (insertMessage P data w1)))
    | (Throw e, w1) => (Throw e, w1)
    end.
Proof.
  unfold guardAndWrite, bind.
  destruct (hasBeenPosted P (message data) w) as [[[|]|e] w1]; cbn;
    try reflexivity.
  destruct (WriterFacts.insertMessage_cases P data w1) as [E _].
  destruct (insertMessage P data w1) as [r w2]. cbn in *. subst r. reflexivity.
Qed.

Lemma examine_examined (created : Z) (w : world) :
  examined created w (examine P created w).
Proof.
  unfold examine. unfold bind at 1.
  destruct (getNextPost_cases created w) as [S1 C1].
  destruct (getNextPost P created w) as [r1 w1]. cbn [fst snd] in *.
  destruct C1 as [-> | (item & -> & Hin & Hlt)].
  { cbn. apply ex_idle. apply same_store_log. exact S1. }
  unfold bind at 1. unfold logger at 1, modify at 1.
  unfold bind at 1. unfold gets at 1.
  destruct (Segmenter.segment _ _) as [[upd extracted] li'].
  unfold bind at 1. unfold modify at 1.
  set (w2 := with_lastIndex li' (add_log (Examining (c_id item)) w1)).
  assert (S2 : same_store w w2).
  { apply same_store_lastIndex, same_store_log. exact S1. }
  clearbody w2.
  destruct (UrlRegex.urlMatch (c_fulltext item)) as [[categoryId threadId]|].
  2:{ cbn. apply ex_skip; [apply same_store_log; exact S2|exact Hin|exact Hlt]. }
  unfold bind at 1.
  destruct (getSubjectAndParent_cases categoryId threadId w2) as [S3 [o3 E3]].
  destruct (getSubjectAndParent P categoryId threadId w2) as [r3 w3].
  cbn [fst snd] in *. subst r3.
  assert (S3' : same_store w w3) by (eapply same_store_trans; eauto).
  destruct o3 as [[subject parentId]|].
  2:{ cbn. apply ex_skip; [apply same_store_log; exact S3'|exact Hin|exact Hlt]. }
  unfold bind at 1.
  destruct (getImage_cases (c_id item) w3) as [S4 [o4 E4]].
  destruct (getImage P (c_id item) w3) as [r4 w4].
  cbn [fst snd] in *. subst r4.
  assert (S4' : same_store w w4) by (eapply same_store_trans; eauto).
  destruct o4 as [imageURL|].
  2:{ cbn. apply ex_skip; [apply same_store_log; exact S4'|exact Hin|exact Hlt]. }
  rewrite guardAndWrite_eq.
  pose proof (hasBeenPosted_same_store
                (Composer.finalPost
                   (Segmenter.finalTitle extracted (c_title item)) imageURL
                   (Composer.bbcode P (Composer.finalUpdates P upd))) w4) as S5.
  cbn [message].
  destruct (hasBeenPosted P _ w4) as [[[|]|e] w5] eqn:G; cbn [snd] in S5.
  - apply ex_skip; [|exact Hin|exact Hlt]. apply same_store_log.
    eapply same_store_trans; eauto.
  - eapply ex_write with (item := item) (w0 := w4); eauto.
  - rewrite hasBeenPosted_eq in G.
    destruct (faults P SelectPosted (queries w4)); discriminate.
Qed.

End WithPorts.

End RunFacts.

(** ** The whole run *)

Module OrchestratorFacts.

Import RunFacts.

(** The depth trace at the top of [processPost]. *)
Definition logDepth (depth : nat) (w : world) : world :=
  if depth mod 100 =? 0 then add_log (RecursionDepth depth) w else w.

(** The items a run fetched, counted in its log. *)
Definition examinedCount (w : world) : nat :=
  length (filter (fun e => match e with Examining _ => true | _ => false end)
                 (log w)).

Lemma same_store_logDepth (depth : nat) (w : world) :
  same_store w (logDepth depth w).
Proof.
  unfold logDepth. destruct (depth mod 100 =? 0);
    [apply same_store_log|]; apply same_store_refl.
Qed.

Section WithPorts.

Variable P : Ports.

(** A backlog of [n] consecutive skip-eligible items: the invocations at
    depths [depth], [depth + 1], ..., [depth + n - 1] each find an item
    and skip it. *)
Fixpoint skipChain (n : nat) (created : Z) (depth : nat) (w : world) : Prop :=
  match n with
  | O => True
  | S n' =>
      match examine P created (logDepth depth w) with
      | (Ok (Recurse created'), w') => skipChain n' created' (depth + 1) w'
      | _ => False
      end
  end.

(** The runs of [processPost] by what they do to the store: nothing, or
    skip an item and go on from its formatted creation time, or hand an
    item to the writer after the guard answered no. *)
Inductive ran (w : world) (created : Z) : world -> Prop :=
| ran_same (w' : world) : same_store w w' -> ran w created w'
| ran_skip (item : content) (w1 w' : world) :
    same_store w w1 ->
    In item (jos_content (db w)) ->
    (created < c_created item)%Z ->
    ran w1 (formatDate P (c_created item)) w' ->
    ran w created w'
| ran_write (item : content) (categoryId threadId : jsstring)
            (data : postData) (w0 w1 : world) :
    same_store w w0 ->
    In item (jos_content (db w)) ->
    (created < c_created item)%Z ->
    Writer.created data = c_created item ->
    userId data = USER_ID P ->
    hasBeenPosted P (message data) w0 = (Ok false, w1) ->
    ran w created
        (add_log (PostedAt categoryId threadId) (snd (insertMessage P data w1))).

Lemma processPostFrom_eq (fuel : nat) (created : Z) (depth : nat) (w : world) :
  processPostFrom P (S fuel) created depth w
  = if MAX_RECURSION <? depth
    then (Ok (MaxDepth depth), add_log MaxDepthReached (logDepth depth w))
    else match examine P created (logDepth depth w) with
         | (Ok (Recurse created'), w1) =>
             processPostFrom P fuel created' (depth + 1) w1
         | (Ok Return, w1) => (Ok (Returned depth), w1)
         | (Throw e, w1) => (Throw e, w1)
         end.
Proof.
  cbn [processPostFrom]. unfold bind at 1. unfold logDepth.
  destruct (depth mod 100 =? 0); cbn -[examine processPostFrom MAX_RECURSION Nat.ltb];
    destruct (MAX_RECURSION <? depth); try reflexivity;
    unfold bind;
    match goal with
    | |- context [examine P created ?x] =>
        destruct (examine P created x) as [[[c|]|e] w1]; reflexivity
    end.
Qed.

Lemma ran_from_same (w w0 w' : world) (created : Z) :
  same_store w w0 -> ran w0 created w' -> ran w created w'.
Proof.
  intros S0 R. revert w S0.
  induction R as [w0 created w' S1
                 |w0 created item w1 w' S1 Hin Hlt R IH
                 |w0 created item cat thr data wa wb S1 Hin Hlt Hc Hu G];
    intros w S0.
  - apply ran_same. eapply same_store_trans; eauto.
  - assert (E : db w0 = db w) by (destruct S0 as [E _]; exact E).
    eapply ran_skip with (item := item) (w1 := w1); auto.
    + eapply same_store_trans; eauto.
    + rewrite <- E. exact Hin.
  - assert (E : db w0 = db w) by (destruct S0 as [E _]; exact E).
    eapply ran_write with (item := item) (w0 := wa); auto.
    + eapply same_store_trans; eauto.
    + rewrite <- E. exact Hin.
Qed.

Lemma processPostFrom_ran (fuel : nat) :
  forall created depth w,
    ran w created (snd (processPostFrom P fuel created depth w)).
Proof.
  induction fuel as [|fuel IH]; intros created depth w.
  - cbn. apply ran_same, same_store_refl.
  - rewrite processPostFrom_eq.
    pose proof (same_store_logDepth depth w) as S0.
    destruct (MAX_RECURSION <? depth).
    + cbn. apply ran_same. apply same_store_log. exact S0.
    + pose proof (examine_examined P created (logDepth depth w)) as X.
      apply (ran_from_same S0).
      inversion X as [w' S1 E|item w' S1 Hin Hlt E
                      |item cat thr data w0 w1 S1 Hin Hlt Hc Hu G E].
      * cbn. apply ran_same; exact S1.
      * eapply ran_skip with (item := item) (w1 := w'); eauto.
      * cbn. eapply ran_write with (item := item) (w0 := w0); eauto.
Qed.

(** The recursion is bounded: with enough fuel a run ends on a return
    statement, at a depth of at most [MAX_RECURSION + 1], and the depth
    guard fires at exactly that depth. *)
Lemma processPostFrom_ends (fuel : nat) :
  forall created depth w,
    depth <= MAX_RECURSION + 1 ->
    MAX_RECURSION + 2 <= fuel + depth ->
    (exists d, depth <= d <= MAX_RECURSION
               /\ fst (processPostFrom P fuel created depth w) = Ok (Returned d))
    \/ fst (processPostFrom P fuel created depth w)
       = Ok (MaxDepth (MAX_RECURSION + 1)).
Proof.
  induction fuel as [|fuel IH]; intros created depth w Hd Hf; [lia|].
  rewrite processPostFrom_eq.
  destruct (Nat.ltb_spec MAX_RECURSION depth) as [Hlt|Hge].
  - right. cbn [fst]. do 2 f_equal. lia.
  - pose proof (examine_examined P created (logDepth depth w)) as X.
    inversion X as [w' S1 E|item w' S1 Hin Hl E
                    |item cat thr data w0 w1 S1 Hin Hl Hc Hu G E].
    + left. exists depth. split; [lia|reflexivity].
    + destruct (IH (formatDate P (c_created item)) (depth + 1) w')
        as [(d & Hdd & Hr)|Hr]; try lia.
      * left. exists d. split; [lia|exact Hr].
      * right. exact Hr.
    + left. exists depth. split; [lia|reflexivity].
Qed.

(** A backlog of [MAX_RECURSION + 1 - depth] skip-eligible items from
    [depth] on carries the run to the depth guard. *)
Lemma skipChain_reaches_guard (n : nat) :
  forall fuel created depth w,
    skipChain n created depth w ->
    depth + n = MAX_RECURSION + 1 ->
    n < fuel ->
    fst (processPostFrom P fuel created depth w)
    = Ok (MaxDepth (MAX_RECURSION + 1))
    /\ same_store w (snd (processPostFrom P fuel created depth w))
    /\ hd_error (log (snd (processPostFrom P fuel created depth w)))
       = Some MaxDepthReached.
Proof.
  induction n as [|n IH]; intros fuel created depth w Hs Hd Hf;
    (destruct fuel as [|fuel]; [lia|]); rewrite processPostFrom_eq.
  - destruct (Nat.ltb_spec MAX_RECURSION depth) as [Hlt|Hge]; [|lia].
    cbn [fst snd]. split; [do 2 f_equal; lia|]. split; [|reflexivity].
    apply same_store_log, same_store_logDepth.
  - destruct (Nat.ltb_spec MAX_RECURSION depth) as [Hlt|Hge]; [lia|].
    cbn [skipChain] in Hs.
    pose proof (examine_examined P created (logDepth depth w)) as X.
    destruct (examine P created (logDepth depth w)) as [[[c|]|e] w1];
      try contradiction.
    assert (S1 : same_store (logDepth depth w) w1).
    { inversion X; assumption. }
    destruct (IH fuel c (depth + 1) w1 Hs) as (E1 & E2 & E3); try lia.
    split; [exact E1|]. split; [|exact E3].
    eapply same_store_trans; [apply same_store_logDepth|].
    eapply same_store_trans; eauto.
Qed.

End WithPorts.

End OrchestratorFacts.

(** C7 — [MAX_RECURSION] is 100, and the guard is [depth > MAX_RECURSION]:
    over a backlog of more than 100 consecutive skip-eligible items (the
    invocations at depths 0 to 100 each find an item and skip it) the run
    never runs out of recursion, ends on the depth guard in the
    invocation at depth 101, posts nothing and leaves the store and the
    watermark file as they were. *)
Theorem depth_guard_stops_past_max_recursion (P : Ports) (created : Z) (w : world) :
  OrchestratorFacts.skipChain P (MAX_RECURSION + 1) created 0 w ->
  MAX_RECURSION = 100
  /\ fst (processPost P created w) = Ok (MaxDepth 101)
  /\ RunFacts.same_store w (snd (processPost P created w))
  /\ hd_error (log (snd (processPost P created w))) = Some MaxDepthReached.
Proof.
  intros H. split; [reflexivity|]. unfold processPost.
  apply (@OrchestratorFacts.skipChain_reaches_guard P (MAX_RECURSION + 1)
           (MAX_RECURSION + 2) created 0 w H); unfold MAX_RECURSION; lia.
Qed.

(** The theorem on a backlog of 150 articles without a thread link. *)
Lemma depth_guard_stops_past_max_recursion_witness :
  OrchestratorFacts.skipChain (Demo.ports Demo.noFaults) (MAX_RECURSION + 1)
                              0 0 (Demo.backlog 150)
  /\ fst (processPost (Demo.ports Demo.noFaults) 0 (Demo.backlog 150))
     = Ok (MaxDepth 101)
  /\ db (snd (processPost (Demo.ports Demo.noFaults) 0 (Demo.backlog 150)))
     = db (Demo.backlog 150)
  /\ writes (snd (processPost (Demo.ports Demo.noFaults) 0 (Demo.backlog 150)))
     = [].
Proof.
  assert (H : OrchestratorFacts.skipChain (Demo.ports Demo.noFaults)
                (MAX_RECURSION + 1) 0 0 (Demo.backlog 150)).
  { vm_compute. exact I. }
  split; [exact H|].
  destruct (depth_guard_stops_past_max_recursion
              (Demo.ports Demo.noFaults) 0 (Demo.backlog 150) H)
    as (_ & E & S & _).
  split; [exact E|].
  destruct S as (Sd & _ & _ & _ & _ & Sw).
  split; [exact Sd|exact Sw].
Defined.

(** C7, as stated, fails: over a backlog of 101 skip-eligible items the
    run does not stop in the invocation at depth 100.  That invocation
    fetches and skips the 101st item; the run stops in the next one, at
    depth 101. *)
Lemma depth_guard_does_not_stop_at_100 :
  OrchestratorFacts.skipChain (Demo.ports Demo.noFaults) 101 0 0
                              (Demo.backlog 101)
  /\ fst (processPost (Demo.ports Demo.noFaults) 0 (Demo.backlog 101))
     = Ok (MaxDepth 101)
  /\ fst (processPost (Demo.ports Demo.noFaults) 0 (Demo.backlog 101))
     <> Ok (MaxDepth 100)
  /\ OrchestratorFacts.examinedCount
       (snd (processPost (Demo.ports Demo.noFaults) 0 (Demo.backlog 101)))
     = 101.
Proof.
  vm_compute. repeat split; try exact I; discriminate.
Qed.

(** The invocation at depth 100 is not where a run stops: after a hundred
    skipped articles it fetches the next one and posts it. *)
Lemma depth_100_still_posts :
  fst (processPost (Demo.ports Demo.noFaults) 0 Demo.backlogThenArticle)
  = Ok (Returned 100)
  /\ writes (snd (processPost (Demo.ports Demo.noFaults) 0
                              Demo.backlogThenArticle)) = [1000%Z]
  /\ length (jos_kunena_messages
               (db (snd (processPost (Demo.ports Demo.noFaults) 0
                                     Demo.backlogThenArticle)))) = 1.
Proof. vm_compute. repeat split; reflexivity. Qed.

(** Every run ends on a return statement: in an invocation at depth 100
    or less, or on the depth guard in the invocation at depth 101.  The
    recursion budget of the model is never what ends it. *)
Lemma processPost_terminates (P : Ports) (created : Z) (w : world) :
  (exists d, d <= MAX_RECURSION
             /\ fst (processPost P created w) = Ok (Returned d))
  \/ fst (processPost P created w) = Ok (MaxDepth (MAX_RECURSION + 1)).
Proof.
  unfold processPost.
  destruct (@OrchestratorFacts.processPostFrom_ends P (MAX_RECURSION + 2)
              created 0 w) as [(d & Hd & E)|E]; try lia.
  - left. exists d. split; [lia|exact E].
  - right. exact E.
Qed.

(** ** The watermark *)

Module WatermarkFacts.

Import RunFacts OrchestratorFacts.

Section WithPorts.

Variable P : Ports.

(** [main] by what it finds in the watermark file. *)
Lemma main_eq (w : world) :
  main P w
  = match last_created_txt w with
    | None => (Ok tt, add_log NoLastCreatedDate w)
    | Some read =>
        match processPost P read w with
        | (Ok _, w1) => (Ok tt, w1)
        | (Throw e, w1) => (Throw e, w1)
        end
    end.
Proof.
  unfold main, bind, gets, logger, modify, ret.
  destruct (last_created_txt w) as [read|]; [|reflexivity].
  destruct (processPost P read w) as [[e|err] w1]; reflexivity.
Qed.

End WithPorts.

End WatermarkFacts.

(** ** The duplicate guard *)

Module GuardFacts.

Import RunFacts OrchestratorFacts.

(** No text is stored twice for the poster. *)
Definition duplicateFree (userid : Z) (t : tables) : Prop :=
  forall text, length (postedRows userid text t) <= 1.

(** The AUTO_INCREMENT counter of the messages is above every message id
    in use, in the messages and in their texts. *)
Definition idsBelowCounter (w : world) : Prop :=
  (forall m, In m (jos_kunena_messages (db w)) -> (m_id m < next_message_id w)%Z)
  /\ (forall x, In x (jos_kunena_messages_text (db w)) ->
                (x_mesid x < next_message_id w)%Z).

(** The join of the guard's query, on the two lists it reads. *)
Definition joined (userid : Z) (text : jsstring)
           (messages : list Store.message) (texts : list message_text)
  : list message_text :=
  flat_map
    (fun x =>
       flat_map
         (fun m =>
            if (m_id m =? x_mesid x)%Z && (m_userid m =? userid)%Z
               && Js.eqb (x_message x) text
            then [x] else [])
         messages)
    texts.

Lemma postedRows_joined (userid : Z) (text : jsstring) (t : tables) :
  postedRows userid text t
  = joined userid text (jos_kunena_messages t) (jos_kunena_messages_text t).
Proof. reflexivity. Qed.

Lemma pick_bound {A B : Type} (c : A -> bool) (x : B) (l : list A) :
  length (flat_map (fun a => if c a then [x] else []) l) <= length l.
Proof.
  induction l as [|a l IH]; cbn; [lia|]. destruct (c a); cbn; lia.
Qed.

Lemma joined_bound (userid : Z) (text : jsstring)
      (messages : list Store.message) (texts : list message_text) :
  length (joined userid text messages texts) <= length texts * length messages.
Proof.
  unfold joined. induction texts as [|x texts IH]; [cbn; lia|].
  cbn [flat_map length Nat.mul]. rewrite length_app.
  pose proof (pick_bound
                (fun m => (m_id m =? x_mesid x)%Z && (m_userid m =? userid)%Z
                          && Js.eqb (x_message x) text) x messages) as H.
  cbn beta in H. lia.
Qed.

Lemma flat_map_agree {A B : Type} (f g : A -> list B) (l : list A) :
  (forall a, In a l -> f a = g a) -> flat_map f l = flat_map g l.
Proof.
  induction l as [|a l IH]; intros H; [reflexivity|]. cbn.
  rewrite (H a (or_introl eq_refl)), IH; [reflexivity|].
  intros b Hb. apply H. right. exact Hb.
Qed.

(** A fresh message with its text adds one row to the join when the text
    and the poster are the ones asked for, and none otherwise. *)
Lemma joined_fresh (userid : Z) (text : jsstring)
      (messages : list Store.message) (texts : list message_text)
      (m : Store.message) (x : message_text) :
  (forall m0, In m0 messages -> (m_id m0 < m_id m)%Z) ->
  (forall x0, In x0 texts -> (x_mesid x0 < m_id m)%Z) ->
  x_mesid x = m_id m ->
  joined userid text (messages ++ [m]) (texts ++ [x])
  = joined userid text messages texts
      ++ (if (m_userid m =? userid)%Z && Js.eqb (x_message x) text
          then [x] else []).
Proof.
  intros Hm Hx Hid. unfold joined.
  rewrite flat_map_app. f_equal.
  - apply flat_map_agree. intros x0 Hx0.
    rewrite flat_map_app. cbn.
    destruct (Z.eqb_spec (m_id m) (x_mesid x0)) as [E|_].
    + specialize (Hx x0 Hx0). lia.
    + cbn. rewrite app_nil_r. reflexivity.
  - cbn. rewrite app_nil_r, flat_map_app. cbn.
    rewrite Hid, Z.eqb_refl, app_nil_r. cbn.
    replace (flat_map _ messages) with (@nil message_text).
    + reflexivity.
    + symmetry. clear - Hm. induction messages as [|m0 l IH]; [reflexivity|].
      cbn. destruct (Z.eqb_spec (m_id m0) (m_id m)) as [E|_].
      * specialize (Hm m0 (or_introl eq_refl)). lia.
      * cbn. apply IH. intros m1 H1. apply Hm. right. exact H1.
Qed.

Section WithPorts.

Variable P : Ports.

Lemma ran_duplicateFree (w w' : world) (created : Z) :
  (forall n, faults P SelectPosted n = false) ->
  ran P w created w' ->
  idsBelowCounter w ->
  duplicateFree (USER_ID P) (db w) ->
  duplicateFree (USER_ID P) (db w') /\ idsBelowCounter w'.
Proof.
  intros NF R.
  induction R as [w created w' S1
                 |w created item w1 w' S1 Hin Hlt R IH
                 |w created item cat thr data w0 w1 S1 Hin Hlt Hc Hu G];
    intros [Im Ix] D.
  - destruct S1 as (Sd & _ & Sn & _). unfold idsBelowCounter.
    rewrite Sd, Sn. auto.
  - destruct S1 as (Sd & _ & Sn & _). apply IH.
    + unfold idsBelowCounter. rewrite Sd, Sn. auto.
    + rewrite Sd. exact D.
  - pose proof (hasBeenPosted_same_store P (message data) w0) as S2.
    rewrite G in S2. cbn [snd] in S2.
    rewrite hasBeenPosted_eq, NF in G.
    injection G as G1 _.
    assert (S3 : same_store w w1) by (eapply same_store_trans; eauto).
    destruct S1 as (Sd0 & _).
    destruct S3 as (Sd & _ & Sn & _).
    assert (Hnone : postedRows (USER_ID P) (message data) (db w) = []).
    { rewrite <- Sd0. destruct (postedRows _ _ (db w0)); [reflexivity|discriminate]. }
    cut (duplicateFree (USER_ID P) (db (snd (insertMessage P data w1)))
         /\ idsBelowCounter (snd (insertMessage P data w1))).
    { intros H; exact H. }
    destruct (WriterFacts.insertMessage_cases P data w1)
      as [_ [[(Rd & _) Rn]|C]].
    + unfold idsBelowCounter.
      rewrite Rd, Sd. split; [exact D|].
      split; intros y Hy; [specialize (Im y Hy)|specialize (Ix y Hy)]; lia.
    + destruct C as [Cf Cs Cc Cm Ct Cn Cw Cl].
      assert (J : forall text,
                 postedRows (USER_ID P) text (db (snd (insertMessage P data w1)))
                 = postedRows (USER_ID P) text (db w)
                     ++ (if Js.eqb (message data) text
                         then [WriterFacts.newText data w1] else [])).
      { intros text. rewrite !postedRows_joined, Cm, Ct, Sd.
        rewrite joined_fresh.
        - cbn. rewrite Hu, Z.eqb_refl. reflexivity.
        - cbn. rewrite Sn. exact Im.
        - cbn. rewrite Sn. exact Ix.
        - reflexivity. }
      split.
      * intros text. rewrite J, length_app.
        destruct (Js.eqb (message data) text) eqn:E; cbn.
        -- apply Js.eqb_eq in E. subst text. rewrite Hnone. cbn. lia.
        -- specialize (D text). lia.
      * unfold idsBelowCounter.
        rewrite Cm, Ct, Cn, Sd, Sn.
        split; intros y Hy; apply in_app_or in Hy;
          (destruct Hy as [Hy|[<-|[]]];
           [try specialize (Im y Hy); try specialize (Ix y Hy); lia
           |cbn; lia]).
Qed.

End WithPorts.

End GuardFacts.

(** C2 — when the guard's query does not fault: a composed text that the
    poster already has in storage makes the pipeline skip to the next
    candidate with the store untouched, and a run that starts from a
    store where no text is stored twice for the poster ends in one (the
    message ids in use staying below the counter). *)
Theorem guard_prevents_duplicates_without_fault (P : Ports) :
  (forall n, faults P SelectPosted n = false) ->
  (forall nextPost categoryId threadId data w,
      postedRows (USER_ID P) (message data) (db w) <> [] ->
      fst (guardAndWrite P nextPost categoryId threadId data w)
      = Ok (Recurse (formatDate P (c_created nextPost)))
      /\ RunFacts.same_store
           w (snd (guardAndWrite P nextPost categoryId threadId data w)))
  /\ (forall created w,
         GuardFacts.idsBelowCounter w ->
         GuardFacts.duplicateFree (USER_ID P) (db w) ->
         GuardFacts.duplicateFree (USER_ID P) (db (snd (processPost P created w)))
         /\ GuardFacts.idsBelowCounter (snd (processPost P created w))).
Proof.
  intros NF. split.
  - intros nextPost categoryId threadId data w Hp.
    rewrite RunFacts.guardAndWrite_eq, RunFacts.hasBeenPosted_eq, NF.
    destruct (postedRows (USER_ID P) (message data) (db w)); [congruence|].
    cbn. split; [reflexivity|].
    apply RunFacts.same_store_log. apply RunFacts.same_store_query.
    exact SelectPosted.
  - intros created w Hi Hd.
    apply (@GuardFacts.ran_duplicateFree P w _ created NF); auto.
    apply OrchestratorFacts.processPostFrom_ran.
Qed.

(** The theorem on the store that already holds the article's post: the
    guard makes the pipeline skip, and the run adds no second copy. *)
Lemma guard_prevents_duplicates_without_fault_witness :
  fst (guardAndWrite (Demo.ports Demo.noFaults) Demo.article (lit "5") (lit "10")
                     Demo.articleData Demo.alreadyPosted)
  = Ok (Recurse 1000)
  /\ length (postedRows 62 Demo.composed
               (db (snd (processPost (Demo.ports Demo.noFaults) 0
                                     Demo.alreadyPosted)))) <= 1.
Proof.
  destruct (guard_prevents_duplicates_without_fault
              (Demo.ports Demo.noFaults) (fun _ => eq_refl)) as [A B].
  split.
  - apply (A Demo.article (lit "5") (lit "10") Demo.articleData
             Demo.alreadyPosted).
    vm_compute. discriminate.
  - apply (B 0%Z Demo.alreadyPosted).
    + split; intros y [<-|[]]; vm_compute; reflexivity.
    + intros text.
      apply (GuardFacts.joined_bound 62 text [Demo.earlier] [Demo.earlierText]).
Defined.

(** C2, as stated, fails: with the article's post already in storage and
    a store that faults on the guard's query (and on nothing else), the
    run does not skip.  It inserts the same text for the same poster
    again, and storage holds it twice. *)
Lemma guard_fault_lets_duplicate_in :
  GuardFacts.duplicateFree 62 (db Demo.alreadyPosted)
  /\ length (postedRows 62 Demo.composed (db Demo.alreadyPosted)) = 1
  /\ length (postedRows 62 Demo.composed
               (db (snd (processPost (Demo.ports Demo.guardFaults) 0
                                     Demo.alreadyPosted)))) = 2
  /\ ~ GuardFacts.duplicateFree 62
         (db (snd (processPost (Demo.ports Demo.guardFaults) 0
                               Demo.alreadyPosted)))
  /\ ~ In SkipAlreadyPosted
         (log (snd (processPost (Demo.ports Demo.guardFaults) 0
                                Demo.alreadyPosted))).
Proof.
  split; [|split; [|split; [|split]]].
  - intros text.
    apply (GuardFacts.joined_bound 62 text [Demo.earlier] [Demo.earlierText]).
  - vm_compute. reflexivity.
  - vm_compute. reflexivity.
  - intros D. specialize (D Demo.composed). vm_compute in D. lia.
  - vm_compute. intuition discriminate.
Qed.

(** C10 — when the store faults on the guard's query, [hasBeenPosted]
    answers false without touching the store, as it does on an empty
    result; so at its call site the pipeline goes on to [insertMessage]
    with the composed message, whatever storage holds, instead of
    skipping. *)
Theorem guard_fault_reads_as_not_posted (P : Ports) (w : world) :
  faults P SelectPosted (queries w) = true ->
  (forall text,
      fst (hasBeenPosted P text w) = Ok false
      /\ RunFacts.same_store w (snd (hasBeenPosted P text w))
      /\ hd_error (log (snd (hasBeenPosted P text w)))
         = Some (QueryError SelectPosted))
  /\ (forall text w2,
         faults P SelectPosted (queries w2) = false ->
         postedRows (USER_ID P) text (db w2) = [] ->
         fst (hasBeenPosted P text w2) = fst (hasBeenPosted P text w))
  /\ (forall nextPost categoryId threadId data,
         guardAndWrite P nextPost categoryId threadId data w
         = (Ok Return,
            add_log (PostedAt categoryId threadId)
              (snd (insertMessage P data
                      (snd (hasBeenPosted P (message data) w)))))).
Proof.
  intros F. split; [|split].
  - intros text. rewrite RunFacts.hasBeenPosted_eq, F. cbn.
    split; [reflexivity|]. split; [|reflexivity].
    apply RunFacts.same_store_query. exact SelectPosted.
  - intros text w2 F2 E.
    rewrite !RunFacts.hasBeenPosted_eq, F, F2, E. reflexivity.
  - intros nextPost categoryId threadId data.
    rewrite RunFacts.guardAndWrite_eq, RunFacts.hasBeenPosted_eq, F.
    reflexivity.
Qed.

(** The theorem on the store that already holds the article's post, the
    guard's query faulting: the guard says no and the call site inserts. *)
Lemma guard_fault_reads_as_not_posted_witness :
  fst (hasBeenPosted (Demo.ports Demo.guardFaults) Demo.composed
                     Demo.alreadyPosted) = Ok false
  /\ fst (guardAndWrite (Demo.ports Demo.guardFaults) Demo.article
                        (lit "5") (lit "10") Demo.articleData
                        Demo.alreadyPosted) = Ok Return
  /\ length (jos_kunena_messages
               (db (snd (guardAndWrite (Demo.ports Demo.guardFaults)
                           Demo.article (lit "5") (lit "10")
                           Demo.articleData Demo.alreadyPosted)))) = 2.
Proof.
  destruct (guard_fault_reads_as_not_posted
              (Demo.ports Demo.guardFaults) Demo.alreadyPosted eq_refl)
    as (A & _ & C).
  split; [apply (A Demo.composed)|].
  rewrite (C Demo.article (lit "5") (lit "10") Demo.articleData).
  split; [reflexivity|]. vm_compute. reflexivity.
Defined.



(** ** A whole run *)

(** On the article with an update the run unrolls the block, takes the
    segment from the marker on, drops the forum-topic paragraph and what
    follows it, and posts once, in the invocation at depth 0, with the
    extracted title. *)
Lemma run_on_update_article :
  fst (processPost Demo.updatePorts 0 Demo.withUpdate) = Ok (Returned 0)
  /\ map x_message
       (jos_kunena_messages_text
          (db (snd (processPost Demo.updatePorts 0 Demo.withUpdate))))
     = [lit "[center][b] Foo Bar[/b][/center]" ++ [10%N; 10%N]
          ++ lit "[img]https://gameworld.gr/media/reviews/photos/2024/patch.jpg[/img]"
          ++ [10%N; 10%N] ++ lit "<p>new text</p>" ++ [10%N; 10%N]
          ++ lit "<p>more</p>"]
  /\ writes (snd (processPost Demo.updatePorts 0 Demo.withUpdate)) = [1000%Z].
Proof. vm_compute. repeat split; reflexivity. Qed.

(* ================================================================== *)
(** * Further properties of the code *)

(** ** The next content item *)

Module LookupFacts.

Lemma earliest_least (rows : list content) (r : content) :
  earliest rows = Some r ->
  forall x, In x rows -> (c_created r <= c_created x)%Z.
Proof.
  revert r; induction rows as [|y rows IH]; intros r; simpl; [discriminate|].
  destruct (earliest rows) as [m|] eqn:E.
  - destruct (Z.ltb_spec (c_created m) (c_created y)) as [Hlt|Hge];
      intros H x [<-|Hx]; inversion H; subst; try lia.
    + apply IH; auto.
    + specialize (IH m eq_refl x Hx). lia.
  - intros H x [<-|Hx]; inversion H; subst; [lia|].
    destruct rows; [contradiction|simpl in E].
    destruct (earliest rows); [destruct (_ <? _)%Z|]; discriminate.
Qed.

Lemma earliest_nil (rows : list content) :
  earliest rows = None -> rows = [].
Proof.
  destruct rows as [|y rows]; [reflexivity|]. simpl.
  destruct (earliest rows); [destruct (_ <? _)%Z|]; discriminate.
Qed.

End LookupFacts.

(** X1 — [getNextPost]: when the store answers, the item returned is a row of
    the content table created after the watermark whose body passes the
    filter, and no such row was created earlier; nothing is returned
    exactly when there is no such row.  When the store faults, nothing is
    returned. *)
Theorem getNextPost_earliest_after_watermark (P : Ports) (created : Z) (w : world) :
  (faults P SelectNextPost (queries w) = false ->
   match fst (getNextPost P created w) with
   | Ok (Some r) =>
       In r (jos_content (db w))
       /\ (created < c_created r)%Z
       /\ likeForumTopic P (c_fulltext r) = true
       /\ forall x, In x (jos_content (db w)) ->
                    (created < c_created x)%Z ->
                    likeForumTopic P (c_fulltext x) = true ->
                    (c_created r <= c_created x)%Z
   | Ok None =>
       forall x, In x (jos_content (db w)) ->
                 (created < c_created x)%Z ->
                 likeForumTopic P (c_fulltext x) = false
   | Throw _ => False
   end)
  /\ (faults P SelectNextPost (queries w) = true ->
      fst (getNextPost P created w) = Ok None).
Proof.
  unfold getNextPost, bind. rewrite RunFacts.query_select. split; intros F; rewrite F.
  - cbn. unfold selectNextPost.
    destruct (earliest _) as [r|] eqn:E; cbn.
    + pose proof (RunFacts.earliest_in _ E) as Hin.
      apply filter_In in Hin. destruct Hin as [Hin Hq].
      apply andb_true_iff in Hq. destruct Hq as [Hc Hl].
      apply Z.ltb_lt in Hc. repeat split; auto.
      intros x Hx Hxc Hxl. apply (LookupFacts.earliest_least _ E).
      apply filter_In. split; [exact Hx|].
      apply andb_true_iff. split; [apply Z.ltb_lt; exact Hxc|exact Hxl].
    + apply LookupFacts.earliest_nil in E.
      intros x Hx Hxc. destruct (likeForumTopic P (c_fulltext x)) eqn:Hl;
        [|reflexivity].
      assert (Hf : In x (filter (fun r => (created <? c_created r)%Z
                                          && likeForumTopic P (c_fulltext r))
                                (jos_content (db w)))).
      { apply filter_In. split; [exact Hx|].
        apply andb_true_iff. split; [apply Z.ltb_lt; exact Hxc|exact Hl]. }
      rewrite E in Hf. contradiction.
  - reflexivity.
Qed.

(** The theorem on the demo store: the article created at 1000 is the
    next item after watermark 0, and after 1000 there is none. *)
Lemma getNextPost_earliest_after_watermark_witness :
  fst (getNextPost (Demo.ports Demo.noFaults) 0 Demo.fresh)
  = Ok (Some Demo.article)
  /\ (forall x, In x (jos_content (db Demo.fresh)) ->
                (1000 < c_created x)%Z ->
                likeForumTopic (Demo.ports Demo.noFaults) (c_fulltext x) = false).
Proof.
  split; [reflexivity|].
  exact (proj1 (getNextPost_earliest_after_watermark
                  (Demo.ports Demo.noFaults) 1000 Demo.fresh) eq_refl).
Defined.

(** ** More on the segmenter *)

Module UnrollFacts.

(** In every element that is a [div], the child nodes are elements: no
    text stands loose between them. *)
Fixpoint divsHoldElements (n : node) : bool :=
  match n with
  | Element tag _ ks =>
      (if Js.eqb tag (lit "div") then forallb isElement ks else true)
      && forallb divsHoldElements ks
  | _ => true
  end.

(** [x] is [n] or an element below it. *)
Fixpoint within (x n : node) : Prop :=
  x = n
  \/ match n with
     | Element _ _ ks =>
         (fix any (l : list node) : Prop :=
            match l with
            | [] => False
            | k :: l' => within x k \/ any l'
            end) ks
     | _ => False
     end.

Lemma node_induction (Q : node -> Prop) :
  (forall d, Q (Text d)) ->
  (forall d, Q (Comment d)) ->
  (forall t a ks, Forall Q ks -> Q (Element t a ks)) ->
  forall n, Q n.
Proof.
  intros HT HC HE. fix IH 1. intros [d|d|t a ks]; [apply HT|apply HC|].
  apply HE. induction ks as [|k ks IHks]; constructor;
    [apply IH|exact IHks].
Qed.

Lemma test_no_marker (li : nat) (t : jsstring) :
  UpdateRegex.hasMarker t = false -> UpdateRegex.test li t = (false, 0).
Proof.
  intros H. pose proof (@SegmenterFacts.test_true_hasMarker li t) as T.
  unfold UpdateRegex.test in *.
  destruct (length t <? li); [reflexivity|].
  destruct (UpdateRegex.searchFrom (skipn li t) li) as [[b e]|];
    [|reflexivity].
  cbn in T. rewrite H in T. specialize (T eq_refl). discriminate.
Qed.

(** An element without a marker in its text is a leaf of the unrolling,
    whatever [lastIndex] is. *)
Lemma unrollElements_no_marker (e : node) (li : nat) :
  UpdateRegex.hasMarker (text e) = false ->
  Segmenter.unrollElements e li = ([e], 0).
Proof.
  intros H. destruct e as [d|d|t a ks]; cbn [Segmenter.unrollElements];
    rewrite (test_no_marker li _ H); rewrite ?orb_true_r; reflexivity.
Qed.

Lemma unrollAll_no_marker (els : list node) (li : nat) :
  (forall e, In e els -> UpdateRegex.hasMarker (text e) = false) ->
  fst (Segmenter.unrollAll els li) = els.
Proof.
  revert li; induction els as [|e els IH]; intros li H; [reflexivity|].
  cbn [Segmenter.unrollAll].
  rewrite unrollElements_no_marker by (apply H; left; reflexivity).
  specialize (IH 0 (fun x Hx => H x (or_intror Hx))).
  destruct (Segmenter.unrollAll els 0) as [rs li']. cbn in *. subst rs.
  reflexivity.
Qed.

End UnrollFacts.

(** X2 — a body without any update marker: when no element child of the root
    has a marker in its text, nothing is unrolled and nothing is trimmed
    (the update segment is the list of those elements), no title is
    extracted, and the title of the post is the item's own title,
    trimmed.  This holds whatever [lastIndex] the shared pattern was left
    with. *)
Theorem segment_without_marker (elements : list node) (lastIndex : nat)
        (itemTitle : jsstring) :
  (forall e, In e elements -> UpdateRegex.hasMarker (text e) = false) ->
  Segmenter.segment elements lastIndex = (elements, [], 0)
  /\ Segmenter.finalTitle (snd (fst (Segmenter.segment elements lastIndex)))
                          itemTitle
     = trim itemTitle.
Proof.
  intros H.
  assert (E : Segmenter.segment elements lastIndex = (elements, [], 0)).
  { unfold Segmenter.segment.
    pose proof (UnrollFacts.unrollAll_no_marker elements lastIndex H) as U.
    destruct (Segmenter.unrollAll elements lastIndex) as [un li1].
    cbn in U. subst un.
    pose proof (SegmenterFacts.no_marker_whole_list elements li1 H) as W.
    destruct (Segmenter.updateElements elements li1) as [upd li2].
    cbn in W. subst upd.
    unfold Segmenter.extractedTitle, UpdateRegex.firstMatch.
    destruct elements as [|e els]; [reflexivity|]. cbn [hd_error textOpt].
    specialize (H e (or_introl eq_refl)). unfold UpdateRegex.hasMarker in H.
    destruct (UpdateRegex.searchFrom (text e) 0) as [[b n]|];
      [discriminate|reflexivity]. }
  split; [exact E|]. rewrite E. reflexivity.
Qed.

(** The theorem on two paragraphs without a marker, [lastIndex] being
    left at 5 by an earlier call. *)
Lemma segment_without_marker_witness :
  Segmenter.segment [p [Text (lit "intro")]; p [Text (lit "UPDATE soon")]] 5
  = ([p [Text (lit "intro")]; p [Text (lit "UPDATE soon")]], [], 0)
  /\ Segmenter.finalTitle
       (snd (fst (Segmenter.segment
                    [p [Text (lit "intro")]; p [Text (lit "UPDATE soon")]] 5)))
       (lit " Patch 1.2 ")
     = lit "Patch 1.2".
Proof.
  destruct (@segment_without_marker
              [p [Text (lit "intro")]; p [Text (lit "UPDATE soon")]] 5
              (lit " Patch 1.2 ")) as [A B].
  - intros e [<-|[<-|[]]]; reflexivity.
  - split; [exact A|]. rewrite B. reflexivity.
Defined.

(** X3 — unrolling loses no text and moves none: when the child nodes of every
    [div] are elements, the texts of the unrolled fragments, one after the
    other, are the text of the element, whatever [lastIndex] is and
    whichever blocks get unrolled. *)
Theorem unrolling_keeps_text (e : node) :
  UnrollFacts.divsHoldElements e = true ->
  forall lastIndex,
    flat_map text (fst (Segmenter.unrollElements e lastIndex)) = text e.
Proof.
  induction e as [d|d|tag a ks IH] using UnrollFacts.node_induction;
    intros H li.
  - cbn. destruct (UpdateRegex.test li d); cbn. apply app_nil_r.
  - cbn. destruct (UpdateRegex.test li []); reflexivity.
  - cbn [Segmenter.unrollElements].
    destruct (UpdateRegex.test li (text (Element tag a ks))) as [b li1].
    destruct (negb (Js.eqb tag (lit "div")) || negb b) eqn:E.
    + cbn [fst flat_map]. apply app_nil_r.
    + apply orb_false_iff in E. destruct E as [E _].
      apply negb_false_iff in E.
      cbn [UnrollFacts.divsHoldElements] in H. rewrite E in H.
      apply andb_true_iff in H. destruct H as [He Hd].
      cbn [text]. clear E b li. revert li1.
      induction ks as [|k ks IHks]; intros li; [reflexivity|].
      cbn [forallb] in He, Hd.
      apply andb_true_iff in He. destruct He as [Hk He].
      apply andb_true_iff in Hd. destruct Hd as [Hkd Hd].
      inversion IH as [|? ? IHk IHrest]; subst.
      rewrite Hk.
      specialize (IHk Hkd li).
      destruct (Segmenter.unrollElements k li) as [r li'].
      specialize (IHks IHrest He Hd li').
      match goal with
      | |- context [let '(rs, li'') := ?f ks li' in _] =>
          destruct (f ks li') as [rs li'']
      end.
      cbn [fst flat_map] in *. rewrite flat_map_app, IHk, IHks. reflexivity.
Qed.

(** The theorem on a block that holds an update and a further paragraph. *)
Lemma unrolling_keeps_text_witness :
  flat_map text
    (fst (Segmenter.unrollElements
            (div [p [Text (lit "[UPDATE] new")]; p [Text (lit "more")]]) 0))
  = lit "[UPDATE] newmore"
  /\ length (fst (Segmenter.unrollElements
                    (div [p [Text (lit "[UPDATE] new")]; p [Text (lit "more")]])
                    0)) = 2.
Proof.
  split; [|reflexivity].
  rewrite (@unrolling_keeps_text
             (div [p [Text (lit "[UPDATE] new")]; p [Text (lit "more")]])
             eq_refl 0).
  reflexivity.
Defined.

(** X4 — the extracted title never holds a delimiter of the backward scan
    (hyphen, colon, opening bracket, em dash, en dash) nor a closing
    bracket, whatever the text of the first fragment is. *)
Theorem extracted_title_has_no_delimiter (firstFragmentText : jsstring) (c : jschar) :
  In c (Segmenter.extractedTitle firstFragmentText) ->
  Segmenter.isDelimiter c = false /\ c <> chr "]".
Proof.
  unfold Segmenter.extractedTitle, Segmenter.strippedTitle. intros H.
  apply in_rev in H.
  assert (G : forall s acc,
             (forall x, In x acc ->
                        Segmenter.isDelimiter x = false /\ x <> chr "]") ->
             forall x, In x (Segmenter.scanTitle s acc) ->
                       Segmenter.isDelimiter x = false /\ x <> chr "]").
  { induction s as [|y s IHs]; intros acc Hacc x;
      cbn [Segmenter.scanTitle]; [apply Hacc|].
    destruct (Segmenter.isDelimiter y) eqn:Ed; [apply Hacc|].
    destruct (N.eqb_spec y (chr "]")) as [Eb|Eb]; [exact (IHs acc Hacc x)|].
    apply (IHs (acc ++ [y])). intros z Hz. apply in_app_or in Hz.
    destruct Hz as [Hz|[<-|[]]]; [apply Hacc; exact Hz|auto]. }
  destruct (UpdateRegex.firstMatch firstFragmentText) as [[|y t]|];
    try contradiction.
  apply (G (rev (y :: t)) []); [intros x []|exact H].
Qed.

(** The theorem on a marker whose title has a hyphen: what is extracted
    is what follows the hyphen, and it holds none. *)
Lemma extracted_title_has_no_delimiter_witness :
  Segmenter.extractedTitle (lit "[UPDATE: Spider-Man]") = lit "Man"
  /\ Segmenter.isDelimiter (chr "M") = false /\ chr "M" <> chr "]".
Proof.
  split; [reflexivity|].
  apply (@extracted_title_has_no_delimiter (lit "[UPDATE: Spider-Man]")).
  left. reflexivity.
Defined.

(** ** What a committed write leaves in the other tables *)

Module CommitFacts.









End CommitFacts.



(** ** The title of a marker at the head of the first fragment *)

Module TitleFacts.

(** Neither a closing bracket nor a line terminator: what the lazy run
    of the capture passes over. *)
Definition plain (c : jschar) : bool :=
  negb (c =? chr "]")%N && negb (isLineTerminator c).

Lemma dotsThenClose_run (t tail : jsstring) :
  forallb plain t = true ->
  UpdateRegex.dotsThenClose (t ++ chr "]" :: tail) = Some (S (length t)).
Proof.
  induction t as [|c t IH]; intros H; [reflexivity|].
  cbn [forallb] in H. apply andb_true_iff in H. destruct H as [Hc Ht].
  unfold plain in Hc. apply andb_true_iff in Hc. destruct Hc as [Hb Hl].
  apply negb_true_iff in Hb, Hl.
  cbn [app UpdateRegex.dotsThenClose length]. rewrite Hb, Hl, (IH Ht).
  reflexivity.
Qed.

Lemma dotPlusThenClose_run (c : jschar) (t tail : jsstring) :
  forallb plain (c :: t) = true ->
  UpdateRegex.dotPlusThenClose ((c :: t) ++ chr "]" :: tail)
  = Some (S (length (c :: t))).
Proof.
  intros H. cbn [forallb] in H. apply andb_true_iff in H.
  destruct H as [Hc Ht].
  unfold plain in Hc. apply andb_true_iff in Hc. destruct Hc as [_ Hl].
  apply negb_true_iff in Hl.
  cbn [app UpdateRegex.dotPlusThenClose length].
  rewrite Hl, (@dotsThenClose_run t tail Ht). reflexivity.
Qed.

(** With a code unit that is not white space in it, the capture group
    takes the whole of [t]: the white space the greedy run took first is
    never given back. *)
Lemma titleGroup_run (t tail : jsstring) :
  forallb plain t = true ->
  existsb (fun c => negb (isWhiteSpace c)) t = true ->
  UpdateRegex.titleGroup (t ++ chr "]" :: tail) = Some (S (length t)).
Proof.
  induction t as [|c t IH]; intros Hp Hn; [discriminate Hn|].
  cbn [app UpdateRegex.titleGroup].
  destruct (isWhiteSpace c) eqn:Ew.
  - cbn [existsb] in Hn. rewrite Ew in Hn. cbn in Hn.
    cbn [forallb] in Hp. apply andb_true_iff in Hp. destruct Hp as [_ Hp].
    rewrite (IH Hp Hn). reflexivity.
  - exact (@dotPlusThenClose_run c t tail Hp).
Qed.

Lemma stripPrefixCI_folded (word p r : jsstring) :
  map upcase word = map upcase p -> stripPrefixCI p (word ++ r) = Some r.
Proof.
  revert word. induction p as [|x p IH]; intros [|y word] H;
    try discriminate H; [reflexivity|].
  cbn in H. injection H as Hx Hw.
  cbn [app stripPrefixCI]. rewrite Hx, N.eqb_refl. apply IH. exact Hw.
Qed.

Lemma dropWhile_all (q : jschar -> bool) (a b : jsstring) :
  forallb q a = true -> dropWhile q (a ++ b) = dropWhile q b.
Proof.
  induction a as [|c a IH]; intros H; [reflexivity|].
  cbn [forallb] in H. apply andb_true_iff in H. destruct H as [Hc Ha].
  cbn [app dropWhile]. rewrite Hc. apply IH. exact Ha.
Qed.

Lemma digit_not_space (c : jschar) : isDigit c = true -> isWhiteSpace c = false.
Proof.
  unfold isDigit, isWhiteSpace. intros H.
  apply andb_true_iff in H. destruct H as [H1 H2].
  apply N.leb_le in H1, H2.
  repeat match goal with
         | |- context [(?a =? ?b)%N] => destruct (N.eqb_spec a b); [lia|]
         | |- context [(?a <=? ?b)%N] => destruct (N.leb_spec a b); try lia
         end; reflexivity.
Qed.

(** The optional white space and digits after the word. *)
Lemma number_dropped (ws ds r : jsstring) :
  forallb isWhiteSpace ws = true -> forallb isDigit ds = true ->
  dropWhile isDigit (dropWhile isWhiteSpace (ws ++ ds ++ chr ":" :: r))
  = chr ":" :: r.
Proof.
  intros Hw Hd. rewrite (@dropWhile_all isWhiteSpace ws _ Hw).
  assert (E : dropWhile isWhiteSpace (ds ++ chr ":" :: r) = ds ++ chr ":" :: r).
  { destruct ds as [|d ds]; [reflexivity|].
    cbn [forallb] in Hd. apply andb_true_iff in Hd. destruct Hd as [Hd _].
    cbn [app dropWhile]. rewrite (@digit_not_space d Hd). reflexivity. }
  rewrite E, (@dropWhile_all isDigit ds _ Hd). reflexivity.
Qed.

(** The marker, from the opening bracket to the closing one. *)
Definition marker (word ws ds title : jsstring) : jsstring :=
  chr "[" :: word ++ ws ++ ds ++ chr ":" :: title ++ [chr "]"].

Lemma matchAt_marker (word ws ds title tail : jsstring) :
  map upcase word = lit "UPDATE" ->
  forallb isWhiteSpace ws = true -> forallb isDigit ds = true ->
  forallb plain title = true ->
  existsb (fun c => negb (isWhiteSpace c)) title = true ->
  UpdateRegex.matchAt (marker word ws ds title ++ tail)
  = Some (length (marker word ws ds title)).
Proof.
  intros Hword Hw Hd Hp Hn. unfold marker.
  assert (E : (chr "[" :: word ++ ws ++ ds ++ chr ":" :: title ++ [chr "]"])
                ++ tail
              = chr "[" :: word
                  ++ (ws ++ ds ++ chr ":" :: (title ++ chr "]" :: tail))).
  { cbn [app]. f_equal.
    rewrite <- !app_assoc. cbn [app]. rewrite <- !app_assoc. reflexivity. }
  rewrite E. unfold UpdateRegex.matchAt.
  replace (negb (chr "[" =? chr "[")%N) with false by reflexivity.
  rewrite (@stripPrefixCI_folded word (lit "UPDATE") _ Hword).
  rewrite (@number_dropped ws ds _ Hw Hd).
  replace (chr ":" =? chr "]")%N with false by reflexivity.
  replace (chr ":" =? chr ":")%N with true by reflexivity.
  rewrite (@titleGroup_run title tail Hp Hn). cbn [option_map].
  f_equal.
  assert (L : length word = 6).
  { rewrite <- (length_map upcase), Hword. reflexivity. }
  cbn [length]. rewrite !length_app. cbn [length]. rewrite !length_app.
  cbn [length]. lia.
Qed.

(** The backward scan passes over code units that are neither a
    delimiter nor a closing bracket, and keeps them. *)
Lemma scanTitle_run (a rest acc : jsstring) :
  forallb (fun c => negb (Segmenter.isDelimiter c)) a = true ->
  forallb plain a = true ->
  Segmenter.scanTitle (a ++ rest) acc = Segmenter.scanTitle rest (acc ++ a).
Proof.
  revert acc. induction a as [|c a IH]; intros acc Hd Hp.
  - rewrite app_nil_r. reflexivity.
  - cbn [forallb] in Hd, Hp.
    apply andb_true_iff in Hd. destruct Hd as [Hc Hd].
    apply andb_true_iff in Hp. destruct Hp as [Hb Hp].
    apply negb_true_iff in Hc. unfold plain in Hb.
    apply andb_true_iff in Hb. destruct Hb as [Hb _].
    apply negb_true_iff in Hb.
    cbn [app Segmenter.scanTitle]. rewrite Hc, Hb, (IH _ Hd Hp).
    rewrite <- app_assoc. reflexivity.
Qed.

Lemma forallb_rev {A : Type} (q : A -> bool) (l : list A) :
  forallb q (rev l) = forallb q l.
Proof.
  induction l as [|x l IH]; [reflexivity|].
  cbn [rev forallb]. rewrite forallb_app, IH. cbn. rewrite andb_true_r.
  apply andb_comm.
Qed.

End TitleFacts.

(** X6 — for a marker with a colon at the head of the first fragment (the
    word in any case, then optional white space and digits, the colon,
    a title with a code unit that is not white space and with no closing
    bracket or line terminator in it, the closing bracket), the
    extracted title is what follows the last delimiter of the marker:
    all of the title after the colon, leading white space included, when
    the title holds no delimiter, and otherwise only what follows the
    last hyphen, colon, opening bracket or dash in it. *)
Theorem extracted_title_follows_last_delimiter
        (word ws ds before after tail : jsstring) :
  map upcase word = lit "UPDATE" ->
  forallb isWhiteSpace ws = true -> forallb isDigit ds = true ->
  forallb TitleFacts.plain (before ++ after) = true ->
  existsb (fun c => negb (isWhiteSpace c)) (before ++ after) = true ->
  Segmenter.isDelimiter (last before (chr ":")) = true ->
  forallb (fun c => negb (Segmenter.isDelimiter c)) after = true ->
  Segmenter.extractedTitle
    (TitleFacts.marker word ws ds (before ++ after) ++ tail) = after.
Proof.
  intros Hword Hw Hd Hp Hn Hlast Hafter.
  pose proof (@TitleFacts.matchAt_marker word ws ds (before ++ after) tail
                Hword Hw Hd Hp Hn) as M.
  unfold Segmenter.extractedTitle, UpdateRegex.firstMatch.
  assert (S0 : UpdateRegex.searchFrom
                 (TitleFacts.marker word ws ds (before ++ after) ++ tail) 0
               = Some (0, length (TitleFacts.marker word ws ds (before ++ after)))).
  { unfold TitleFacts.marker in *. cbn [app] in *.
    cbn [UpdateRegex.searchFrom]. rewrite M. reflexivity. }
  rewrite S0. rewrite Nat.sub_0_r. cbn [skipn].
  rewrite firstn_app, Nat.sub_diag, firstn_all. cbn [firstn].
  rewrite app_nil_r.
  unfold Segmenter.strippedTitle, TitleFacts.marker.
  assert (R : rev (chr "[" :: word ++ ws ++ ds ++ chr ":"
                     :: (before ++ after) ++ [chr "]"])
              = chr "]" :: rev after
                  ++ (rev before ++ [chr ":"]) ++ rev (chr "[" :: word ++ ws ++ ds)).
  { cbn [rev]. repeat (rewrite !rev_app_distr || cbn [rev app]).
    repeat (rewrite <- !app_assoc || cbn [app]). reflexivity. }
  rewrite R. cbn [Segmenter.scanTitle].
  replace (Segmenter.isDelimiter (chr "]")) with false by reflexivity.
  replace (chr "]" =? chr "]")%N with true by reflexivity.
  rewrite forallb_app in Hp. apply andb_true_iff in Hp. destruct Hp as [_ Hpa].
  rewrite TitleFacts.scanTitle_run;
    [|rewrite TitleFacts.forallb_rev; exact Hafter
     |rewrite TitleFacts.forallb_rev; exact Hpa].
  cbn [app].
  assert (H : exists d rest, rev before ++ [chr ":"] = d :: rest
                             /\ Segmenter.isDelimiter d = true).
  { destruct before as [|b before] using rev_ind.
    - exists (chr ":"), []. split; reflexivity.
    - rewrite last_last in Hlast. rewrite rev_app_distr. cbn [rev app].
      eexists _, _. split; [reflexivity|exact Hlast]. }
  destruct H as (d & rest & E & Hdl). rewrite E. cbn [app Segmenter.scanTitle].
  rewrite Hdl. apply rev_involutive.
Qed.

(** The theorem on a marker numbered 2 whose title has a hyphen. *)
Lemma extracted_title_follows_last_delimiter_witness :
  Segmenter.extractedTitle (lit "[Update 2: Spider-Man 2] out now")
  = lit "Man 2".
Proof.
  apply (@extracted_title_follows_last_delimiter
           (lit "Update") (lit " ") (lit "2") (lit " Spider-") (lit "Man 2")
           (lit " out now"));
    reflexivity.
Defined.

(** ** The preview of the activity *)

Module PreviewFacts.

(** No bracketed tag starts anywhere in [s]. *)
Definition tagFree (s : jsstring) : Prop :=
  forall i, Composer.tagAt (skipn i s) = None.

(** A closing bracket comes before any line terminator and before the
    end. *)
Definition closes (s : jsstring) : bool :=
  match UpdateRegex.dotsThenClose s with Some _ => true | None => false end.

Lemma closes_cons (c : jschar) (s : jsstring) :
  closes (c :: s)
  = if (c =? chr "]")%N then true
    else if isLineTerminator c then false else closes s.
Proof.
  unfold closes. cbn [UpdateRegex.dotsThenClose].
  destruct (c =? chr "]")%N; [reflexivity|].
  destruct (isLineTerminator c); [reflexivity|].
  destruct (UpdateRegex.dotsThenClose s); reflexivity.
Qed.

Lemma tagAt_cons (c : jschar) (s : jsstring) :
  Composer.tagAt (c :: s) = None
  <-> (c =? chr "[")%N = false \/ closes s = false.
Proof.
  unfold Composer.tagAt, closes.
  destruct (c =? chr "[")%N; destruct (UpdateRegex.dotsThenClose s); cbn;
    split; intros H; try reflexivity; try discriminate H;
    try (destruct H as [H|H]; discriminate H); auto.
Qed.

(** What is left after the removal closes only if what was there did. *)
Lemma removeAll_closes (s : jsstring) :
  forall skip,
    closes (Composer.removeAll Composer.tagAt s skip) = true ->
    closes (skipn skip s) = true.
Proof.
  induction s as [|c s IH]; intros [|k] H; cbn [Composer.removeAll] in H;
    try discriminate H.
  - cbn [skipn].
    destruct (Composer.tagAt (c :: s)) as [n|] eqn:T.
    + destruct (closes (c :: s)) eqn:C; [reflexivity|].
      assert (T' : Composer.tagAt (c :: s) = None).
      { apply tagAt_cons. rewrite closes_cons in C.
        destruct (c =? chr "[")%N eqn:E; [|left; reflexivity].
        right. apply N.eqb_eq in E. subst c.
        exact C. }
      rewrite T' in T. discriminate T.
    + rewrite closes_cons in *.
      destruct (c =? chr "]")%N; [reflexivity|].
      destruct (isLineTerminator c); [discriminate H|].
      exact (IH 0 H).
  - cbn [skipn]. exact (IH k H).
Qed.

Lemma removeAll_tagFree (s : jsstring) :
  forall skip, tagFree (Composer.removeAll Composer.tagAt s skip).
Proof.
  induction s as [|c s IH]; intros [|k]; cbn [Composer.removeAll].
  - intros [|i]; reflexivity.
  - intros [|i]; reflexivity.
  - destruct (Composer.tagAt (c :: s)) as [n|] eqn:T; [apply IH|].
    intros [|i]; [|exact (IH 0 i)].
    cbn [skipn]. apply tagAt_cons. apply tagAt_cons in T.
    destruct T as [T|T]; [left; exact T|right].
    destruct (closes (Composer.removeAll Composer.tagAt s 0)) eqn:C;
      [|reflexivity].
    apply removeAll_closes in C. cbn [skipn] in C. congruence.
  - apply IH.
Qed.

Lemma tagFree_skipn (m : nat) (s : jsstring) :
  tagFree s -> tagFree (skipn m s).
Proof. intros H i. rewrite skipn_skipn. apply H. Qed.

Lemma closes_firstn (m : nat) (s : jsstring) :
  closes (firstn m s) = true -> closes s = true.
Proof.
  revert m. induction s as [|c s IH]; intros [|m] H; try discriminate H.
  cbn [firstn] in H. rewrite closes_cons in *.
  destruct (c =? chr "]")%N; [reflexivity|].
  destruct (isLineTerminator c); [discriminate H|].
  exact (IH m H).
Qed.

Lemma tagFree_firstn (m : nat) (s : jsstring) :
  tagFree s -> tagFree (firstn m s).
Proof.
  intros H i. rewrite skipn_firstn_comm.
  specialize (H i). destruct (skipn i s) as [|c r]; [destruct (m - i); reflexivity|].
  destruct (m - i) as [|k]; [reflexivity|].
  cbn [firstn]. apply tagAt_cons. apply tagAt_cons in H.
  destruct H as [H|H]; [left; exact H|right].
  destruct (closes (firstn k r)) eqn:C; [|reflexivity].
  apply closes_firstn in C. congruence.
Qed.

Lemma dropWhile_skipn (q : jschar -> bool) (s : jsstring) :
  exists m, dropWhile q s = skipn m s.
Proof.
  induction s as [|c s [m IH]]; [exists 0; reflexivity|].
  cbn [dropWhile]. destruct (q c); [exists (S m); exact IH|exists 0; reflexivity].
Qed.

Lemma tagFree_trim (s : jsstring) : tagFree s -> tagFree (trim s).
Proof.
  intros H. unfold trim.
  destruct (dropWhile_skipn isWhiteSpace s) as [m Em]. rewrite Em.
  destruct (dropWhile_skipn isWhiteSpace (rev (skipn m s))) as [j Ej].
  rewrite Ej, skipn_rev, rev_involutive.
  apply tagFree_firstn, tagFree_skipn, H.
Qed.

End PreviewFacts.

(** X7 — the preview that goes into the activity holds at most 300 code
    units and no bracketed tag: nowhere in it does an opening bracket
    have a closing bracket after it on its line, whatever the message
    is. *)
Theorem preview_is_short_and_tag_free (data : postData) :
  length (previewText data) <= 300
  /\ forall i, Composer.tagAt (skipn i (previewText data)) = None.
Proof.
  unfold previewText. split; [apply firstn_le_length|].
  apply PreviewFacts.tagFree_firstn, PreviewFacts.tagFree_trim,
    PreviewFacts.removeAll_tagFree.
Qed.

(** ** What a run posts, and where *)

Module PostFacts.

Import RunFacts.

(** The address [getImage] builds for a media row. *)
Definition pictureUrl (md : media) : jsstring :=
  lit "https://gameworld.gr/media/reviews/photos/"
    ++ i_rel_path md ++ i_filename md ++ lit "." ++ i_file_extension md.

Section WithPorts.

Variable P : Ports.

Lemma getNextPost_filtered (created : Z) (w : world) :
  same_store w (snd (getNextPost P created w))
  /\ (fst (getNextPost P created w) = Ok None
      \/ exists item,
          fst (getNextPost P created w) = Ok (Some item)
          /\ In item (jos_content (db w))
          /\ (created < c_created item)%Z
          /\ likeForumTopic P (c_fulltext item) = true).
Proof.
  unfold getNextPost, bind. rewrite query_select.
  destruct (faults P SelectNextPost (queries w)); cbn.
  - split; [apply same_store_query; exact SelectNextPost|left; reflexivity].
  - unfold selectNextPost.
    destruct (earliest _) as [r|] eqn:E; cbn.
    + split; [apply same_store_query; exact SelectNextPost|right].
      exists r. split; [reflexivity|].
      apply earliest_in in E. apply filter_In in E. destruct E as [Hin Hc].
      apply andb_true_iff in Hc. destruct Hc as [Hc Hl].
      apply Z.ltb_lt in Hc. auto.
    + split; [apply same_store_query; exact SelectNextPost|left; reflexivity].
Qed.

Lemma getSubjectAndParent_first (cat thr : jsstring) (w : world) :
  same_store w (snd (getSubjectAndParent P cat thr w))
  /\ (fst (getSubjectAndParent P cat thr w) = Ok None
      \/ exists tp,
          fst (getSubjectAndParent P cat thr w)
          = Ok (Some (t_subject tp, t_first_post_id tp))
          /\ hd_error (selectSubjectAndParent cat thr (db w)) = Some tp).
Proof.
  unfold getSubjectAndParent, bind. rewrite query_select.
  destruct (faults P SelectSubjectAndParent (queries w)).
  - split; [apply same_store_query; exact SelectNextPost|left; reflexivity].
  - destruct (selectSubjectAndParent cat thr (db w)) as [|r l]; cbn;
      (split; [apply same_store_query; exact SelectNextPost|]);
      [left; reflexivity|right; exists r; split; reflexivity].
Qed.

Lemma getImage_first (listingId : Z) (w : world) :
  same_store w (snd (getImage P listingId w))
  /\ (fst (getImage P listingId w) = Ok None
      \/ exists md,
          fst (getImage P listingId w) = Ok (Some (pictureUrl md))
          /\ hd_error (selectImage listingId (db w)) = Some md).
Proof.
  unfold getImage, bind. rewrite query_select.
  destruct (faults P SelectImage (queries w)).
  - split; [apply same_store_query; exact SelectNextPost|left; reflexivity].
  - destruct (selectImage listingId (db w)) as [|r l]; cbn;
      (split; [apply same_store_query; exact SelectNextPost|]);
      [left; reflexivity|right; exists r; split; reflexivity].
Qed.

End WithPorts.

End PostFacts.

(** ** A run with nothing to post *)

Module IdleFacts.

Lemma filter_none {A : Type} (f : A -> bool) (l : list A) :
  (forall x, In x l -> f x = false) -> filter f l = [].
Proof.
  intros H. induction l as [|x l IH]; [reflexivity|].
  cbn [filter]. rewrite (H x (or_introl eq_refl)). apply IH.
  intros y Hy. apply H. right. exact Hy.
Qed.

End IdleFacts.

(** X9 — when the lookup finds nothing (no article later than the watermark
    passes its filter, or the store faults on it), the run ends in its
    first invocation: it has issued that one query, logged that there is
    no next post, and left the rows, the counters, the watermark file
    and the regex's [lastIndex] as they were. *)
Theorem idle_run_asks_once (P : Ports) (read : Z) (w : world) :
  last_created_txt w = Some read ->
  faults P SelectNextPost (queries w) = true
  \/ (forall x, In x (jos_content (db w)) -> (read < c_created x)%Z ->
                likeForumTopic P (c_fulltext x) = false) ->
  fst (processPost P read w) = Ok (Returned 0)
  /\ fst (main P w) = Ok tt
  /\ RunFacts.same_store w (snd (main P w))
  /\ queries (snd (main P w)) = S (queries w)
  /\ lastIndex (snd (main P w)) = lastIndex w
  /\ hd_error (log (snd (main P w))) = Some NoNextPost.
Proof.
  intros L H.
  assert (E : getNextPost P read (add_log (RecursionDepth 0) w)
              = (Ok None,
                 add_log (if faults P SelectNextPost (queries w)
                          then QueryError SelectNextPost
                          else QuerySuccessful SelectNextPost)
                         (with_queries (S (queries w))
                            (add_log (RecursionDepth 0) w)))).
  { unfold getNextPost, bind. rewrite RunFacts.query_select.
    cbn [queries add_log db].
    destruct (faults P SelectNextPost (queries w)) eqn:F; [reflexivity|].
    destruct H as [H|H]; [discriminate H|].
    unfold selectNextPost. rewrite IdleFacts.filter_none; [reflexivity|].
    intros x Hx. destruct (read <? c_created x)%Z eqn:C; [|reflexivity].
    apply Z.ltb_lt in C. rewrite (H x Hx C). reflexivity. }
  assert (R : processPost P read w
              = (Ok (Returned 0),
                 add_log NoNextPost
                   (add_log (if faults P SelectNextPost (queries w)
                             then QueryError SelectNextPost
                             else QuerySuccessful SelectNextPost)
                            (with_queries (S (queries w))
                               (add_log (RecursionDepth 0) w))))).
  { unfold processPost.
    change (MAX_RECURSION + 2) with (S (MAX_RECURSION + 1)).
    rewrite OrchestratorFacts.processPostFrom_eq.
    change (MAX_RECURSION <? 0) with false. cbv iota.
    change (OrchestratorFacts.logDepth 0 w)
      with (add_log (RecursionDepth 0) w).
    unfold examine. unfold bind at 1. rewrite E. reflexivity. }
  rewrite WatermarkFacts.main_eq, L, R.
  unfold RunFacts.same_store. cbn. repeat split; reflexivity.
Qed.

(** The theorem on a store whose only article is older than the
    watermark. *)
Lemma idle_run_asks_once_witness :
  queries (snd (main (Demo.ports Demo.noFaults)
                     (write_last_created 2000 Demo.fresh))) = 1
  /\ hd_error (log (snd (main (Demo.ports Demo.noFaults)
                              (write_last_created 2000 Demo.fresh))))
     = Some NoNextPost.
Proof.
  assert (H : forall x,
             In x (jos_content (db (write_last_created 2000 Demo.fresh))) ->
             (2000 < c_created x)%Z ->
             likeForumTopic (Demo.ports Demo.noFaults) (c_fulltext x) = false).
  { intros x [<-|[]] C. cbn in C. lia. }
  destruct (@idle_run_asks_once (Demo.ports Demo.noFaults) 2000
              (write_last_created 2000 Demo.fresh) eq_refl (or_intror H))
    as (_ & _ & _ & Q & _ & G).
  split; [exact Q|exact G].
Defined.

(* ================================================================== *)
(** * The superseded title-driven job

    The other document of [src/index.ts] finds where to go on from the
    posts themselves: [getLastPostedTitle] reads the title back out of
    the poster's latest messages, and its [processPost] resolves the
    thread with [match] and no [g] flag. *)

Module Legacy.

Definition startsWith (p s : jsstring) : bool :=
  match stripPrefix p s with Some _ => true | None => false end.

(** A greedy run of [.] and then [close], at the head of [s]: the run.
    The greedy quantifier takes a code unit when it can, and gives it
    back when the rest then fails. *)
Fixpoint greedyThen (close : jsstring) (s : jsstring) : option jsstring :=
  let here := if startsWith close s then Some [] else None in
  match s with
  | [] => here
  | c :: s' =>
      if isLineTerminator c then here
      else match greedyThen close s' with
           | Some capture => Some (c :: capture)
           | None => here
           end
  end.

(** The title pattern anchored at the head of [s]: the bold tag, a
    greedy run of [.] (the capture), the closing bold tag. *)
Definition boldAt (s : jsstring) : option jsstring :=
  match stripPrefix (lit "[b]") s with
  | Some r => greedyThen (lit "[/b]") r
  | None => None
  end.

(** [message.match(pattern)?.[1]]: the capture of the leftmost match. *)
Fixpoint boldCapture (s : jsstring) : option jsstring :=
  match boldAt s with
  | Some capture => Some capture
  | None => match s with
            | [] => None
            | _ :: s' => boldCapture s'
            end
  end.

(** [extractedCommentTitle] of [getLastPostedTitle]; [None] is the
    [undefined] of the source. *)
Definition extractedCommentTitle (message : jsstring) : option jsstring :=
  option_map trim (boldCapture message).

(** The rows the first query of [getLastPostedTitle] keeps hold this
    text. *)
Definition centeredBold : jsstring := lit "[center][b]".

End Legacy.

Module LegacyFacts.

Lemma greedyThen_title (title rest : jsstring) :
  forallb (fun c => negb (isLineTerminator c)) title = true ->
  Legacy.greedyThen (lit "[/b]")
    (title ++ lit "[/b][/center]" ++ Composer.nl ++ rest)
  = Some title.
Proof.
  induction title as [|c t IH]; intros H; [reflexivity|].
  cbn [forallb] in H. apply andb_true_iff in H. destruct H as [Hc Ht].
  apply negb_true_iff in Hc.
  cbn [app Legacy.greedyThen]. rewrite Hc, (IH Ht). reflexivity.
Qed.

(** The first bold tag of a composed post is the one after the
    centring tag. *)
Lemma boldCapture_centered (r capture : jsstring) :
  Legacy.greedyThen (lit "[/b]") r = Some capture ->
  Legacy.boldCapture (lit "[center][b]" ++ r) = Some capture.
Proof.
  intros H. cbn -[Legacy.greedyThen]. unfold Legacy.boldAt. cbn -[Legacy.greedyThen].
  cbn -[Legacy.greedyThen] in H. rewrite H. reflexivity.
Qed.

(** The first position of [s] at which the thread pattern matches. *)
Lemma first_occurrence_exists (s : jsstring) (p : nat) :
  UrlRegex.matchAt (skipn p s) <> None ->
  exists p0, UrlRegex.matchAt (skipn p0 s) <> None
             /\ forall q, q < p0 -> UrlRegex.matchAt (skipn q s) = None.
Proof.
  revert s. induction p as [|p IH]; intros s H.
  - exists 0. split; [exact H|]. intros q Hq. lia.
  - destruct (UrlRegex.matchAt s) as [m|] eqn:E.
    + exists 0. split; [cbn [skipn]; congruence|]. intros q Hq. lia.
    + destruct s as [|x s]; [exfalso; apply H; reflexivity|].
      cbn [skipn] in H. destruct (IH s H) as (p0 & H0 & Hl).
      exists (S p0). split; [exact H0|].
      intros [|q] Hq; [exact E|]. cbn [skipn]. apply Hl. lia.
Qed.

Lemma matchAll_first (p : nat) :
  forall (s : jsstring) c t n,
    UrlRegex.matchAt (skipn p s) = Some (c, t, n) ->
    (forall q, q < p -> UrlRegex.matchAt (skipn q s) = None) ->
    hd_error (UrlRegex.matchAll s 0) = Some (c, t).
Proof.
  induction p as [|p IH]; intros s c t n H Hl.
  - cbn [skipn] in H. destruct s as [|x s]; [discriminate H|].
    cbn [UrlRegex.matchAll]. rewrite H. reflexivity.
  - destruct s as [|x s]; [discriminate H|].
    pose proof (Hl 0 (Nat.lt_0_succ p)) as H0. cbn [skipn] in H0, H.
    cbn [UrlRegex.matchAll]. rewrite H0.
    apply (IH s c t n H). intros q Hq.
    apply (Hl (S q)). lia.
Qed.

Lemma pop_none {A : Type} (l : list A) : UrlRegex.pop l = None <-> l = [].
Proof.
  destruct l as [|x l]; [split; reflexivity|].
  cbn. destruct (UrlRegex.pop l); split; discriminate.
Qed.

End LegacyFacts.

(** X10 — the title comes back out of a post: a post composed around a title
    that holds no line terminator holds the text the superseded lookup
    selects messages by, and the title it reads out of such a post is
    that title, trimmed, whatever the title, the picture address and the
    body are (bold tags in them included). *)
Theorem legacy_title_round_trip (title imageURL body : jsstring) :
  forallb (fun c => negb (isLineTerminator c)) title = true ->
  includes Legacy.centeredBold (Composer.finalPost title imageURL body) = true
  /\ Legacy.extractedCommentTitle (Composer.finalPost title imageURL body)
     = Some (trim title).
Proof.
  intros H. split; [reflexivity|].
  unfold Legacy.extractedCommentTitle, Composer.finalPost.
  rewrite (@LegacyFacts.boldCapture_centered
             (title ++ lit "[/b][/center]" ++ Composer.nl ++ Composer.nl
                ++ lit "[img]" ++ imageURL ++ lit "[/img]" ++ Composer.nl
                ++ Composer.nl ++ body) title);
    [reflexivity|].
  apply LegacyFacts.greedyThen_title. exact H.
Qed.

(** The theorem on a title that itself holds bold tags and has spaces
    around it. *)
Lemma legacy_title_round_trip_witness :
  Legacy.extractedCommentTitle
    (Composer.finalPost (lit " Patch [b]1.2[/b] notes ")
                        (lit "https://gameworld.gr/p.jpg")
                        (lit "[b]New[/b] maps"))
  = Some (lit "Patch [b]1.2[/b] notes").
Proof.
  apply (@legacy_title_round_trip (lit " Patch [b]1.2[/b] notes ")
           (lit "https://gameworld.gr/p.jpg") (lit "[b]New[/b] maps")
           eq_refl).
Defined.

(** X11 — the superseded job resolves the first forum address of a body, the
    current one the last: for every body in which the pattern occurs,
    the superseded job's target is the pair of captures of the
    occurrence that no occurrence precedes; and the two jobs skip the
    same bodies for the lack of an address. *)
Theorem legacy_resolves_first_forum_url (body : jsstring) :
  ((exists p, UrlRegex.matchAt (skipn p body) <> None) ->
   exists p categoryId threadId n,
     UrlRegex.matchAt (skipn p body) = Some (categoryId, threadId, n)
     /\ (forall q, q < p -> UrlRegex.matchAt (skipn q body) = None)
     /\ UrlRegex.legacyUrlMatch body = Some (categoryId, threadId))
  /\ (UrlRegex.legacyUrlMatch body = None <-> UrlRegex.urlMatch body = None).
Proof.
  split.
  - intros [p H].
    destruct (@LegacyFacts.first_occurrence_exists body p H) as (p0 & H0 & Hl).
    destruct (UrlRegex.matchAt (skipn p0 body)) as [[[c t] n]|] eqn:E;
      [|contradiction].
    exists p0, c, t, n. split; [exact E|]. split; [exact Hl|].
    unfold UrlRegex.legacyUrlMatch.
    apply (@LegacyFacts.matchAll_first p0 body c t n E Hl).
  - unfold UrlRegex.legacyUrlMatch, UrlRegex.urlMatch.
    rewrite LegacyFacts.pop_none.
    destruct (UrlRegex.matchAll body 0); split; intros H;
      try reflexivity; discriminate H.
Qed.

(** The theorem on a body with two addresses. *)
Lemma legacy_resolves_first_forum_url_witness :
  exists p categoryId threadId n,
    UrlRegex.matchAt (skipn p (lit "see forum/5/10, forum/7/20."))
    = Some (categoryId, threadId, n)
    /\ UrlRegex.legacyUrlMatch (lit "see forum/5/10, forum/7/20.")
       = Some (categoryId, threadId)
    /\ (toN categoryId, toN threadId) = (5%N, 10%N).
Proof.
  destruct (proj1 (legacy_resolves_first_forum_url
                     (lit "see forum/5/10, forum/7/20.")))
    as (p & c & t & n & Hm & _ & Hl).
  - exists 4. vm_compute. discriminate.
  - exists p, c, t, n. split; [exact Hm|]. split; [exact Hl|].
    vm_compute in Hl. injection Hl as <- <-. reflexivity.
Defined.

(** ** The fragments of the unrolling *)

Module FragmentFacts.

Lemma within_child (x k : node) (t : jsstring)
      (a : list (jsstring * jsstring)) (ks : list node) :
  In k ks -> UnrollFacts.within x k -> UnrollFacts.within x (Element t a ks).
Proof.
  intros Hin Hw. cbn [UnrollFacts.within]. right.
  induction ks as [|k0 ks IH]; [destruct Hin|].
  destruct Hin as [->|Hin]; [left; exact Hw|right; exact (IH Hin)].
Qed.

End FragmentFacts.

(** X12 — an element that is not a [div], or whose text holds no marker,
    unrolls to itself alone: the list of its fragments is that one
    element.  And every fragment of the unrolling of an element is that
    element or an element inside it, and is itself an element. *)
Theorem unrolled_fragments_are_elements_within (e : node) (lastIndex : nat) :
  (Js.eqb (tagName e) (lit "div") = false
   \/ UpdateRegex.hasMarker (text e) = false ->
   fst (Segmenter.unrollElements e lastIndex) = [e])
  /\ (isElement e = true ->
      forall x, In x (fst (Segmenter.unrollElements e lastIndex)) ->
                UnrollFacts.within x e /\ isElement x = true).
Proof.
  split.
  - intros [Hd|Hm].
    + destruct e as [d|d|tag a ks]; cbn [Segmenter.unrollElements];
        destruct (UpdateRegex.test lastIndex _) as [b li1];
        try reflexivity.
      cbn [tagName] in Hd. rewrite Hd. reflexivity.
    + rewrite (@UnrollFacts.unrollElements_no_marker e lastIndex Hm).
      reflexivity.
  - revert lastIndex.
    induction e as [d|d|tag a ks IH] using UnrollFacts.node_induction;
      intros li He x Hin; try discriminate He.
    cbn [Segmenter.unrollElements] in Hin.
    destruct (UpdateRegex.test li (text (Element tag a ks))) as [b li1].
    destruct (negb (Js.eqb tag (lit "div")) || negb b) eqn:E.
    + cbn [fst] in Hin. destruct Hin as [<-|[]].
      split; [left; reflexivity|reflexivity].
    + clear E He. revert li1 Hin.
      assert (G : forall l, incl l ks ->
                 forall li1,
                   In x (fst ((fix each (cs : list node) (li : nat) {struct cs}
                                : list node * nat :=
                                match cs with
                                | [] => ([], li)
                                | c :: cs' =>
                                    if isElement c
                                    then
                                      let '(r, li') :=
                                        Segmenter.unrollElements c li in
                                      let '(rs, li'') := each cs' li' in
                                      (r ++ rs, li'')
                                    else each cs' li
                                end) l li1)) ->
                   UnrollFacts.within x (Element tag a ks)
                   /\ isElement x = true).
      { induction l as [|k l IHl]; intros Hl li1 Hin; [destruct Hin|].
        assert (Hk : In k ks) by (apply Hl; left; reflexivity).
        assert (Hl' : incl l ks)
          by (intros y Hy; apply Hl; right; exact Hy).
        destruct (isElement k) eqn:Ek; [|exact (IHl Hl' li1 Hin)].
        pose proof (proj1 (Forall_forall _ ks) IH k Hk) as IHk.
        specialize (fun Hx => IHk li1 Ek x Hx).
        destruct (Segmenter.unrollElements k li1) as [r li'].
        specialize (IHl Hl' li').
        match type of IHl with
        | In x (fst ?f) -> _ => destruct f as [rs li'']
        end.
        cbn [fst] in *. apply in_app_or in Hin. destruct Hin as [Hin|Hin].
        - destruct (IHk Hin) as (Hw & Hx).
          split;
            [exact (@FragmentFacts.within_child x k tag a ks Hk Hw)|exact Hx].
        - exact (IHl Hin). }
      intros li1 Hin. exact (G ks (incl_refl ks) li1 Hin).
Qed.

(** The theorem on a block that holds an update and a further
    paragraph: the second paragraph unrolls to itself alone, the block to
    its two paragraphs, and the second is a fragment inside the block. *)
Lemma unrolled_fragments_are_elements_within_witness :
  fst (Segmenter.unrollElements (p [Text (lit "more")]) 0)
  = [p [Text (lit "more")]]
  /\ UnrollFacts.within
       (p [Text (lit "more")])
       (div [p [Text (lit "[UPDATE] new")]; p [Text (lit "more")]])
  /\ isElement (p [Text (lit "more")]) = true.
Proof.
  split.
  - apply (proj1 (unrolled_fragments_are_elements_within
                    (p [Text (lit "more")]) 0)).
    left. reflexivity.
  - apply (proj2 (unrolled_fragments_are_elements_within
                    (div [p [Text (lit "[UPDATE] new")]; p [Text (lit "more")]])
                    0) eq_refl).
    right. left. reflexivity.
Defined.

(** ** Text that stands loose in a block *)

Module LooseTextFacts.

Lemma each_of_no_elements (ks : list node) (li : nat) :
  forallb (fun k => negb (isElement k)) ks = true ->
  (fix each (cs : list node) (li : nat) {struct cs} : list node * nat :=
     match cs with
     | [] => ([], li)
     | c :: cs' =>
         if isElement c
         then
           let '(r, li') := Segmenter.unrollElements c li in
           let '(rs, li'') := each cs' li' in
           (r ++ rs, li'')
         else each cs' li
     end) ks li = ([], li).
Proof.
  induction ks as [|k ks IH]; intros H; [reflexivity|].
  cbn [forallb] in H. apply andb_true_iff in H. destruct H as [Hk Hks].
  apply negb_true_iff in Hk. rewrite Hk. exact (IH Hks).
Qed.

End LooseTextFacts.

(** X13 — a [div] whose text holds a marker is replaced by the fragments of its
    element children: when it has none, because the update stands as
    loose text in it, nothing is left of it, whatever [lastIndex] the
    test that finds the marker starts from.  An article whose body is
    one such [div] then has an empty update segment, and its post is
    composed under the item's own title. *)
Theorem update_in_loose_text_is_dropped
        (attribs : list (jsstring * jsstring)) (ks : list node)
        (lastIndex : nat) (itemTitle : jsstring) :
  forallb (fun k => negb (isElement k)) ks = true ->
  UpdateRegex.hasMarker (flat_map text ks) = true ->
  (fst (UpdateRegex.test lastIndex (flat_map text ks)) = true ->
   fst (Segmenter.unrollElements (Element (lit "div") attribs ks) lastIndex)
   = [])
  /\ Segmenter.segment [Element (lit "div") attribs ks] 0 = ([], [], 0)
  /\ Segmenter.finalTitle
       (snd (fst (Segmenter.segment [Element (lit "div") attribs ks] 0)))
       itemTitle
     = trim itemTitle.
Proof.
  intros Hks Hm.
  assert (U : forall li,
             fst (UpdateRegex.test li (flat_map text ks)) = true ->
             Segmenter.unrollElements (Element (lit "div") attribs ks) li
             = ([], snd (UpdateRegex.test li (flat_map text ks)))).
  { intros li Ht. cbn [Segmenter.unrollElements text].
    destruct (UpdateRegex.test li (flat_map text ks)) as [b li1].
    cbn [fst snd] in *. subst b.
    replace (Js.eqb (lit "div") (lit "div")) with true by reflexivity.
    cbn [negb orb]. apply LooseTextFacts.each_of_no_elements. exact Hks. }
  assert (S0 : Segmenter.segment [Element (lit "div") attribs ks] 0
               = ([], [], 0)).
  { unfold Segmenter.segment. cbn [Segmenter.unrollAll].
    rewrite U.
    - cbn [app]. unfold Segmenter.updateElements. cbn. reflexivity.
    - rewrite (proj1 (SegmenterFacts.test_fresh _)). exact Hm. }
  split; [|split].
  - intros Ht. rewrite (U lastIndex Ht). reflexivity.
  - exact S0.
  - rewrite S0. reflexivity.
Qed.

(** The theorem on a block that holds an update as text and nothing
    else. *)
Lemma update_in_loose_text_is_dropped_witness :
  Segmenter.segment [div [Text (lit "[UPDATE] servers are back")]] 0
  = ([], [], 0)
  /\ Segmenter.finalTitle [] (lit " Patch 1.2 ") = lit "Patch 1.2".
Proof.
  destruct (@update_in_loose_text_is_dropped []
              [Text (lit "[UPDATE] servers are back")] 0 (lit " Patch 1.2 ")
              eq_refl eq_refl)
    as (_ & S0 & F).
  split; [exact S0|]. rewrite S0 in F. exact F.
Defined.

(** ** The two marker patterns *)

Module MarkerFacts.

Lemma includes_false (q s : jsstring) :
  includes q s = false -> forall i, stripPrefix q (skipn i s) = None.
Proof.
  induction s as [|c s IH]; intros H i.
  - cbn [includes] in H. destruct i; cbn [skipn];
      destruct (stripPrefix q []); try reflexivity; discriminate H.
  - cbn [includes] in H.
    destruct (stripPrefix q (c :: s)) eqn:E; [discriminate H|].
    destruct i as [|i]; [exact E|]. cbn [skipn]. exact (IH H i).
Qed.

Lemma removeAll_nothing (matchAt : jsstring -> option nat) (s : jsstring) :
  (forall i, matchAt (skipn i s) = None) ->
  Composer.removeAll matchAt s 0 = s.
Proof.
  induction s as [|c s IH]; intros H; [reflexivity|].
  cbn [Composer.removeAll]. rewrite (H 0 : matchAt (c :: s) = None).
  f_equal. apply IH. intros i. exact (H (S i)).
Qed.

Lemma searchFrom_found (pre s : jsstring) (n : nat) :
  UpdateRegex.matchAt s = Some n ->
  forall pos, UpdateRegex.searchFrom (pre ++ s) pos <> None.
Proof.
  intros H. induction pre as [|c pre IH]; intros pos.
  - cbn [app]. destruct s; cbn [UpdateRegex.searchFrom]; rewrite H;
      discriminate.
  - cbn [app UpdateRegex.searchFrom].
    destruct (UpdateRegex.matchAt (c :: pre ++ s)); [discriminate|].
    apply IH.
Qed.

(** The marker without a number and without a title, the word in any
    case. *)
Lemma matchAt_bare (word tail : jsstring) :
  map upcase word = lit "UPDATE" ->
  UpdateRegex.matchAt (chr "[" :: word ++ chr "]" :: tail) = Some 8.
Proof.
  intros Hword. unfold UpdateRegex.matchAt.
  replace (negb (chr "[" =? chr "[")%N) with false by reflexivity.
  rewrite (@TitleFacts.stripPrefixCI_folded word (lit "UPDATE") _ Hword).
  replace (dropWhile isDigit (dropWhile isWhiteSpace (chr "]" :: tail)))
    with (chr "]" :: tail) by reflexivity.
  replace (chr "]" =? chr "]")%N with true by reflexivity.
  rewrite Nat.sub_diag. reflexivity.
Qed.

End MarkerFacts.

(** X14 — the segmenter's pattern ignores case, the composer's does not: a
    text in which the bracket and the word UPDATE in capitals do not
    occur is left as it is by the composer's removal, and yet holds a
    marker for the segmenter when it holds the word in another case
    between brackets. *)
Theorem marker_not_in_capitals_is_found_and_kept (word pre tail : jsstring) :
  map upcase word = lit "UPDATE" ->
  includes (lit "[UPDATE") (pre ++ chr "[" :: word ++ chr "]" :: tail) = false ->
  UpdateRegex.hasMarker (pre ++ chr "[" :: word ++ chr "]" :: tail) = true
  /\ Composer.removeAll Composer.markerAt
       (pre ++ chr "[" :: word ++ chr "]" :: tail) 0
     = pre ++ chr "[" :: word ++ chr "]" :: tail.
Proof.
  intros Hword Hinc. split.
  - unfold UpdateRegex.hasMarker.
    pose proof (@MarkerFacts.searchFrom_found pre _ 8
                  (MarkerFacts.matchAt_bare word tail Hword) 0) as F.
    destruct (UpdateRegex.searchFrom _ 0); [reflexivity|contradiction].
  - apply MarkerFacts.removeAll_nothing. intros i.
    unfold Composer.markerAt.
    rewrite (MarkerFacts.includes_false _ _ Hinc i). reflexivity.
Qed.

(** The theorem on an update announced in small letters. *)
Lemma marker_not_in_capitals_is_found_and_kept_witness :
  UpdateRegex.hasMarker (lit "<p>[Update] servers are back</p>") = true
  /\ Composer.removeAll Composer.markerAt
       (lit "<p>[Update] servers are back</p>") 0
     = lit "<p>[Update] servers are back</p>".
Proof.
  apply (@marker_not_in_capitals_is_found_and_kept
           (lit "Update") (lit "<p>") (lit " servers are back</p>"));
    reflexivity.
Defined.

(** ** The lines of the composed body *)

Module BodyFacts.

(** The lines of a body made of [parts]: the parts, with an empty line
    between each two. *)
Definition spaced (parts : list jsstring) : list jsstring :=
  match parts with
  | [] => [[]]
  | part :: rest => part :: flat_map (fun q => [[]; q]) rest
  end.

Definition lineFeedFree (s : jsstring) : Prop := ~ In 10%N s.

Lemma splitLines_nonempty (s : jsstring) : splitLines s <> [].
Proof.
  induction s as [|c s IH]; cbn [splitLines]; [discriminate|].
  destruct (c =? 10)%N; [discriminate|].
  destruct (splitLines s); discriminate.
Qed.

Lemma splitLines_lineFeedFree (s l : jsstring) :
  In l (splitLines s) -> lineFeedFree l.
Proof.
  revert l. induction s as [|c s IH]; intros l H; cbn [splitLines] in H.
  - destruct H as [<-|[]]. intros [].
  - destruct (N.eqb_spec c 10) as [E|E].
    + destruct H as [<-|H]; [intros []|exact (IH l H)].
    + destruct (splitLines s) as [|l0 ls] eqn:S0.
      * destruct H as [<-|[]]. intros [H|[]]. congruence.
      * destruct H as [<-|H].
        -- intros [H|H]; [congruence|].
           exact (IH l0 (or_introl eq_refl) H).
        -- exact (IH l (or_intror H)).
Qed.

Lemma splitLines_line (a s : jsstring) :
  lineFeedFree a -> splitLines (a ++ 10%N :: s) = a :: splitLines s.
Proof.
  induction a as [|c a IH]; intros H; [reflexivity|].
  cbn [app splitLines].
  destruct (N.eqb_spec c 10) as [E|E]; [exfalso; apply H; left; exact E|].
  rewrite IH; [reflexivity|]. intros Hin. apply H. right. exact Hin.
Qed.

Lemma splitLines_last (a : jsstring) :
  lineFeedFree a -> splitLines a = [a].
Proof.
  induction a as [|c a IH]; intros H; [reflexivity|].
  cbn [splitLines].
  destruct (N.eqb_spec c 10) as [E|E]; [exfalso; apply H; left; exact E|].
  rewrite IH; [reflexivity|]. intros Hin. apply H. right. exact Hin.
Qed.

Lemma splitLines_join (parts : list jsstring) :
  Forall lineFeedFree parts ->
  splitLines (join (Composer.nl ++ Composer.nl) parts) = spaced parts.
Proof.
  induction parts as [|part rest IH]; intros H; [reflexivity|].
  inversion H as [|? ? Hp Hr]; subst.
  destruct rest as [|q rest].
  - cbn [join spaced flat_map]. apply splitLines_last. exact Hp.
  - change (join (Composer.nl ++ Composer.nl) (part :: q :: rest))
      with (part ++ 10%N :: [] ++ 10%N
              :: join (Composer.nl ++ Composer.nl) (q :: rest)).
    rewrite (splitLines_line _ Hp).
    assert (E : lineFeedFree []) by (intros []).
    rewrite (splitLines_line _ E), (IH Hr). reflexivity.
Qed.

Lemma dropWhile_idem (q : jschar -> bool) (s : jsstring) :
  dropWhile q (dropWhile q s) = dropWhile q s.
Proof.
  induction s as [|c s IH]; [reflexivity|].
  cbn [dropWhile]. destruct (q c) eqn:E; [exact IH|].
  cbn [dropWhile]. rewrite E. reflexivity.
Qed.

Lemma dropWhile_head (q : jschar -> bool) (s : jsstring) :
  match dropWhile q s with [] => True | c :: _ => q c = false end.
Proof.
  induction s as [|c s IH]; [exact I|].
  cbn [dropWhile]. destruct (q c) eqn:E; [exact IH|exact E].
Qed.

Lemma dropWhile_kept_last (q : jschar -> bool) (l : jsstring) (c : jschar) :
  q c = false -> dropWhile q (l ++ [c]) = dropWhile q l ++ [c].
Proof.
  intros H. induction l as [|x l IH]; cbn [app dropWhile].
  - rewrite H. reflexivity.
  - destruct (q x); [exact IH|reflexivity].
Qed.

(** [trim] of what [trim] returns changes nothing. *)
Lemma trim_idem (s : jsstring) : trim (trim s) = trim s.
Proof.
  unfold trim.
  pose proof (dropWhile_head isWhiteSpace s) as H.
  destruct (dropWhile isWhiteSpace s) as [|c a]; [reflexivity|].
  cbn [rev]. rewrite (@dropWhile_kept_last isWhiteSpace (rev a) c H).
  rewrite !rev_app_distr. cbn [rev app dropWhile]. rewrite H.
  cbn [rev]. rewrite rev_involutive.
  rewrite (@dropWhile_kept_last isWhiteSpace _ c H), dropWhile_idem.
  rewrite rev_app_distr. reflexivity.
Qed.

Lemma dropWhile_In (q : jschar -> bool) (s : jsstring) (c : jschar) :
  In c (dropWhile q s) -> In c s.
Proof.
  induction s as [|x s IH]; [intros []|].
  cbn [dropWhile]. destruct (q x); [right; auto|auto].
Qed.

Lemma trim_In (s : jsstring) (c : jschar) : In c (trim s) -> In c s.
Proof.
  unfold trim. intros H. apply in_rev in H.
  apply dropWhile_In in H. apply in_rev in H.
  apply dropWhile_In in H. exact H.
Qed.

End BodyFacts.

(** X16 — the body of a post is made of parts with one empty line between each
    two and none before the first or after the last: its lines are those
    parts and the empty lines between them.  Every part is a line of the
    converter's output, trimmed: it is not empty, holds no line feed, and
    neither starts nor ends with white space. *)
Theorem body_lines_are_trimmed_and_spaced (P : Ports) (updates : list jsstring) :
  exists parts,
    splitLines (Composer.bbcode P updates) = BodyFacts.spaced parts
    /\ Forall (fun part => part <> [] /\ trim part = part
                           /\ BodyFacts.lineFeedFree part
                           /\ exists line,
                               In line (splitLines (concat (map (feed P) updates)))
                               /\ part = trim line)
              parts.
Proof.
  unfold Composer.bbcode.
  set (ls := splitLines (concat (map (feed P) updates))).
  exists (filter (fun line => negb (length line =? 0)) (map trim ls)).
  assert (F : Forall (fun part => part <> [] /\ trim part = part
                                  /\ BodyFacts.lineFeedFree part
                                  /\ exists line, In line ls /\ part = trim line)
                     (filter (fun line => negb (length line =? 0))
                             (map trim ls))).
  { apply Forall_forall. intros part H. apply filter_In in H.
    destruct H as [Hin Hne]. apply in_map_iff in Hin.
    destruct Hin as (line & <- & Hl).
    split; [intros E; rewrite E in Hne; discriminate Hne|].
    split; [apply BodyFacts.trim_idem|].
    split; [|exists line; split; [exact Hl|reflexivity]].
    intros H. apply BodyFacts.trim_In in H.
    exact (@BodyFacts.splitLines_lineFeedFree _ line Hl H). }
  split; [|exact F].
  apply BodyFacts.splitLines_join.
  apply Forall_forall. intros part H.
  exact (proj1 (proj2 (proj2 (proj1 (Forall_forall _ _) F part H)))).
Qed.

(** ** When the backward scan starts from a regex at rest *)

Module ScanFacts.

Lemma unrollAll_app (a b : list node) (li : nat) :
  Segmenter.unrollAll (a ++ b) li
  = (fst (Segmenter.unrollAll a li)
       ++ fst (Segmenter.unrollAll b (snd (Segmenter.unrollAll a li))),
     snd (Segmenter.unrollAll b (snd (Segmenter.unrollAll a li)))).
Proof.
  revert li. induction a as [|e a IH]; intros li.
  - cbn [app Segmenter.unrollAll fst snd].
    destruct (Segmenter.unrollAll b li); reflexivity.
  - cbn [app Segmenter.unrollAll].
    destruct (Segmenter.unrollElements e li) as [r li1].
    rewrite (IH li1).
    destruct (Segmenter.unrollAll a li1) as [rs li2]. cbn [fst snd].
    destruct (Segmenter.unrollAll b li2) as [rb li3]. cbn [fst snd].
    rewrite app_assoc. reflexivity.
Qed.

End ScanFacts.

(** X17 — when the last element of a body holds no marker (as when the body
    ends with the paragraph that links to the forum topic), the test on
    it leaves the shared regex at rest, and the backward scan then finds
    what it should: the update segment is the whole unrolled list when
    no fragment holds a marker, and otherwise its suffix from the last
    fragment that holds one, whatever [lastIndex] the unrolling started
    from. *)
Theorem segment_starts_at_last_marker_when_body_ends_plain
        (elements : list node) (lastElement : node) (lastIndex : nat) :
  UpdateRegex.hasMarker (text lastElement) = false ->
  snd (Segmenter.unrollAll (elements ++ [lastElement]) lastIndex) = 0
  /\ fst (fst (Segmenter.segment (elements ++ [lastElement]) lastIndex))
     = SegmenterFacts.specUpdateSegment
         (fst (Segmenter.unrollAll (elements ++ [lastElement]) lastIndex)).
Proof.
  intros H.
  assert (Z0 : snd (Segmenter.unrollAll (elements ++ [lastElement]) lastIndex)
               = 0).
  { rewrite ScanFacts.unrollAll_app. cbn [snd Segmenter.unrollAll].
    rewrite (@UnrollFacts.unrollElements_no_marker lastElement _ H).
    reflexivity. }
  split; [exact Z0|].
  unfold Segmenter.segment.
  destruct (Segmenter.unrollAll (elements ++ [lastElement]) lastIndex)
    as [unrolled li1].
  cbn [fst snd] in *. subst li1.
  pose proof (SegmenterFacts.updateElements_from_fresh_regex unrolled) as U.
  destruct (Segmenter.updateElements unrolled 0) as [upd li2].
  exact U.
Qed.

(** The theorem on the body of an introduction, an update and the
    closing link: the segment is the update and the link. *)
Lemma segment_starts_at_last_marker_when_body_ends_plain_witness :
  fst (fst (Segmenter.segment
              ([SegmenterFacts.intro; SegmenterFacts.news]
                 ++ [p [Text (lit "Discuss in the forum topic")]]) 0))
  = [SegmenterFacts.news; p [Text (lit "Discuss in the forum topic")]].
Proof.
  rewrite (proj2 (@segment_starts_at_last_marker_when_body_ends_plain
                    [SegmenterFacts.intro; SegmenterFacts.news]
                    (p [Text (lit "Discuss in the forum topic")]) 0 eq_refl)).
  reflexivity.
Defined.

(** ** How many statements a run sends *)

Module QueryFacts.

Section WithPorts.

Variable P : Ports.









End WithPorts.

End QueryFacts.


(** ** The guard after a write *)



(* ================================================================== *)
(** * The job on a host that can fail

    So far the process was taken to be well served by its host: the
    connection opens, commits and rolls back without fail, the watermark
    file can be written, every creation time the driver hands over is a
    valid date, and [formatDate] of [src/utils.ts] was a parameter.  This
    part takes none of that for granted.  [formatDate] is written out:
    the zone is Europe/Athens, the pattern is the year, month and day
    with hyphens, a space, and hours, minutes and seconds with colons,
    and an Invalid Date makes it throw.  The calls that open, commit and
    roll back the transaction and the call that writes the file can
    reject.  What the libraries decide stays a parameter: how the driver
    reads a DATETIME of the store, the offsets of the time zone
    database, and how the store reads a text it compares a DATETIME
    with. *)

(** ** The calendar of the pattern *)

Module Calendar.

(** Year, month and day of the proleptic Gregorian calendar for a number
    of days since the first of January 1970, and back.  The years are
    counted in cycles of 400 that start on the first of March. *)
Definition civilFromDays (days : Z) : Z * Z * Z :=
  let z := (days + 719468)%Z in
  let era := (z / 146097)%Z in
  let doe := (z mod 146097)%Z in
  let yoe := ((doe - doe / 1460 + doe / 36524 - doe / 146096) / 365)%Z in
  let doy := (doe - (365 * yoe + yoe / 4 - yoe / 100))%Z in
  let mp := ((5 * doy + 2) / 153)%Z in
  let d := (doy - (153 * mp + 2) / 5 + 1)%Z in
  let m := (if mp <? 10 then mp + 3 else mp - 9)%Z in
  let y := (yoe + era * 400)%Z in
  ((if m <=? 2 then y + 1 else y)%Z, m, d).

Definition daysFromCivil (year month day : Z) : Z :=
  let y := (if month <=? 2 then year - 1 else year)%Z in
  let era := (y / 400)%Z in
  let yoe := (y mod 400)%Z in
  let mp := (if 2 <? month then month - 3 else month + 9)%Z in
  let doy := ((153 * mp + 2) / 5 + day - 1)%Z in
  let doe := (yoe * 365 + yoe / 4 - yoe / 100 + doy)%Z in
  (era * 146097 + doe - 719468)%Z.

(** A number printed with at least [width] digits, zeros in front. *)
Definition addLeadingZeros (width : nat) (n : Z) : jsstring :=
  let digits := ofN (Z.to_N n) in
  repeat (chr "0") (width - length digits) ++ digits.

(** The year as the token of the pattern prints it: a year before the
    year 1 is counted back from it. *)
Definition eraYear (year : Z) : Z :=
  (if 0 <? year then year else 1 - year)%Z.

(** The pattern on a wall clock given in seconds since the midnight that
    began the first of January 1970 on that wall clock. *)
Definition pattern (wall : Z) : jsstring :=
  let '(year, month, day) := civilFromDays (wall / 86400) in
  let sod := (wall mod 86400)%Z in
  addLeadingZeros 4 (eraYear year) ++ lit "-"
    ++ addLeadingZeros 2 month ++ lit "-"
    ++ addLeadingZeros 2 day ++ lit " "
    ++ addLeadingZeros 2 (sod / 3600) ++ lit ":"
    ++ addLeadingZeros 2 (sod mod 3600 / 60) ++ lit ":"
    ++ addLeadingZeros 2 (sod mod 60).

(** A text in the pattern read back: four digits, two, two, two, two and
    two, with the separators of the pattern between them. *)
Definition digitsOnly (s : jsstring) : option Z :=
  if forallb isDigit s then Some (Z.of_N (toN s)) else None.

Definition field (from width : nat) (s : jsstring) : option Z :=
  digitsOnly (firstn width (skipn from s)).

Definition separators (s : jsstring) : bool :=
  Js.eqb (firstn 1 (skipn 4 s)) (lit "-")
  && Js.eqb (firstn 1 (skipn 7 s)) (lit "-")
  && Js.eqb (firstn 1 (skipn 10 s)) (lit " ")
  && Js.eqb (firstn 1 (skipn 13 s)) (lit ":")
  && Js.eqb (firstn 1 (skipn 16 s)) (lit ":").

Definition datetimeOfText (s : jsstring) : option Z :=
  if negb (length s =? 19) || negb (separators s) then None
  else
    match field 0 4 s, field 5 2 s, field 8 2 s,
          field 11 2 s, field 14 2 s, field 17 2 s with
    | Some year, Some month, Some day, Some h, Some mi, Some sec =>
        Some (daysFromCivil year month day * 86400 + h * 3600 + mi * 60 + sec)%Z
    | _, _, _, _, _, _ => None
    end.

(** The offset of Europe/Athens by the rule the time zone database has
    for it since 1996: two hours, and three from one o'clock universal
    time on the last Sunday of March to one o'clock universal time on the
    last Sunday of October. *)
Definition lastSunday (year month : Z) : Z :=
  let last := daysFromCivil year month 31 in
  (last - (last + 4) mod 7)%Z.

Definition athensSince1996 (instant : Z) : Z :=
  let '(year, _, _) := civilFromDays (instant / 86400) in
  let from := (lastSunday year 3 * 86400 + 3600)%Z in
  let to := (lastSunday year 10 * 86400 + 3600)%Z in
  if (from <=? instant)%Z && (instant <? to)%Z then 10800%Z else 7200%Z.

End Calendar.

Example pattern_epoch : Calendar.pattern 0 = lit "1970-01-01 00:00:00".
Proof. reflexivity. Qed.

Example pattern_leap_day :
  Calendar.pattern 1709251199 = lit "2024-02-29 23:59:59".
Proof. reflexivity. Qed.

Example datetimeOfText_leap_day :
  Calendar.datetimeOfText (lit "2024-02-29 23:59:59") = Some 1709251199%Z.
Proof. reflexivity. Qed.

Example athens_summer_2024 :
  Calendar.athensSince1996 1711846799 = 7200%Z
  /\ Calendar.athensSince1996 1711846800 = 10800%Z
  /\ Calendar.athensSince1996 1729990799 = 10800%Z
  /\ Calendar.athensSince1996 1729990800 = 7200%Z.
Proof. repeat split; reflexivity. Qed.

(** ** What the host decides *)

(** The calls to the connection and to the file system that can
    reject. *)
Inductive hostCall : Type :=
| BeginTransaction | Commit | Rollback | WriteFile.

Record Host : Type := {
  (** The driver's reading of a DATETIME of the store as a JavaScript
      Date: the instant, in seconds since the epoch, at which the wall
      clock of the process shows that DATETIME; [None] is the Invalid
      Date. *)
  readDatetime : Z -> option Z;
  (** The offset from universal time, in seconds, that the time zone
      database has for a zone at an instant. *)
  tzOffset : jsstring -> Z -> Z;
  (** The store's reading of a text that it compares a DATETIME with. *)
  castDatetime : jsstring -> Z;
  (** Whether a call rejects, and with which error, by the number of
      queries issued before it. *)
  rejects : hostCall -> nat -> option jsstring
}.

(** ** The job *)

Module Hosted.

(** [Number(s)] on a string of decimal digits: exact below 2^53, and
    from there on the nearest number with 53 significant bits, the even
    one of two that are equally near.  (A string that spells 2^1024 or
    more reads as Infinity; the ids of the store are far below.) *)
Definition Number (s : jsstring) : N :=
  let n := toN s in
  if (n <? 2 ^ 53)%N then n
  else
    let e := (N.log2 n - 52)%N in
    let q := N.shiftr n e in
    let r := (n - N.shiftl q e)%N in
    let half := N.shiftl 1 (e - 1) in
    let q' := if (half <? r)%N || ((r =? half)%N && N.odd q)
              then (q + 1)%N else q in
    N.shiftl q' e.

Section WithHost.

Variable H : Host.
Variable P : Ports.

(** [formatDate(dateStr)] of [src/utils.ts]: the wall clock of
    Europe/Athens at the instant of the date, printed in the pattern; the
    formatter throws a RangeError on an Invalid Date. *)
Definition formatDate (date : option Z) : M jsstring :=
  match date with
  | None => throw (lit "Invalid time value")
  | Some instant =>
      let zonedDate := (instant + tzOffset H (lit "Europe/Athens") instant)%Z in
      ret (Calendar.pattern zonedDate)
  end.

(** An awaited call to the connection or the file system: it rejects
    when the host says so, and does its work otherwise. *)
Definition await (c : hostCall) (work : M unit) : M unit :=
  fun w => match rejects H c (queries w) with
           | Some err => (Throw err, w)
           | None => work w
           end.

Definition beginTransaction : M unit :=
  await BeginTransaction Writer.beginTransaction.

Definition commit : M unit := await Commit Writer.commit.

Definition rollback : M unit := await Rollback Writer.rollback.

(** [fs.writeFile(LAST_CREATED, formatted, "utf-8")]: the file holds the
    text; the world keeps it as the date-time the store reads it as. *)
Definition writeFile (formatted : jsstring) : M unit :=
  await WriteFile (modify (write_last_created (castDatetime H formatted))).

(** [setLastProcessedDate(created)] of [src/utils.ts], on the creation
    time the driver handed over. *)
Definition setLastProcessedDate (created : Z) : M unit :=
  let date := readDatetime H created in
  match date with
  | None => logger InvalidDateFormat
  | Some _ =>
      formatted <- formatDate date ;;
      writeFile formatted
  end.

(** The [try] block of [insertMessage]. *)
Definition transaction (data : postData) (timestamp : Z) : M unit :=
  beginTransaction ;;
  res <- queryDatabase P InsertMessage (insertMessageRow data timestamp) ;;
  res <- affected res "Message insert failed" ;;
  let messageId := insertId res in
  res2 <- queryDatabase P InsertMessageText
            (insertMessageText messageId (message data)) ;;
  _ <- affected res2 "Message text insert failed" ;;
  res3 <- queryDatabase P UpdateUserPosts (updateUserPosts (userId data)) ;;
  _ <- affected res3 "User post count update failed" ;;
  res4 <- queryDatabase P UpdateTopic (updateTopic messageId timestamp data) ;;
  _ <- affected res4 "Topic metadata update failed" ;;
  res5 <- queryDatabase P UpdateCategory
            (updateCategory messageId timestamp data) ;;
  _ <- affected res5 "Category metadata update failed" ;;
  res6 <- queryDatabase P InsertActivity
            (insertActivity (activityTitle data)
                            (activityContent data messageId) timestamp data) ;;
  res6 <- affected res6 "Community activity insert failed" ;;
  let activityId := insertId res6 in
  res7 <- queryDatabase P UpdateActivityLike (updateActivityLike activityId) ;;
  _ <- affected res7 "Community activity like_id update failed" ;;
  commit ;;
  setLastProcessedDate (created data) ;;
  logger (InsertedMessage messageId).

(** [insertMessage(connection, data)]: the rollback of the [catch] block
    is awaited too, and what it rejects with leaves the function. *)
Definition insertMessage (data : postData) : M unit :=
  let timestamp := now P in
  tryCatch (transaction data timestamp)
           (fun err => rollback ;; logger (TransactionFailed err)).

(** [await processPost(connection, formatDate(nextPost.created),
    depth + 1)]: the argument is evaluated first, and the store will
    read it as a date-time. *)
Definition goOn (nextPost : content) : M step :=
  created <- formatDate (readDatetime H (c_created nextPost)) ;;
  ret (Recurse (castDatetime H created)).

(** The end of [processPost]: the guard, then the writer. *)
Definition guardAndWrite (nextPost : content) (categoryId threadId : jsstring)
           (data : postData) : M step :=
  hasPosted <- hasBeenPosted P (message data) ;;
  if hasPosted : bool then
    logger SkipAlreadyPosted ;;
    goOn nextPost
  else
    insertMessage data ;;
    logger (PostedAt categoryId threadId) ;;
    ret Return.

(** The body of [processPost] after the depth check. *)
Definition examine (created : Z) : M step :=
  nextPost <- getNextPost P created ;;
  match nextPost with
  | None => logger NoNextPost ;; ret Return
  | Some nextPost =>
      logger (Examining (c_id nextPost)) ;;
      let elements := filter isElement (load P (c_fulltext nextPost)) in
      li <- gets lastIndex ;;
      let '(updateElements, extracted, li') := Segmenter.segment elements li in
      modify (with_lastIndex li') ;;
      match UrlRegex.urlMatch (c_fulltext nextPost) with
      | None =>
          logger SkipNoUrl ;;
          goOn nextPost
      | Some (categoryId, threadId) =>
          subjectAndParent <- getSubjectAndParent P categoryId threadId ;;
          match subjectAndParent with
          | None =>
              logger SkipNoSubject ;;
              goOn nextPost
          | Some (subject, parentId) =>
              let finalTitle :=
                Segmenter.finalTitle extracted (c_title nextPost) in
              let finalUpdates := Composer.finalUpdates P updateElements in
              imageURL <- getImage P (c_id nextPost) ;;
              match imageURL with
              | None =>
                  logger SkipNoImage ;;
                  goOn nextPost
              | Some imageURL =>
                  let bbcode := Composer.bbcode P finalUpdates in
                  let finalPost :=
                    Composer.finalPost finalTitle imageURL bbcode in
                  guardAndWrite nextPost categoryId threadId
                    {| parentId := parentId;
                       threadId := Z.of_N (Number threadId);
                       categoryId := Z.of_N (Number categoryId);
                       subject := subject;
                       message := finalPost;
                       userId := USER_ID P;
                       name := USER_NAME P;
                       created := c_created nextPost;
                       imageURL := imageURL |}
              end
          end
      end
  end.

(** [processPost(connection, created, depth)] *)
Fixpoint processPostFrom (fuel : nat) (created : Z) (depth : nat)
  : M ending :=
  match fuel with
  | O => ret OutOfFuel
  | S fuel' =>
      (if depth mod 100 =? 0 then logger (RecursionDepth depth) else ret tt) ;;
      if MAX_RECURSION <? depth then
        logger MaxDepthReached ;; ret (MaxDepth depth)
      else
        s <- examine created ;;
        match s with
        | Recurse created' => processPostFrom fuel' created' (depth + 1)
        | Return => ret (Returned depth)
        end
  end.

Definition processPost (created : Z) : M ending :=
  processPostFrom (MAX_RECURSION + 2) created 0.

(** [main], from the read of the watermark file on; what [processPost]
    rejects with leaves [main], whose call is not caught. *)
Definition main : M unit :=
  lastCreated <- gets last_created_txt ;;
  match lastCreated with
  | None => logger NoLastCreatedDate
  | Some created => processPost created ;; ret tt
  end.

End WithHost.

End Hosted.

Example Number_rounds_to_even :
  Hosted.Number (lit "9007199254740993") = 9007199254740992%N
  /\ Hosted.Number (lit "9007199254740995") = 9007199254740996%N
  /\ Hosted.Number (lit "163262") = 163262%N.
Proof. repeat split; reflexivity. Qed.

(** ** The writer on such a host *)

Module HostedFacts.

Section WithHost.

Variable H : Host.
Variable P : Ports.

(** The wall clock of Europe/Athens at an instant, and the date-time the
    store reads [formatDate] of a creation time as. *)
Definition athensWall (instant : Z) : Z :=
  (instant + tzOffset H (lit "Europe/Athens") instant)%Z.

Definition formatted (created : Z) : option Z :=
  match readDatetime H created with
  | Some instant => Some (castDatetime H (Calendar.pattern (athensWall instant)))
  | None => None
  end.

(** The first thing that fails in a write from [w]: the error it fails
    with, the number of statements sent until then, and whether the
    rows were committed before it. *)
Definition firstFailure (data : postData) (w : world)
  : option (jsstring * nat * bool) :=
  let q := queries w in
  let none {A : Type} (hit : A -> bool) (rows : list A) : bool :=
    length (filter hit rows) =? 0 in
  match rejects H BeginTransaction q with
  | Some err => Some (err, 0, false)
  | None =>
  if faults P InsertMessage q
  then Some (lit "Message insert failed", 1, false)
  else if faults P InsertMessageText (1 + q)
  then Some (lit "Message text insert failed", 2, false)
  else if faults P UpdateUserPosts (2 + q)
          || none (fun u => (u_userid u =? userId data)%Z)
                  (jos_kunena_users (db w))
  then Some (lit "User post count update failed", 3, false)
  else if faults P UpdateTopic (3 + q)
          || none (fun r => (t_id r =? threadId data)%Z)
                  (jos_kunena_topics (db w))
  then Some (lit "Topic metadata update failed", 4, false)
  else if faults P UpdateCategory (4 + q)
          || none (fun r => (k_id r =? categoryId data)%Z)
                  (jos_kunena_categories (db w))
  then Some (lit "Category metadata update failed", 5, false)
  else if faults P InsertActivity (5 + q)
  then Some (lit "Community activity insert failed", 6, false)
  else if faults P UpdateActivityLike (6 + q)
  then Some (lit "Community activity like_id update failed", 7, false)
  else
  match rejects H Commit (7 + q) with
  | Some err => Some (err, 7, false)
  | None =>
  match readDatetime H (created data) with
  | None => None
  | Some _ =>
  match rejects H WriteFile (7 + q) with
  | Some err => Some (err, 7, true)
  | None => None
  end end end end.

(** The message and its text are in the store and the transaction is
    closed; the articles and the pictures are as they were. *)
Definition rowsCommitted (data : postData) (w w' : world) : Prop :=
  snapshot w' = None
  /\ jos_kunena_messages (db w')
     = jos_kunena_messages (db w) ++ [WriterFacts.newMessage P data w]
  /\ jos_kunena_messages_text (db w')
     = jos_kunena_messages_text (db w) ++ [WriterFacts.newText data w]
  /\ jos_content (db w') = jos_content (db w)
  /\ jos_jreviews_media (db w') = jos_jreviews_media (db w)
  /\ next_message_id w' = (next_message_id w + 1)%Z.

Definition fileUntouched (w w' : world) : Prop :=
  writes w' = writes w /\ last_created_txt w' = last_created_txt w.

(** Every outcome of a write that starts with no transaction open. *)
Lemma insertMessage_outcome (data : postData) (w : world) :
  snapshot w = None ->
  let r := Hosted.insertMessage H P data w in
  (next_message_id w <= next_message_id (snd r))%Z
  /\ match firstFailure data w with
     | Some (err, sent, committed) =>
         queries (snd r) = sent + queries w
         /\ fileUntouched w (snd r)
         /\ (if committed then rowsCommitted data w (snd r)
             else match rejects H Rollback (sent + queries w) with
                  | None => db (snd r) = db w /\ snapshot (snd r) = None
                  | Some _ => True
                  end)
         /\ match rejects H Rollback (sent + queries w) with
            | None =>
                fst r = Ok tt
                /\ hd_error (log (snd r)) = Some (TransactionFailed err)
            | Some err' => fst r = Throw err'
            end
     | None =>
         fst r = Ok tt
         /\ queries (snd r) = 7 + queries w
         /\ rowsCommitted data w (snd r)
         /\ hd_error (log (snd r)) = Some (InsertedMessage (next_message_id w))
         /\ match formatted (created data) with
            | Some v =>
                writes (snd r) = v :: writes w
                /\ last_created_txt (snd r) = Some v
            | None => fileUntouched w (snd r)
            end
     end.
Proof.
  intros S0 r. subst r.
  unfold Hosted.insertMessage, tryCatch, firstFailure, formatted.
  unfold Hosted.transaction, Hosted.beginTransaction, Hosted.commit,
    Hosted.rollback, Hosted.setLastProcessedDate, Hosted.writeFile,
    Hosted.formatDate, Hosted.await, bind, beginTransaction, commit,
    rollback, modify, queryDatabase, affected, throw, ret, logger,
    insertMessageRow, insertMessageText, updateUserPosts, updateTopic,
    updateCategory, insertActivity, updateActivityLike, updateWhere,
    rowsCommitted, fileUntouched, athensWall.
  cbn -[lit activityTitle activityContent Nat.eqb Calendar.pattern].
  repeat
    match goal with
    | |- context [1 =? 0] =>
        change (1 =? 0) with false;
        cbn -[lit activityTitle activityContent Nat.eqb Calendar.pattern]
    | Heq : rejects H ?c ?n = _ |- context [rejects H ?c ?n] =>
        rewrite Heq;
        cbn -[lit activityTitle activityContent Nat.eqb Calendar.pattern]
    | Heq : faults P ?s ?n = _ |- context [faults P ?s ?n] =>
        rewrite Heq;
        cbn -[lit activityTitle activityContent Nat.eqb Calendar.pattern]
    | Heq : (length (filter ?f ?l) =? 0) = _
      |- context [length (filter ?f ?l) =? 0] =>
        rewrite Heq;
        cbn -[lit activityTitle activityContent Nat.eqb Calendar.pattern]
    | Heq : readDatetime H ?c = _ |- context [readDatetime H ?c] =>
        rewrite Heq;
        cbn -[lit activityTitle activityContent Nat.eqb Calendar.pattern]
    | |- context [rejects H ?c ?n] =>
        destruct (rejects H c n) eqn:?;
        cbn -[lit activityTitle activityContent Nat.eqb Calendar.pattern];
        rewrite ?S0;
        cbn -[lit activityTitle activityContent Nat.eqb Calendar.pattern]
    | |- context [if faults P ?s ?n then _ else _] =>
        destruct (faults P s n) eqn:?;
        cbn -[lit activityTitle activityContent Nat.eqb Calendar.pattern]
    | |- context [length (filter ?f (?l ++ [?x])) =? 0] =>
        rewrite !filter_app, !length_app;
        cbn -[lit activityTitle activityContent Nat.eqb Calendar.pattern];
        rewrite !Z.eqb_refl; cbn [length]; rewrite !Nat.add_1_r;
        cbn -[lit activityTitle activityContent Calendar.pattern]
    | |- context [if (length (filter ?f ?l) =? 0) then _ else _] =>
        destruct (length (filter f l) =? 0) eqn:?;
        cbn -[lit activityTitle activityContent Nat.eqb Calendar.pattern]
    | |- context [readDatetime H ?c] =>
        destruct (readDatetime H c) eqn:?;
        cbn -[lit activityTitle activityContent Nat.eqb Calendar.pattern]
    end.
  all: repeat split; (reflexivity || lia).
Qed.

(** When nothing fails, the transaction was opened and committed, and
    the file was written unless the creation time is the Invalid
    Date. *)
Lemma firstFailure_none (data : postData) (w : world) :
  firstFailure data w = None ->
  rejects H BeginTransaction (queries w) = None
  /\ rejects H Commit (7 + queries w) = None
  /\ (readDatetime H (created data) <> None ->
      rejects H WriteFile (7 + queries w) = None).
Proof.
  unfold firstFailure.
  destruct (rejects H BeginTransaction (queries w)); [discriminate|].
  repeat match goal with
         | |- context [if ?b then _ else _] => destruct b; [discriminate|]
         end.
  destruct (rejects H Commit (7 + queries w)); [discriminate|].
  destruct (readDatetime H (created data)).
  - destruct (rejects H WriteFile (7 + queries w)); [discriminate|].
    intros _. repeat split.
  - intros _. repeat split. intros K. destruct K. reflexivity.
Qed.

End WithHost.

End HostedFacts.

(** ** A run on such a host *)

Module HostedRunFacts.

Import RunFacts.

Section WithHost.

Variable H : Host.
Variable P : Ports.

(** The data [processPost] hands to the writer for [item], the topic
    row [tp] and the media row [md], the shared regex being at
    [lastIndex] when the segmenter starts. *)
Definition postFor (item : content) (cat thr : jsstring) (tp : topic)
           (md : media) (lastIndex : nat) : postData :=
  let seg :=
    Segmenter.segment (filter isElement (load P (c_fulltext item))) lastIndex in
  {| parentId := t_first_post_id tp;
     threadId := Z.of_N (Hosted.Number thr);
     categoryId := Z.of_N (Hosted.Number cat);
     subject := t_subject tp;
     message :=
       Composer.finalPost
         (Segmenter.finalTitle (snd (fst seg)) (c_title item))
         (PostFacts.pictureUrl md)
         (Composer.bbcode P (Composer.finalUpdates P (fst (fst seg))));
     userId := USER_ID P;
     name := USER_NAME P;
     created := c_created item;
     imageURL := PostFacts.pictureUrl md |}.

(** What the call of the writer leaves: its world, with the address of
    the post logged when it returned. *)
Definition afterWriter (cat thr : jsstring) (depth : nat)
           (out : res unit * world) : res ending * world :=
  match out with
  | (Ok _, w) => (Ok (Returned depth), add_log (PostedAt cat thr) w)
  | (Throw err, w) => (Throw err, w)
  end.

(** The runs of [processPost] by what they do: nothing to the store; or
    stop on an article whose creation time cannot be formatted; or skip
    an article and go on from its formatted creation time; or hand an
    article to the writer after the guard answered no. *)
Inductive ran (w : world) (created : Z) : res ending * world -> Prop :=
| ran_quiet (e : ending) (w' : world) :
    same_store w w' -> ran w created (Ok e, w')
| ran_invalid (item : content) (w' : world) :
    same_store w w' ->
    In item (jos_content (db w)) ->
    readDatetime H (c_created item) = None ->
    ran w created (Throw (lit "Invalid time value"), w')
| ran_skip (item : content) (v : Z) (w1 : world) (out : res ending * world) :
    same_store w w1 ->
    In item (jos_content (db w)) ->
    (created < c_created item)%Z ->
    HostedFacts.formatted H (c_created item) = Some v ->
    ran w1 v out ->
    ran w created out
| ran_write (item : content) (cat thr : jsstring) (tp : topic) (md : media)
            (li depth : nat) (w0 w1 : world) :
    same_store w w0 ->
    In item (jos_content (db w)) ->
    (created < c_created item)%Z ->
    likeForumTopic P (c_fulltext item) = true ->
    UrlRegex.urlMatch (c_fulltext item) = Some (cat, thr) ->
    hd_error (selectSubjectAndParent cat thr (db w)) = Some tp ->
    hd_error (selectImage (c_id item) (db w)) = Some md ->
    hasBeenPosted P (message (postFor item cat thr tp md li)) w0
    = (Ok false, w1) ->
    ran w created
        (afterWriter cat thr depth
           (Hosted.insertMessage H P (postFor item cat thr tp md li) w1)).

Lemma goOn_eq (nextPost : content) (w : world) :
  Hosted.goOn H nextPost w
  = match HostedFacts.formatted H (c_created nextPost) with
    | Some v => (Ok (Recurse v), w)
    | None => (Throw (lit "Invalid time value"), w)
    end.
Proof.
  unfold Hosted.goOn, HostedFacts.formatted, Hosted.formatDate, bind,
    HostedFacts.athensWall.
  destruct (readDatetime H (c_created nextPost)); reflexivity.
Qed.

Lemma hosted_guardAndWrite_eq (nextPost : content) (cat thr : jsstring)
      (data : postData) (w : world) :
  Hosted.guardAndWrite H P nextPost cat thr data w
  = match hasBeenPosted P (message data) w with
    | (Ok true, w1) => Hosted.goOn H nextPost (add_log SkipAlreadyPosted w1)
    | (Ok false, w1) =>
        match Hosted.insertMessage H P data w1 with
        | (Ok _, w2) => (Ok Return, add_log (PostedAt cat thr) w2)
        | (Throw err, w2) => (Throw err, w2)
        end
    | (Throw err, w1) => (Throw err, w1)
    end.
Proof.
  unfold Hosted.guardAndWrite, bind.
  destruct (hasBeenPosted P (message data) w) as [[[|]|e] w1];
    try reflexivity;
    try (cbn; destruct (Hosted.insertMessage H P data w1) as [[u|e] w2];
         reflexivity).
Qed.

(** One invocation after its depth check. *)
Inductive examined (w : world) (created : Z) : res step * world -> Prop :=
| ex_idle (w' : world) :
    same_store w w' -> examined w created (Ok Return, w')
| ex_go (item : content) (w' : world) :
    same_store w w' ->
    In item (jos_content (db w)) ->
    (created < c_created item)%Z ->
    examined w created (Hosted.goOn H item w')
| ex_write (item : content) (cat thr : jsstring) (tp : topic) (md : media)
           (li : nat) (w0 w1 : world) :
    same_store w w0 ->
    In item (jos_content (db w)) ->
    (created < c_created item)%Z ->
    likeForumTopic P (c_fulltext item) = true ->
    UrlRegex.urlMatch (c_fulltext item) = Some (cat, thr) ->
    hd_error (selectSubjectAndParent cat thr (db w)) = Some tp ->
    hd_error (selectImage (c_id item) (db w)) = Some md ->
    hasBeenPosted P (message (postFor item cat thr tp md li)) w0
    = (Ok false, w1) ->
    examined w created
      (match Hosted.insertMessage H P (postFor item cat thr tp md li) w1 with
       | (Ok _, w2) => (Ok Return, add_log (PostedAt cat thr) w2)
       | (Throw err, w2) => (Throw err, w2)
       end).

Lemma hosted_examine_examined (created : Z) (w : world) :
  examined w created (Hosted.examine H P created w).
Proof.
  unfold Hosted.examine. unfold bind at 1.
  destruct (PostFacts.getNextPost_filtered P created w) as [S1 C1].
  destruct (getNextPost P created w) as [r1 w1]. cbn [fst snd] in *.
  destruct C1 as [-> | (item & -> & Hin & Hlt & Hlike)].
  { cbn. apply ex_idle. apply same_store_log. exact S1. }
  unfold bind at 1. unfold logger at 1, modify at 1.
  unfold bind at 1. unfold gets at 1.
  set (li := lastIndex (add_log (Examining (c_id item)) w1)) in *.
  destruct (Segmenter.segment (filter isElement (load P (c_fulltext item))) li)
    as [[upd extracted] li'] eqn:Seg.
  unfold bind at 1. unfold modify at 1.
  set (w2 := with_lastIndex li' (add_log (Examining (c_id item)) w1)).
  assert (S2 : same_store w w2).
  { apply same_store_lastIndex, same_store_log. exact S1. }
  clearbody w2.
  destruct (UrlRegex.urlMatch (c_fulltext item)) as [[cat thr]|] eqn:U.
  2:{ unfold bind at 1. unfold logger at 1, modify at 1.
      apply ex_go; [apply same_store_log; exact S2|exact Hin|exact Hlt]. }
  unfold bind at 1.
  destruct (PostFacts.getSubjectAndParent_first P cat thr w2) as [S3 C3].
  destruct (getSubjectAndParent P cat thr w2) as [r3 w3].
  cbn [fst snd] in *.
  assert (S3' : same_store w w3) by (eapply same_store_trans; eauto).
  destruct C3 as [-> | (tp & -> & Htp)].
  { unfold bind at 1. unfold logger at 1, modify at 1.
    apply ex_go; [apply same_store_log; exact S3'|exact Hin|exact Hlt]. }
  unfold bind at 1.
  destruct (PostFacts.getImage_first P (c_id item) w3) as [S4 C4].
  destruct (getImage P (c_id item) w3) as [r4 w4].
  cbn [fst snd] in *.
  assert (S4' : same_store w w4) by (eapply same_store_trans; eauto).
  destruct C4 as [-> | (md & -> & Hmd)].
  { unfold bind at 1. unfold logger at 1, modify at 1.
    apply ex_go; [apply same_store_log; exact S4'|exact Hin|exact Hlt]. }
  rewrite hosted_guardAndWrite_eq.
  assert (PF : postFor item cat thr tp md li
               = {| parentId := t_first_post_id tp;
                    threadId := Z.of_N (Hosted.Number thr);
                    categoryId := Z.of_N (Hosted.Number cat);
                    subject := t_subject tp;
                    message :=
                      Composer.finalPost
                        (Segmenter.finalTitle extracted (c_title item))
                        (PostFacts.pictureUrl md)
                        (Composer.bbcode P (Composer.finalUpdates P upd));
                    userId := USER_ID P;
                    name := USER_NAME P;
                    created := c_created item;
                    imageURL := PostFacts.pictureUrl md |}).
  { unfold postFor. rewrite Seg. reflexivity. }
  rewrite <- PF.
  pose proof (hasBeenPosted_same_store P
                (message (postFor item cat thr tp md li)) w4) as S5.
  destruct (hasBeenPosted P (message (postFor item cat thr tp md li)) w4)
    as [[[|]|e] w5] eqn:G; cbn [snd] in S5.
  - apply ex_go; [|exact Hin|exact Hlt]. apply same_store_log.
    eapply same_store_trans; eauto.
  - assert (Ed : db w2 = db w) by (destruct S2 as [E _]; exact E).
    assert (Ed3 : db w3 = db w) by (destruct S3' as [E _]; exact E).
    rewrite Ed in Htp. rewrite Ed3 in Hmd.
    eapply ex_write with (w0 := w4); eassumption.
  - rewrite hasBeenPosted_eq in G.
    destruct (faults P SelectPosted (queries w4)); discriminate.
Qed.

Lemma hosted_processPostFrom_eq (fuel : nat) (created : Z) (depth : nat) (w : world) :
  Hosted.processPostFrom H P (S fuel) created depth w
  = if MAX_RECURSION <? depth
    then (Ok (MaxDepth depth),
          add_log MaxDepthReached (OrchestratorFacts.logDepth depth w))
    else match Hosted.examine H P created (OrchestratorFacts.logDepth depth w) with
         | (Ok (Recurse created'), w1) =>
             Hosted.processPostFrom H P fuel created' (depth + 1) w1
         | (Ok Return, w1) => (Ok (Returned depth), w1)
         | (Throw e, w1) => (Throw e, w1)
         end.
Proof.
  cbn [Hosted.processPostFrom]. unfold bind at 1.
  unfold OrchestratorFacts.logDepth.
  destruct (depth mod 100 =? 0);
    cbn -[Hosted.examine Hosted.processPostFrom MAX_RECURSION Nat.ltb];
    destruct (MAX_RECURSION <? depth); try reflexivity;
    unfold bind;
    match goal with
    | |- context [Hosted.examine H P created ?x] =>
        destruct (Hosted.examine H P created x) as [[[c|]|e] w1]; reflexivity
    end.
Qed.

Lemma hosted_ran_from_same (w w0 : world) (created : Z) (out : res ending * world) :
  same_store w w0 -> ran w0 created out -> ran w created out.
Proof.
  intros S0 R. revert w S0.
  induction R as [w0 created e w' S1
                 |w0 created item w' S1 Hin Hr
                 |w0 created item v w1 out S1 Hin Hlt Hf R IH
                 |w0 created item cat thr tp md li depth wa wb
                    S1 Hin Hlt Hlike U Htp Hmd G];
    intros w S0;
    assert (E : db w0 = db w) by (destruct S0 as [E _]; exact E).
  - apply ran_quiet. eapply same_store_trans; eauto.
  - eapply ran_invalid with (item := item); auto.
    + eapply same_store_trans; eauto.
    + rewrite <- E. exact Hin.
  - eapply ran_skip with (item := item) (w1 := w1); eauto.
    + eapply same_store_trans; eauto.
    + rewrite <- E. exact Hin.
  - rewrite E in Hin, Htp, Hmd.
    eapply ran_write with (w0 := wa); eauto.
    eapply same_store_trans; eauto.
Qed.

Lemma hosted_processPostFrom_ran (fuel : nat) :
  forall created depth w,
    ran w created (Hosted.processPostFrom H P fuel created depth w).
Proof.
  induction fuel as [|fuel IH]; intros created depth w.
  - cbn. apply ran_quiet, same_store_refl.
  - rewrite hosted_processPostFrom_eq.
    pose proof (OrchestratorFacts.same_store_logDepth depth w) as S0.
    destruct (MAX_RECURSION <? depth).
    + apply ran_quiet. apply same_store_log. exact S0.
    + pose proof (hosted_examine_examined created (OrchestratorFacts.logDepth depth w))
        as X.
      apply (hosted_ran_from_same S0).
      inversion X as [w' S1 E
                     |item w' S1 Hin Hlt E
                     |item cat thr tp md li w0 w1 S1 Hin Hlt Hlike U Htp Hmd G E].
      * apply ran_quiet; exact S1.
      * rewrite goOn_eq.
        destruct (HostedFacts.formatted H (c_created item)) as [v|] eqn:F.
        -- eapply ran_skip with (item := item) (w1 := w'); eauto.
        -- unfold HostedFacts.formatted in F.
           destruct (readDatetime H (c_created item)) eqn:R; [discriminate F|].
           eapply ran_invalid with (item := item); eauto.
      * pose proof (@ran_write (OrchestratorFacts.logDepth depth w) created
                      item cat thr tp md li depth w0 w1
                      S1 Hin Hlt Hlike U Htp Hmd G) as W.
        unfold afterWriter in W.
        destruct (Hosted.insertMessage H P (postFor item cat thr tp md li) w1)
          as [[u|e] w2]; exact W.
Qed.

Lemma hosted_main_eq (w : world) :
  Hosted.main H P w
  = match last_created_txt w with
    | None => (Ok tt, add_log NoLastCreatedDate w)
    | Some read =>
        match Hosted.processPost H P read w with
        | (Ok _, w1) => (Ok tt, w1)
        | (Throw e, w1) => (Throw e, w1)
        end
    end.
Proof.
  unfold Hosted.main, bind, gets, logger, modify, ret.
  destruct (last_created_txt w) as [read|]; [|reflexivity].
  destruct (Hosted.processPost H P read w) as [[e|err] w1]; reflexivity.
Qed.


(** Formatting no article's creation time moves it back. *)
Definition keepsForward (w : world) : Prop :=
  forall item v,
    In item (jos_content (db w)) ->
    HostedFacts.formatted H (c_created item) = Some v ->
    (c_created item <= v)%Z.

(** The run came to the writer: in an invocation that looked for
    articles later than [created'], for [item], after the guard answered
    no in a world whose store is the one of the start. *)
Definition cameToWriter (w : world) (created : Z)
           (out : res ending * world) : Prop :=
  exists created' item cat thr tp md li depth w1,
    (keepsForward w -> (created <= created')%Z)
    /\ In item (jos_content (db w))
    /\ (created' < c_created item)%Z
    /\ likeForumTopic P (c_fulltext item) = true
    /\ UrlRegex.urlMatch (c_fulltext item) = Some (cat, thr)
    /\ hd_error (selectSubjectAndParent cat thr (db w)) = Some tp
    /\ hd_error (selectImage (c_id item) (db w)) = Some md
    /\ same_store w w1
    /\ out = afterWriter cat thr depth
               (Hosted.insertMessage H P (postFor item cat thr tp md li) w1).

(** The run did not come to the writer: it left the store as it was,
    and it ended normally unless an article's creation time is read as
    the Invalid Date. *)
Definition leftAlone (w : world) (out : res ending * world) : Prop :=
  same_store w (snd out)
  /\ ((exists e, fst out = Ok e)
      \/ (fst out = Throw (lit "Invalid time value")
          /\ exists item,
              In item (jos_content (db w))
              /\ readDatetime H (c_created item) = None)).

Lemma ran_flat (w : world) (created : Z) (out : res ending * world) :
  ran w created out -> leftAlone w out \/ cameToWriter w created out.
Proof.
  induction 1 as [w created e w' S1
                 |w created item w' S1 Hin Hr
                 |w created item v w1 out S1 Hin Hlt Hf R IH
                 |w created item cat thr tp md li depth w0 w1
                    S1 Hin Hlt Hlike U Htp Hmd G].
  - left. split; [exact S1|left; exists e; reflexivity].
  - left. split; [exact S1|right; split; [reflexivity|exists item; auto]].
  - assert (E : db w1 = db w) by (destruct S1 as [E _]; exact E).
    destruct IH as [[S2 C]|C].
    + left. split; [eapply same_store_trans; eauto|].
      destruct C as [C|[C (it & Hi & Hn)]]; [left; exact C|].
      right. split; [exact C|]. exists it. rewrite <- E. auto.
    + right.
      destruct C as (c' & it & cat & thr & tp & md & li & depth & w2
                     & Hc & Hi & Hl & Hk & U & Htp & Hmd & S2 & Eo).
      exists c', it, cat, thr, tp, md, li, depth, w2.
      rewrite E in Hi, Htp, Hmd.
      split.
      { intros K. pose proof (K item v Hin Hf) as K1.
        assert (K2 : (v <= c')%Z).
        { apply Hc. intros i x Hix. apply K. rewrite <- E. exact Hix. }
        lia. }
      repeat (split; [assumption|]).
      split; [eapply same_store_trans; eauto|exact Eo].
  - right.
    exists created, item, cat, thr, tp, md, li, depth, w1.
    split; [intros _; lia|].
    repeat (split; [assumption|]).
    split; [|reflexivity].
    pose proof (hasBeenPosted_same_store P
                  (message (postFor item cat thr tp md li)) w0) as S2.
    rewrite G in S2. cbn [snd] in S2.
    eapply same_store_trans; eauto.
Qed.

(** A run of [main] that has a watermark to start from. *)
Lemma main_flat (w : world) (read : Z) :
  last_created_txt w = Some read ->
  exists out,
    (leftAlone w out \/ cameToWriter w read out)
    /\ Hosted.main H P w
       = match out with
         | (Ok _, w1) => (Ok tt, w1)
         | (Throw e, w1) => (Throw e, w1)
         end.
Proof.
  intros L. exists (Hosted.processPost H P read w). split.
  - apply ran_flat. unfold Hosted.processPost. apply hosted_processPostFrom_ran.
  - rewrite hosted_main_eq, L. reflexivity.
Qed.

Lemma rowsCommitted_from_same (data : postData) (w w1 w' : world) :
  same_store w w1 ->
  HostedFacts.rowsCommitted P data w1 w' ->
  HostedFacts.rowsCommitted P data w w'.
Proof.
  intros (Sd & _ & Sn & _) (R1 & R2 & R3 & R4 & R5 & R6).
  unfold HostedFacts.rowsCommitted, WriterFacts.newMessage,
    WriterFacts.newText in *.
  rewrite Sd, Sn in *. auto 10.
Qed.

End WithHost.

Lemma Number_exact (s : jsstring) :
  (toN s < 2 ^ 53)%N -> Hosted.Number s = toN s.
Proof.
  intros Hs. unfold Hosted.Number.
  apply N.ltb_lt in Hs. rewrite Hs. reflexivity.
Qed.

End HostedRunFacts.

(** ** Hosts and a store to try the job on *)

Module HostDemo.

(** The store reads a text in the pattern of the file as the date-time
    it spells. *)
Definition cast (text : jsstring) : Z :=
  match Calendar.datetimeOfText text with
  | Some wall => wall
  | None => 0%Z
  end.

(** The time zone database, for the one zone the job asks for. *)
Definition zones (zone : jsstring) (instant : Z) : Z :=
  if Js.eqb zone (lit "Europe/Athens")
  then Calendar.athensSince1996 instant
  else 0%Z.

Definition quiet : hostCall -> nat -> option jsstring := fun _ _ => None.

(** The file system refuses the write of the watermark. *)
Definition readOnlyFile : hostCall -> nat -> option jsstring :=
  fun c _ => match c with
             | WriteFile => Some (lit "EACCES: permission denied")
             | _ => None
             end.

(** The connection is lost after the statements of the write: the
    commit rejects, and so does the rollback. *)
Definition connectionLost : hostCall -> nat -> option jsstring :=
  fun c _ => match c with
             | Commit | Rollback => Some (lit "Connection lost")
             | _ => None
             end.

(** A process whose wall clock is [east] seconds ahead of universal
    time: it reads a DATETIME as the instant at which its clock shows
    it. *)
Definition processAt (east : Z) (r : hostCall -> nat -> option jsstring)
  : Host :=
  {| readDatetime := fun datetime => Some (datetime - east)%Z;
     tzOffset := zones;
     castDatetime := cast;
     rejects := r |}.

(** A process on universal time, one on the winter time of Athens, and
    one on the time of Tokyo. *)
Definition utc : Host := processAt 0 quiet.
Definition athensWinter : Host := processAt 7200 quiet.
Definition tokyo : Host := processAt 32400 quiet.

(** 2024-01-01 13:00:00, the creation time of the article, and
    2024-01-01 12:00:00, the watermark of the run before. *)
Definition createdAt : Z := 1704114000.
Definition readAt : Z := 1704110400.

(** A process on universal time whose driver reads one DATETIME later
    than the watermark as the Invalid Date, as it does a DATETIME with a
    zero day. *)
Definition zeroDay : Z := 1704112000.

Definition zeroDayInvalid : Host :=
  {| readDatetime := fun datetime =>
                       if (datetime =? zeroDay)%Z then None else Some datetime;
     tzOffset := zones;
     castDatetime := cast;
     rejects := quiet |}.

Definition article : content :=
  {| c_id := 1; c_title := lit " Patch 1.2 ";
     c_fulltext := lit "Patch notes. Discuss in the forum topic: forum/5/10";
     c_created := createdAt |}.

(** An article that links to no thread, stored with that DATETIME. *)
Definition undated : content :=
  {| c_id := 2; c_title := lit "News";
     c_fulltext := lit "No link to the forum topic here";
     c_created := zeroDay |}.

Definition start (articles : list content) : world :=
  {| db := Demo.store articles [Demo.poster] [] [];
     snapshot := None; next_message_id := 951; next_activity_id := 1;
     queries := 0; last_created_txt := Some readAt; writes := [];
     lastIndex := 0; log := [] |}.

Definition fresh : world := start [article].

Definition ports : Ports := Demo.ports Demo.noFaults.

(** What the job hands to the writer for [article]. *)
Definition articleData : postData :=
  {| parentId := 900; threadId := 10; categoryId := 5;
     subject := lit "Patch thread"; message := Demo.composed; userId := 62;
     name := lit "newsbot"; created := createdAt;
     imageURL := lit "https://gameworld.gr/media/reviews/photos/2024/patch.jpg" |}.

End HostDemo.

Example hosted_run_on_utc :
  let r := Hosted.main HostDemo.utc HostDemo.ports HostDemo.fresh in
  fst r = Ok tt
  /\ writes (snd r) = [(HostDemo.createdAt + 7200)%Z]
  /\ map x_message (jos_kunena_messages_text (db (snd r))) = [Demo.composed].
Proof. vm_compute. repeat split; reflexivity. Qed.

Example hosted_run_throws_on_invalid_date :
  let r := Hosted.main HostDemo.zeroDayInvalid HostDemo.ports
                       (HostDemo.start [HostDemo.undated; HostDemo.article]) in
  fst r = Throw (lit "Invalid time value")
  /\ db (snd r) = db (HostDemo.start [HostDemo.undated; HostDemo.article]).
Proof. vm_compute. split; reflexivity. Qed.

Example hosted_run_throws_when_rollback_rejects :
  let r := Hosted.main (HostDemo.processAt 0 HostDemo.connectionLost)
                       HostDemo.ports HostDemo.fresh in
  fst r = Throw (lit "Connection lost")
  /\ writes (snd r) = [].
Proof. vm_compute. split; reflexivity. Qed.

(** ** The watermark on such a host *)

(** C8 — the claim fails where it says that the watermark only moves
    forward: in a process on the time of Tokyo, the run that posts the
    article created at 13:00, having read 12:00 from the file, writes
    06:00 of the same day. *)
Lemma watermark_moves_back_east_of_athens :
  let w := HostDemo.fresh in
  let w' := snd (Hosted.main HostDemo.tokyo HostDemo.ports w) in
  last_created_txt w
  = Some (HostDemo.cast (lit "2024-01-01 12:00:00"))
  /\ map c_created (jos_content (db w))
     = [HostDemo.cast (lit "2024-01-01 13:00:00")]
  /\ map x_message (jos_kunena_messages_text (db w')) = [Demo.composed]
  /\ writes w' = [HostDemo.cast (lit "2024-01-01 06:00:00")]
  /\ last_created_txt w'
     = Some (HostDemo.cast (lit "2024-01-01 06:00:00"))
  /\ ~ (forall read written,
           last_created_txt w = Some read ->
           In written (writes w') ->
           (read < written)%Z).
Proof.
  vm_compute. repeat (split; [reflexivity|]).
  intros K. specialize (K _ _ eq_refl (or_introl eq_refl)).
  discriminate K.
Qed.

(** C8 — a run started with no transaction open leaves the watermark
    file alone or writes it once.  When it writes, the writer was called,
    in a world whose store is the one of the start, with the post
    composed for an article of the store, the thread its last forum
    address names and its main picture; nothing failed in that call,
    neither a statement nor the commit nor the write, so that the commit
    resolved and the message and the text of that post are committed; and
    the text written is the wall clock of Europe/Athens, in the pattern
    yyyy-MM-dd HH:mm:ss, at the instant the process reads the creation
    time of that article as.  When formatting no article's creation time
    moves it back, the value written is later than the value read at
    the start of the run. *)
Theorem watermark_written_once_after_commit_and_forward
        (H : Host) (P : Ports) (w : world) :
  snapshot w = None ->
  let w' := snd (Hosted.main H P w) in
  HostedFacts.fileUntouched w w'
  \/ exists read item instant cat thr tp md li w1,
      let data := HostedRunFacts.postFor P item cat thr tp md li in
      let formatted :=
        Calendar.pattern
          (instant + tzOffset H (lit "Europe/Athens") instant) in
      last_created_txt w = Some read
      /\ In item (jos_content (db w))
      /\ UrlRegex.urlMatch (c_fulltext item) = Some (cat, thr)
      /\ hd_error (selectSubjectAndParent cat thr (db w)) = Some tp
      /\ hd_error (selectImage (c_id item) (db w)) = Some md
      /\ readDatetime H (c_created item) = Some instant
      /\ writes w' = castDatetime H formatted :: writes w
      /\ last_created_txt w' = Some (castDatetime H formatted)
      /\ RunFacts.same_store w w1
      /\ HostedFacts.firstFailure H P data w1 = None
      /\ rejects H Commit (7 + queries w1) = None
      /\ HostedFacts.rowsCommitted P data w w'
      /\ (HostedRunFacts.keepsForward H w ->
          (read < castDatetime H formatted)%Z).
Proof.
  intros S0 w'. subst w'.
  destruct (last_created_txt w) as [read|] eqn:L.
  2:{ left. rewrite HostedRunFacts.hosted_main_eq, L. split; reflexivity. }
  destruct (@HostedRunFacts.main_flat H P w read L) as (out & C & ->).
  destruct C as [[S1 _]|C].
  { left. destruct S1 as (_ & _ & _ & _ & Sl & Sw).
    destruct out as [[e|err] w1]; cbn [snd] in *; split; congruence. }
  destruct C as (c' & item & cat & thr & tp & md & li & depth & w1
                 & Hc & Hin & Hlt & Hlike & U & Htp & Hmd & S1 & ->).
  assert (S1' := S1).
  destruct S1' as (Sd & Ss & Sn & Sa & Sl & Sw).
  assert (S2 : snapshot w1 = None) by congruence.
  pose proof (@HostedFacts.insertMessage_outcome H P
                (HostedRunFacts.postFor P item cat thr tp md li) w1 S2) as O.
  cbv zeta in O. destruct O as [_ O].
  unfold HostedRunFacts.afterWriter.
  destruct (HostedFacts.firstFailure H P
              (HostedRunFacts.postFor P item cat thr tp md li) w1)
    as [[[err sent] committed]|] eqn:F.
  - left. destruct O as (_ & (Fw & Fl) & _).
    destruct (Hosted.insertMessage H P _ w1) as [[u|e] w2];
      split; cbn [snd add_log writes last_created_txt] in *; congruence.
  - destruct O as (Ok1 & _ & Rc & _ & Wf).
    unfold HostedFacts.formatted in Wf.
    change (created (HostedRunFacts.postFor P item cat thr tp md li))
      with (c_created item) in Wf.
    destruct (Hosted.insertMessage H P _ w1) as [[u|e] w2];
      cbn [fst snd] in *; [|discriminate Ok1].
    destruct (readDatetime H (c_created item)) as [instant|] eqn:Rd.
    + right. exists read, item, instant, cat, thr, tp, md, li, w1.
      cbv zeta. unfold HostedFacts.athensWall in Wf.
      destruct Wf as [Ww Wl].
      cbn [add_log writes last_created_txt db snapshot next_message_id].
      split; [reflexivity|]. split; [exact Hin|]. split; [exact U|].
      split; [exact Htp|]. split; [exact Hmd|]. split; [exact Rd|].
      split; [cbn [snd add_log writes]; congruence|].
      split; [exact Wl|]. split; [exact S1|].
      split; [exact F|].
      split; [exact (proj1 (proj2 (@HostedFacts.firstFailure_none H P _ w1 F)))|].
      split.
      { apply (@HostedRunFacts.rowsCommitted_from_same P _ w w1 _ S1).
        exact Rc. }
      intros K. pose proof (Hc K) as K1.
      assert (K2 : (c_created item
                    <= castDatetime H
                         (Calendar.pattern
                            (instant + tzOffset H (lit "Europe/Athens") instant)))%Z).
      { apply (K item _ Hin). unfold HostedFacts.formatted. rewrite Rd.
        reflexivity. }
      lia.
    + left. destruct Wf as [Fw Fl].
      split; cbn [snd add_log writes last_created_txt] in *; congruence.
Qed.

(** The theorem on the run that posts the article created at 13:00, in a
    process on the winter time of Athens, the watermark read being
    12:00: it writes 13:00. *)
Lemma watermark_written_once_after_commit_and_forward_witness :
  let w := HostDemo.fresh in
  let w' := snd (Hosted.main HostDemo.athensWinter HostDemo.ports w) in
  snapshot w = None
  /\ HostedRunFacts.keepsForward HostDemo.athensWinter w
  /\ writes w' = [HostDemo.cast (lit "2024-01-01 13:00:00")]
  /\ (HostDemo.cast (lit "2024-01-01 12:00:00")
      < HostDemo.cast (lit "2024-01-01 13:00:00"))%Z.
Proof.
  assert (K : HostedRunFacts.keepsForward HostDemo.athensWinter HostDemo.fresh).
  { intros it v [<-|[]] F. vm_compute in F. injection F as <-.
    vm_compute. discriminate. }
  split; [reflexivity|]. split; [exact K|].
  destruct (@watermark_written_once_after_commit_and_forward
              HostDemo.athensWinter HostDemo.ports HostDemo.fresh eq_refl)
    as [[Hw _]|(read & item & instant & cat & thr & tp & md & li & w1
                & L & Hin & _ & _ & _ & Rd & Ww & Wl & S1 & F & _ & Rc & Fw)].
  - vm_compute in Hw. discriminate Hw.
  - destruct Hin as [<-|[]].
    vm_compute in Rd. injection Rd as <-.
    vm_compute in L. injection L as <-.
    split; [exact Ww|]. exact (Fw K).
Defined.

(** ** What the writer reports *)

(** X15 — the writer stops at the first thing that fails: the opening of
    the transaction, a statement (an update fails on a fault or on
    matching no row, an insert on a fault only), the commit, or the write
    of the watermark file after the commit.  It has then sent the
    statements up to there and no further one, and has left the file
    alone; when the rollback of its handler resolves it returns, the last
    thing it logged being that failure with its error, and the rows are
    as before the write unless they were committed already; when that
    rollback rejects, its error leaves the writer.  When nothing fails,
    the writer returns after seven statements with the message and its
    text committed, the last thing it logged being the id of the message
    it inserted. *)
Theorem writer_reports_first_failing_step (H : Host) (P : Ports)
        (data : postData) (w : world) :
  snapshot w = None ->
  let r := Hosted.insertMessage H P data w in
  match HostedFacts.firstFailure H P data w with
  | Some (err, sent, committed) =>
      queries (snd r) = sent + queries w
      /\ HostedFacts.fileUntouched w (snd r)
      /\ (committed = true -> HostedFacts.rowsCommitted P data w (snd r))
      /\ match rejects H Rollback (sent + queries w) with
         | None =>
             fst r = Ok tt
             /\ hd_error (log (snd r)) = Some (TransactionFailed err)
             /\ (committed = false -> db (snd r) = db w)
         | Some err' => fst r = Throw err'
         end
  | None =>
      fst r = Ok tt
      /\ hd_error (log (snd r)) = Some (InsertedMessage (next_message_id w))
      /\ queries (snd r) = 7 + queries w
      /\ HostedFacts.rowsCommitted P data w (snd r)
  end.
Proof.
  intros S0 r.
  pose proof (@HostedFacts.insertMessage_outcome H P data w S0) as O.
  cbv zeta in O. fold r in O. destruct O as [_ O].
  destruct (HostedFacts.firstFailure H P data w)
    as [[[err sent] committed]|].
  - destruct O as (Oq & Of & Oc & Or).
    split; [exact Oq|]. split; [exact Of|].
    split; [intros ->; exact Oc|].
    destruct (rejects H Rollback (sent + queries w)); [exact Or|].
    destruct Or as [Or1 Or2]. split; [exact Or1|]. split; [exact Or2|].
    intros ->. destruct Oc as [Oc _]. exact Oc.
  - destruct O as (O1 & O2 & O3 & O4 & _). auto.
Qed.

(** The theorem on a write whose statements and commit succeed and whose
    write of the file is refused: the writer reports that refusal, with
    the message committed and the file as it was. *)
Lemma writer_reports_first_failing_step_witness :
  let host := HostDemo.processAt 0 HostDemo.readOnlyFile in
  let r := Hosted.insertMessage host HostDemo.ports HostDemo.articleData
                                HostDemo.fresh in
  fst r = Ok tt
  /\ hd_error (log (snd r))
     = Some (TransactionFailed (lit "EACCES: permission denied"))
  /\ length (jos_kunena_messages (db (snd r))) = 1
  /\ writes (snd r) = [].
Proof.
  intros host r.
  pose proof (@writer_reports_first_failing_step host HostDemo.ports
                HostDemo.articleData HostDemo.fresh eq_refl) as T.
  cbv zeta in T. fold r in T.
  assert (F : HostedFacts.firstFailure host HostDemo.ports
                HostDemo.articleData HostDemo.fresh
              = Some (lit "EACCES: permission denied", 7, true))
    by (vm_compute; reflexivity).
  rewrite F in T.
  change (rejects host Rollback (7 + queries HostDemo.fresh))
    with (@None jsstring) in T.
  destruct T as (_ & (Tw & _) & Tc & Tok & Tlog & _).
  destruct (Tc eq_refl) as (_ & Tm & _).
  split; [exact Tok|]. split; [exact Tlog|].
  split; [rewrite Tm; reflexivity|exact Tw].
Defined.

(** ** What a run posts *)

(** X8 — a run started with no transaction open, on a store whose topic
    ids are numbers that JavaScript holds exactly, ends normally when no
    article's creation time is read as the Invalid Date and the rollback
    does not reject.  If it ends normally and changes a row at all, it has
    committed one reply: for an article of the store that passes the
    filter of the lookup and whose last forum address names a category
    and a thread with a topic row, and that has a main picture, it
    appended one message, under the message id the counter held, to that
    thread and category, with the topic's first post as parent and the
    topic's subject, by the configured poster at the time of the write,
    and one text for that message, composed around the address of that
    picture.  The articles and the pictures are as they were. *)
Theorem run_posts_one_reply_to_the_linked_thread (H : Host) (P : Ports)
        (w : world) :
  snapshot w = None ->
  (forall tp, In tp (jos_kunena_topics (db w)) ->
              (t_id tp < 2 ^ 53 /\ t_category_id tp < 2 ^ 53)%Z) ->
  let r := Hosted.main H P w in
  let w' := snd r in
  ((forall item, In item (jos_content (db w)) ->
                 readDatetime H (c_created item) <> None) ->
   (forall n, rejects H Rollback n = None) ->
   fst r = Ok tt)
  /\ (fst r = Ok tt ->
      db w' = db w
      \/ exists item cat thr tp md,
          In item (jos_content (db w))
          /\ likeForumTopic P (c_fulltext item) = true
          /\ UrlRegex.urlMatch (c_fulltext item) = Some (cat, thr)
          /\ In tp (jos_kunena_topics (db w))
          /\ t_id tp = Z.of_N (Hosted.Number thr)
          /\ t_category_id tp = Z.of_N (Hosted.Number cat)
          /\ In md (jos_jreviews_media (db w))
          /\ i_listing_id md = c_id item
          /\ i_main_media md = 1%Z
          /\ jos_kunena_messages (db w')
             = jos_kunena_messages (db w)
                 ++ [{| m_id := next_message_id w;
                        m_parent := t_first_post_id tp;
                        m_thread := t_id tp;
                        m_catid := t_category_id tp;
                        m_subject := t_subject tp;
                        m_userid := USER_ID P;
                        m_name := USER_NAME P;
                        m_time := now P;
                        m_ip := lit "162.158.210.219" |}]
          /\ (exists title body,
                 jos_kunena_messages_text (db w')
                 = jos_kunena_messages_text (db w)
                     ++ [{| x_mesid := next_message_id w;
                            x_message :=
                              Composer.finalPost title
                                (PostFacts.pictureUrl md) body |}])
          /\ jos_content (db w') = jos_content (db w)
          /\ jos_jreviews_media (db w') = jos_jreviews_media (db w)).
Proof.
  intros S0 Hid r w'. subst w' r.
  destruct (last_created_txt w) as [read|] eqn:L.
  2:{ rewrite HostedRunFacts.hosted_main_eq, L.
      split; [reflexivity|left; reflexivity]. }
  destruct (@HostedRunFacts.main_flat H P w read L) as (out & C & ->).
  destruct C as [[S1 C]|C].
  { destruct out as [[e|err] w1]; cbn [fst snd] in *.
    - split; [reflexivity|]. intros _. left. destruct S1 as [Sd _]. exact Sd.
    - split; [|discriminate].
      intros Hv _. destruct C as [[e C]|[_ (it & Hi & Hn)]]; [discriminate C|].
      destruct (Hv it Hi Hn). }
  destruct C as (c' & item & cat & thr & tp & md & li & depth & w1
                 & Hc & Hin & Hlt & Hlike & U & Htp & Hmd & S1 & ->).
  assert (S1' := S1).
  destruct S1' as (Sd & Ss & Sn & Sa & Sl & Sw).
  assert (S2 : snapshot w1 = None) by congruence.
  set (data := HostedRunFacts.postFor P item cat thr tp md li) in *.
  pose proof (@HostedFacts.insertMessage_outcome H P data w1 S2) as O.
  cbv zeta in O. destruct O as [_ O].
  unfold HostedRunFacts.afterWriter.
  destruct (Hosted.insertMessage H P data w1) as [ri wi].
  cbn [fst snd] in O.
  split.
  { intros _ Hr.
    destruct (HostedFacts.firstFailure H P data w1)
      as [[[err sent] committed]|].
    - rewrite Hr in O. destruct O as (_ & _ & _ & -> & _). reflexivity.
    - destruct O as (-> & _). reflexivity. }
  intros Hok.
  destruct ri as [u|err0]; cbn [fst snd] in *; [|discriminate Hok].
  assert (Rows : db wi = db w1 \/ HostedFacts.rowsCommitted P data w1 wi).
  { destruct (HostedFacts.firstFailure H P data w1)
      as [[[err sent] committed]|].
    - destruct O as (_ & _ & Oc & Or).
      destruct committed; [right; exact Oc|].
      destruct (rejects H Rollback (sent + queries w1)).
      + discriminate Or.
      + left. destruct Oc as [Oc _]. exact Oc.
    - right. destruct O as (_ & _ & Oc & _). exact Oc. }
  destruct Rows as [Rows|Rows]; [left; cbn; congruence|].
  right. exists item, cat, thr, tp, md.
  assert (Tp : In tp (jos_kunena_topics (db w))
               /\ t_id tp = Z.of_N (toN thr)
               /\ t_category_id tp = Z.of_N (toN cat)).
  { unfold selectSubjectAndParent in Htp.
    destruct (filter _ (jos_kunena_topics (db w))) as [|x l] eqn:F;
      [discriminate Htp|].
    cbn in Htp. injection Htp as ->.
    assert (I : In tp (tp :: l)) by (left; reflexivity).
    rewrite <- F in I. apply filter_In in I. destruct I as [I Hb].
    apply andb_true_iff in Hb. destruct Hb as [Hb1 Hb2].
    apply Z.eqb_eq in Hb1, Hb2. auto. }
  assert (Md : In md (jos_jreviews_media (db w))
               /\ i_listing_id md = c_id item /\ i_main_media md = 1%Z).
  { unfold selectImage in Hmd.
    destruct (filter _ (jos_jreviews_media (db w))) as [|x l] eqn:F;
      [discriminate Hmd|].
    cbn in Hmd. injection Hmd as ->.
    assert (I : In md (md :: l)) by (left; reflexivity).
    rewrite <- F in I. apply filter_In in I. destruct I as [I Hb].
    apply andb_true_iff in Hb. destruct Hb as [Hb1 Hb2].
    apply Z.eqb_eq in Hb1, Hb2. auto. }
  destruct Tp as (Tp1 & Tp2 & Tp3). destruct Md as (Md1 & Md2 & Md3).
  destruct (Hid tp Tp1) as [Hid1 Hid2].
  assert (N1 : Hosted.Number thr = toN thr).
  { apply HostedRunFacts.Number_exact.
    change (2 ^ 53)%Z with (Z.of_N (2 ^ 53)) in Hid1. lia. }
  assert (N2 : Hosted.Number cat = toN cat).
  { apply HostedRunFacts.Number_exact.
    change (2 ^ 53)%Z with (Z.of_N (2 ^ 53)) in Hid2. lia. }
  destruct Rows as (_ & Rm & Rt & Rc & Rp & _).
  cbn [db add_log].
  split; [exact Hin|]. split; [exact Hlike|]. split; [exact U|].
  split; [exact Tp1|]. split; [congruence|]. split; [congruence|].
  split; [exact Md1|]. split; [exact Md2|]. split; [exact Md3|].
  split.
  { rewrite Rm, Sd. unfold WriterFacts.newMessage, data,
      HostedRunFacts.postFor.
    cbn [parentId threadId categoryId subject userId name].
    rewrite Sn, N1, N2, Tp2, Tp3. reflexivity. }
  split.
  { eexists _, _. rewrite Rt, Sd. unfold WriterFacts.newText, data,
      HostedRunFacts.postFor.
    cbn [message]. rewrite Sn. reflexivity. }
  split; [rewrite Rc, Sd; reflexivity|].
  rewrite Rp, Sd. reflexivity.
Qed.

(** The theorem on the run that posts the one article of the store, in a
    process on the winter time of Athens. *)
Lemma run_posts_one_reply_to_the_linked_thread_witness :
  let w := HostDemo.fresh in
  let r := Hosted.main HostDemo.athensWinter HostDemo.ports w in
  fst r = Ok tt
  /\ exists tp,
      In tp (jos_kunena_topics (db w))
      /\ map m_thread (jos_kunena_messages (db (snd r))) = [t_id tp]
      /\ map m_parent (jos_kunena_messages (db (snd r)))
         = [t_first_post_id tp].
Proof.
  intros w r.
  assert (Hid : forall tp, In tp (jos_kunena_topics (db w)) ->
                           (t_id tp < 2 ^ 53 /\ t_category_id tp < 2 ^ 53)%Z).
  { intros tp [<-|[]]. split; reflexivity. }
  destruct (@run_posts_one_reply_to_the_linked_thread
              HostDemo.athensWinter HostDemo.ports w eq_refl Hid)
    as [T1 T2].
  cbv zeta in T1, T2. fold r in T1, T2.
  assert (Hok : fst r = Ok tt).
  { apply T1; [intros item _; discriminate|reflexivity]. }
  split; [exact Hok|].
  destruct (T2 Hok)
    as [Hd|(item & cat & thr & tp & md & _ & _ & _ & Tp1 & _ & _ & _ & _ & _
            & Hm & _)].
  - vm_compute in Hd. discriminate Hd.
  - exists tp. split; [exact Tp1|].
    rewrite Hm. split; reflexivity.
Defined.
